(** * karakeep-telegram-bot: classification, batching and polling core

    A shallow embedding of the ingestion pipeline of the bot
    (packages [classifier], [telegram], [karakeep] and [app]) and of
    what surrounds it (packages [config], [security], [crypto] and
    [storage], the webhook, the commands and the uploads), together
    with the proofs of the properties its design document states and
    of further properties of the code.

    Go values are modelled as follows.
    - [string] is a sequence of bytes: [list ascii].  [len], slicing
      and [==] are the byte-level operations of Go; the functions of
      the [strings], [unicode/utf8], [unicode/utf16] and
      [path/filepath] packages the bot calls are written out in
      [Module GoString].
    - [int], [int64] and [time.Duration] are [Z]; additions that can
      leave the 64-bit range on caller-supplied values wrap explicitly.
    - a nil-able pointer is an [option]; an [error] is an [option]
      holding the text of [Error()].
    - [map[string]T] is a [gmap], [map[string]struct{}] a [gset].
    - the clock, timers, tickers and remote calls are explicit state. *)

From Stdlib Require Import ZArith List Ascii String DecimalString Lia Bool.
From stdpp Require Import base option list gmap strings sorting.
Import ListNotations.

Open Scope Z_scope.

(** A Go [string]. *)
Abbreviation gostring := (list ascii).

(** The bytes of a literal. *)
Definition str (s : string) : gostring := list_ascii_of_string s.

(* ================================================================== *)
(** * Go strings                                                       *)
(* ================================================================== *)

Module GoString.

Definition byte_val (c : ascii) : Z := Z.of_N (N_of_ascii c).
Definition byte_of (z : Z) : ascii := ascii_of_N (Z.to_N z).

(** [len(s)]. *)
Definition len (s : gostring) : Z := Z.of_nat (length s).

(** [s] is the empty string. *)
Definition is_empty (s : gostring) : bool :=
  match s with [] => true | _ :: _ => false end.

(** [s == t] *)
Definition eqb (s t : gostring) : bool := bool_decide (s = t).

(** ** White space ([unicode.IsSpace]) in its UTF-8 encodings *)

(** U+0009..U+000D and U+0020. *)
Definition is_space1 (c : ascii) : bool :=
  let n := byte_val c in ((9 <=? n) && (n <=? 13)) || (n =? 32).

(** U+0085 and U+00A0. *)
Definition is_space2 (c1 c2 : ascii) : bool :=
  (byte_val c1 =? 194) && ((byte_val c2 =? 133) || (byte_val c2 =? 160)).

(** U+1680, U+2000..U+200A, U+2028, U+2029, U+202F, U+205F, U+3000. *)
Definition is_space3 (c1 c2 c3 : ascii) : bool :=
  let a := byte_val c1 in
  let b := byte_val c2 in
  let c := byte_val c3 in
  ((a =? 225) && (b =? 154) && (c =? 128))
  || ((a =? 226) && (b =? 128)
      && (((128 <=? c) && (c <=? 138)) || (c =? 168) || (c =? 169) || (c =? 175)))
  || ((a =? 226) && (b =? 129) && (c =? 159))
  || ((a =? 227) && (b =? 128) && (c =? 128)).

(** Whether the bytes start with the encoding of a white-space code
    point. *)
Definition starts_with_space (s : gostring) : bool :=
  match s with
  | [] => false
  | c1 :: t1 =>
      is_space1 c1
      || match t1 with
         | [] => false
         | c2 :: t2 =>
             is_space2 c1 c2
             || match t2 with
                | [] => false
                | c3 :: _ => is_space3 c1 c2 c3
                end
         end
  end.

(** The same for the end of the bytes, read backwards. *)
Definition ends_with_space (s : gostring) : bool :=
  match s with
  | [] => false
  | c1 :: t1 =>
      is_space1 c1
      || match t1 with
         | [] => false
         | c2 :: t2 =>
             is_space2 c2 c1
             || match t2 with
                | [] => false
                | c3 :: _ => is_space3 c3 c2 c1
                end
         end
  end.

(** [strings.TrimLeftFunc(s, unicode.IsSpace)]: drop the leading
    white-space code points.  A code point is decoded as white space
    exactly when the bytes start with its (shortest) encoding. *)
Fixpoint trim_left (s : gostring) : gostring :=
  match s with
  | [] => []
  | c1 :: t1 =>
      if is_space1 c1 then trim_left t1 else
      match t1 with
      | [] => s
      | c2 :: t2 =>
          if is_space2 c1 c2 then trim_left t2 else
          match t2 with
          | [] => s
          | c3 :: t3 => if is_space3 c1 c2 c3 then trim_left t3 else s
          end
      end
  end.

(** The same scan on the reversed bytes: [utf8.DecodeLastRune] reads
    an encoding backwards from its last byte. *)
Fixpoint trim_left_rev (s : gostring) : gostring :=
  match s with
  | [] => []
  | c1 :: t1 =>
      if is_space1 c1 then trim_left_rev t1 else
      match t1 with
      | [] => s
      | c2 :: t2 =>
          if is_space2 c2 c1 then trim_left_rev t2 else
          match t2 with
          | [] => s
          | c3 :: t3 => if is_space3 c3 c2 c1 then trim_left_rev t3 else s
          end
      end
  end.

(** [strings.TrimRightFunc(s, unicode.IsSpace)] *)
Definition trim_right (s : gostring) : gostring :=
  rev (trim_left_rev (rev s)).

(** [strings.TrimSpace] *)
Definition TrimSpace (s : gostring) : gostring := trim_right (trim_left s).

(** ** UTF-8 *)

Definition rune := Z.

Definition RuneError : rune := 65533.

Definition is_cont (c : ascii) : bool :=
  (128 <=? byte_val c) && (byte_val c <=? 191).

Definition in_range (lo hi : Z) (c : ascii) : bool :=
  (lo <=? byte_val c) && (byte_val c <=? hi).

(** Second byte of a three-byte encoding led by [c1] (no overlong
    forms, no surrogates). *)
Definition second_of3 (c1 c2 : ascii) : bool :=
  let a := byte_val c1 in
  if a =? 224 then in_range 160 191 c2
  else if a =? 237 then in_range 128 159 c2
  else in_range 128 191 c2.

(** Second byte of a four-byte encoding led by [c1]. *)
Definition second_of4 (c1 c2 : ascii) : bool :=
  let a := byte_val c1 in
  if a =? 240 then in_range 144 191 c2
  else if a =? 244 then in_range 128 143 c2
  else in_range 128 191 c2.

Definition low6 (c : ascii) : Z := Z.land (byte_val c) 63.

(** [[]rune(s)]: every byte that does not start a well-formed
    encoding decodes to [RuneError] and is one byte wide. *)
Fixpoint runes (s : gostring) : list rune :=
  match s with
  | [] => []
  | c1 :: t1 =>
      let a := byte_val c1 in
      if a <? 128 then a :: runes t1
      else
        match t1 with
        | [] => [RuneError]
        | c2 :: t2 =>
            if in_range 194 223 c1 && is_cont c2 then
              Z.lor (Z.shiftl (Z.land a 31) 6) (low6 c2) :: runes t2
            else
              match t2 with
              | [] => RuneError :: runes t1
              | c3 :: t3 =>
                  if in_range 224 239 c1 && second_of3 c1 c2 && is_cont c3 then
                    Z.lor (Z.shiftl (Z.land a 15) 12)
                          (Z.lor (Z.shiftl (low6 c2) 6) (low6 c3)) :: runes t3
                  else
                    match t3 with
                    | [] => RuneError :: runes t1
                    | c4 :: t4 =>
                        if in_range 240 244 c1 && second_of4 c1 c2
                           && is_cont c3 && is_cont c4 then
                          Z.lor (Z.shiftl (Z.land a 7) 18)
                                (Z.lor (Z.shiftl (low6 c2) 12)
                                       (Z.lor (Z.shiftl (low6 c3) 6) (low6 c4)))
                          :: runes t4
                        else RuneError :: runes t1
                    end
              end
        end
  end.

(** [utf8.RuneCountInString] *)
Definition RuneCountInString (s : gostring) : Z := Z.of_nat (length (runes s)).

Definition valid_rune (r : rune) : bool :=
  ((0 <=? r) && (r <? 55296)) || ((57343 <? r) && (r <=? 1114111)).

Definition cont_byte (z : Z) : ascii := byte_of (Z.lor 128 (Z.land z 63)).

(** [utf8.AppendRune] *)
Definition encode_rune (r : rune) : gostring :=
  let r := if valid_rune r then r else RuneError in
  if r <? 128 then [byte_of r]
  else if r <? 2048 then
    [byte_of (Z.lor 192 (Z.shiftr r 6)); cont_byte r]
  else if r <? 65536 then
    [byte_of (Z.lor 224 (Z.shiftr r 12)); cont_byte (Z.shiftr r 6); cont_byte r]
  else
    [byte_of (Z.lor 240 (Z.shiftr r 18)); cont_byte (Z.shiftr r 12);
     cont_byte (Z.shiftr r 6); cont_byte r].

(** [string(rs)] for [rs []rune] *)
Definition of_runes (rs : list rune) : gostring := concat (map encode_rune rs).

(** [len(utf16.Encode([]rune{r}))]: two code units exactly for the
    supplementary planes. *)
Definition utf16_len (r : rune) : Z :=
  if (65536 <=? r) && (r <=? 1114111) then 2 else 1.

(** ** Other functions of [strings], [strconv] and slicing *)

(** [strings.HasPrefix(s, p)] *)
Fixpoint HasPrefix (s p : gostring) : bool :=
  match p, s with
  | [], _ => true
  | _ :: _, [] => false
  | a :: p', b :: s' => bool_decide (a = b) && HasPrefix s' p'
  end.

(** [strings.Contains(s, sub)] *)
Fixpoint Contains (s sub : gostring) : bool :=
  HasPrefix s sub
  || match s with
     | [] => false
     | _ :: s' => Contains s' sub
     end.

(** [strings.ToLower].  The letters of ASCII, and the two code points
    outside ASCII whose lower case is an ASCII letter (U+0130 and
    U+212A), are mapped; every other byte is kept, which changes no
    comparison of the result with the ASCII constants of this
    program. *)
Fixpoint ToLower (s : gostring) : gostring :=
  match s with
  | [] => []
  | c1 :: t1 =>
      if in_range 65 90 c1 then byte_of (byte_val c1 + 32) :: ToLower t1
      else
        match t1 with
        | [] => [c1]
        | c2 :: t2 =>
            if (byte_val c1 =? 196) && (byte_val c2 =? 176)
            then "i"%char :: ToLower t2
            else
              match t2 with
              | [] => c1 :: ToLower t1
              | c3 :: t3 =>
                  if (byte_val c1 =? 226) && (byte_val c2 =? 132)
                     && (byte_val c3 =? 170)
                  then "k"%char :: ToLower t3
                  else c1 :: ToLower t1
              end
        end
  end.

(** [strconv.Itoa], the [%d] verb of [fmt]. *)
Definition Itoa (z : Z) : gostring :=
  str (DecimalString.NilZero.string_of_int (Z.to_int z)).

(** [s[:n]] for [0 <= n <= len(s)]. *)
Definition prefix_bytes (n : Z) (s : gostring) : gostring :=
  take (Z.to_nat n) s.

End GoString.

(* ================================================================== *)
(** * Keeping first occurrences                                        *)
(* ================================================================== *)

Module Dedup.

(** The list with, of the elements that share a key, only the first
    one kept, where it stands. *)
Fixpoint keep_first_by {A K} `{EqDecision K} (key : A -> K) (l : list A) : list A :=
  match l with
  | [] => []
  | x :: l' => x :: filter (fun y => key y <> key x) (keep_first_by key l')
  end.

(** The idiom of the two extractors: append what has a key not seen
    before. *)
Definition add_new {A K} `{EqDecision K} (key : A -> K) (out : list A) (x : A)
  : list A :=
  if decide (key x ∈ key <$> out) then out else out ++ [x].

End Dedup.

(* ================================================================== *)
(** * The messaging library's types ([tgbotapi])                       *)
(* ================================================================== *)

Module Tgbotapi.

Record MessageEntity := {
  Type_ : gostring;
  Offset : Z;
  Length : Z;
  EntityURL : gostring
}.

Record PhotoSize := { PhotoFileID : gostring; PhotoFileSize : Z }.

Record Document := {
  DocFileID : gostring; DocFileName : gostring;
  DocMimeType : gostring; DocFileSize : Z
}.

Record Video := { VideoFileID : gostring; VideoMimeType : gostring; VideoFileSize : Z }.

Record Audio := {
  AudioFileID : gostring; AudioFileName : gostring;
  AudioMimeType : gostring; AudioFileSize : Z
}.

Record Voice := { VoiceFileID : gostring; VoiceMimeType : gostring; VoiceFileSize : Z }.

Record Animation := {
  AnimFileID : gostring; AnimFileName : gostring;
  AnimMimeType : gostring; AnimFileSize : Z
}.

Record VideoNote := { NoteFileID : gostring; NoteFileSize : Z }.

Record Sticker := { StickerFileID : gostring; IsAnimated : bool; StickerFileSize : Z }.

(** The fields of [tgbotapi.Message] the pipeline reads. *)
Record Message := {
  MessageID : Z;
  Date : Z;
  Text : gostring;
  Caption : gostring;
  Entities : list MessageEntity;
  CaptionEntities : list MessageEntity;
  MediaGroupID : gostring;
  Photo : list PhotoSize;
  Document_ : option Document;
  Video_ : option Video;
  Audio_ : option Audio;
  Voice_ : option Voice;
  Animation_ : option Animation;
  VideoNote_ : option VideoNote;
  Sticker_ : option Sticker
}.

End Tgbotapi.

(* ================================================================== *)
(** * Package [classifier]                                             *)
(* ================================================================== *)

Module Classifier.
Import GoString Tgbotapi.

(** Go's [int] addition: two's complement on 64 bits. *)
Definition wrap64 (z : Z) : Z := (z + 2 ^ 63) mod 2 ^ 64 - 2 ^ 63.

(** ** utf16slice.go *)

(** The [for ri, r := range runes] loop of [SliceByUTF16].  The
    result is [(startRI, endRI, curCU)] as they stand when the loop is
    left, by [break] or at the end of the slice; [n] is [len(runes)]
    and [ri] the index of the head of [rs]. *)
Fixpoint slice_loop (n startCU endCU : Z) (rs : list rune)
         (ri curCU startRI : Z) : Z * Z * Z :=
  match rs with
  | [] => (startRI, n, curCU)
  | r :: rs' =>
      let startRI :=
        if (curCU >=? startCU) && (startRI =? n) then ri else startRI in
      if curCU >=? endCU then (startRI, ri, curCU)
      else slice_loop n startCU endCU rs' (ri + 1) (curCU + utf16_len r) startRI
  end.

(** [runes[lo:hi]] for [0 <= lo <= hi <= len(runes)]. *)
Definition subslice {A} (l : list A) (lo hi : Z) : list A :=
  take (Z.to_nat (hi - lo)) (drop (Z.to_nat lo) l).

Definition SliceByUTF16 (s : gostring) (off length : Z) : gostring :=
  let off := if off <? 0 then 0 else off in
  let length := if length <? 0 then 0 else length in
  let rs := runes s in
  let n := Z.of_nat (List.length rs) in
  let startCU := off in
  let endCU := wrap64 (off + length) in
  let '(startRI, endRI, curCU) := slice_loop n startCU endCU rs 0 0 n in
  let startRI := if startCU >=? curCU then n else startRI in
  let endRI := if endCU >=? curCU then n else endRI in
  let startRI := if startRI >? endRI then endRI else startRI in
  of_runes (subslice rs startRI endRI).

(** The substring the pair addresses under UTF-16 counting: the code
    points whose first code unit lies in the span, [pos] being the
    position in code units of the head of [rs]. *)
Fixpoint span_runes (off length pos : Z) (rs : list rune) : list rune :=
  match rs with
  | [] => []
  | r :: rs' =>
      (if (off <=? pos) && (pos <? off + length) then [r] else [])
      ++ span_runes off length (pos + utf16_len r) rs'
  end.

Definition utf16_span (s : gostring) (off length : Z) : gostring :=
  of_runes (span_runes (Z.max off 0) (Z.max length 0) 0 (runes s)).

(** ** extract_urls.go *)

(** The character class of [trailingPunctRE], [[)\].,!?:;]]. *)
Definition is_trailing_punct (c : ascii) : bool :=
  bool_decide (c ∈ str ")].,!?:;").

Fixpoint drop_while {A} (f : A -> bool) (l : list A) : list A :=
  match l with
  | [] => []
  | x :: l' => if f x then drop_while f l' else l
  end.

(** [trailingPunctRE.ReplaceAllString] with the empty replacement: the
    pattern is anchored at the end of the text, so its only match is the
    longest run of class characters that ends the text. *)
Definition strip_trailing_punct (u : gostring) : gostring :=
  rev (drop_while is_trailing_punct (rev u)).

Definition normalize (u : gostring) : gostring :=
  TrimSpace (strip_trailing_punct (TrimSpace u)).

(** The state the closure [add] captures: [out] and [seen]. *)
Definition acc : Type := list gostring * gset gostring.

Definition add (st : acc) (u : gostring) : acc :=
  let u := normalize u in
  if is_empty u then st
  else if bool_decide (u ∈ st.2) then st
  else (st.1 ++ [u], {[u]} ∪ st.2).

Definition visit (text : gostring) (st : acc) (e : MessageEntity) : acc :=
  if eqb (Type_ e) (str "text_link") then add st (EntityURL e)
  else if eqb (Type_ e) (str "url") then
    add st (SliceByUTF16 text (Offset e) (Length e))
  else st.

Definition ExtractURLs (text : gostring) (entities : list MessageEntity)
  : list gostring :=
  (foldl (visit text) ([], ∅) entities).1.

Definition ExtractURLsFromMessage (msg : option Message) : list gostring :=
  match msg with
  | None => []
  | Some m =>
      if negb (is_empty (Text m)) then ExtractURLs (Text m) (Entities m)
      else if negb (is_empty (Caption m)) then
        ExtractURLs (Caption m) (CaptionEntities m)
      else []
  end.

(** ** classify.go *)

(** [type Kind string] *)
Abbreviation Kind := gostring.

Definition KindBookmark : Kind := str "bookmark".
Definition KindNote : Kind := str "note".
Definition KindFile : Kind := str "file".

Record Result := {
  Kind_ : Kind;
  URL : gostring;
  Notes : gostring;
  ResText : gostring;
  URLs : list gostring;
  HasMedia : bool
}.

(** The zero value of [Result]. *)
Definition zero_Result : Result :=
  {| Kind_ := []; URL := []; Notes := []; ResText := []; URLs := [];
     HasMedia := false |}.

Definition firstNonEmpty (a b : gostring) : gostring :=
  if negb (is_empty (TrimSpace a)) then a else b.

Definition messageHasMedia (msg : option Message) : bool :=
  match msg with
  | None => false
  | Some m =>
      if 0 <? Z.of_nat (List.length (Photo m)) then true
      else if bool_decide (Document_ m ≠ None) || bool_decide (Video_ m ≠ None)
              || bool_decide (Animation_ m ≠ None) || bool_decide (Audio_ m ≠ None)
              || bool_decide (Voice_ m ≠ None) || bool_decide (VideoNote_ m ≠ None)
      then true
      else if bool_decide (Sticker_ m ≠ None) then true
      else false
  end.

Definition ClassifyMessage (msg : option Message) : Result :=
  match msg with
  | None =>
      {| Kind_ := KindNote; URL := []; Notes := []; ResText := [];
         URLs := []; HasMedia := false |}
  | Some m =>
      let text := TrimSpace (firstNonEmpty (Text m) (Caption m)) in
      let urls := ExtractURLsFromMessage msg in
      let hasMedia := messageHasMedia msg in
      if hasMedia && is_empty text && (Z.of_nat (List.length urls) =? 0) then
        {| Kind_ := KindFile; URL := []; Notes := []; ResText := [];
           URLs := []; HasMedia := true |}
      else if hasMedia then
        {| Kind_ := KindNote; URL := []; Notes := []; ResText := text;
           URLs := urls; HasMedia := true |}
      else
        match urls with
        | [] =>
            {| Kind_ := KindNote; URL := []; Notes := []; ResText := text;
               URLs := urls; HasMedia := false |}
        | [u0] =>
            let onlyURL := TrimSpace u0 in
            if eqb text onlyURL then
              {| Kind_ := KindBookmark; URL := onlyURL; Notes := [];
                 ResText := []; URLs := []; HasMedia := false |}
            else
              {| Kind_ := KindBookmark; URL := onlyURL; Notes := text;
                 ResText := []; URLs := urls; HasMedia := false |}
        | _ :: _ :: _ =>
            {| Kind_ := KindNote; URL := []; Notes := []; ResText := text;
               URLs := urls; HasMedia := false |}
        end
  end.

(** ** What the extractor is to return *)

(** The text an entity contributes, before it is normalized: the
    target of an explicit link, the span an auto-detected URL covers as
    the offset resolver returns it, nothing for the other entities. *)
Definition candidate (text : gostring) (e : MessageEntity) : option gostring :=
  if eqb (Type_ e) (str "text_link") then Some (EntityURL e)
  else if eqb (Type_ e) (str "url") then
    Some (SliceByUTF16 text (Offset e) (Length e))
  else None.

Definition candidates (text : gostring) (entities : list MessageEntity)
  : list gostring :=
  omap (candidate text) entities.

Definition nonempty (u : gostring) : Prop := u <> [].

(** Normalized, the empty results dropped, first occurrences kept. *)
Definition extracted (text : gostring) (entities : list MessageEntity)
  : list gostring :=
  Dedup.keep_first_by id (filter nonempty (normalize <$> candidates text entities)).

(** [seen] holds what [out] holds. *)
Definition seen_is_out (st : acc) : Prop := forall u, u ∈ st.2 <-> u ∈ st.1.

End Classifier.

(* ================================================================== *)
(** * Package [app]: attachments.go                                    *)
(* ================================================================== *)

Module Attachments.
Import GoString Tgbotapi.

Record Attachment := {
  FileID : gostring;
  Filename : gostring;
  Mime : gostring;
  SizeBytes : Z
}.

Definition is_slash (c : ascii) : bool := bool_decide (c = "/"%char).

Fixpoint take_while {A} (f : A -> bool) (l : list A) : list A :=
  match l with
  | [] => []
  | x :: l' => if f x then x :: take_while f l' else []
  end.

(** [filepath.Base] where the separator is the slash. *)
Definition Base (path : gostring) : gostring :=
  if is_empty path then str "."
  else
    let path := rev (Classifier.drop_while is_slash (rev path)) in
    let path := rev (take_while (fun c => negb (is_slash c)) (rev path)) in
    if is_empty path then str "/" else path.

Definition safeFilename (name : gostring) : gostring :=
  let name := TrimSpace name in
  if is_empty name then str "upload.bin" else Base name.

(** The state the closure [add] captures: [out] and [seen]. *)
Definition acc : Type := list Attachment * gset gostring.

Definition add (st : acc) (a : Attachment) : acc :=
  if is_empty (TrimSpace (FileID a)) then st
  else if bool_decide (FileID a ∈ st.2) then st
  else
    let seen := {[FileID a]} ∪ st.2 in
    let a :=
      if is_empty (TrimSpace (Filename a))
      then {| FileID := FileID a; Filename := str "upload.bin";
              Mime := Mime a; SizeBytes := SizeBytes a |}
      else a in
    (st.1 ++ [a], seen).

Definition or_default (fn dflt : gostring) : gostring :=
  if is_empty (TrimSpace fn) then dflt else fn.

(** The body of the loop over the batch, for one non-nil message. *)
Definition visit_message (st : acc) (msg : Message) : acc :=
  let st :=
    match last (Photo msg) with
    | Some p =>
        add st {| FileID := PhotoFileID p; Filename := str "photo.jpg";
                  Mime := str "image/jpeg"; SizeBytes := PhotoFileSize p |}
    | None => st
    end in
  let st :=
    match Document_ msg with
    | Some d =>
        add st {| FileID := DocFileID d;
                  Filename := safeFilename (or_default (DocFileName d) (str "document"));
                  Mime := DocMimeType d; SizeBytes := DocFileSize d |}
    | None => st
    end in
  let st :=
    match Video_ msg with
    | Some v =>
        add st {| FileID := VideoFileID v; Filename := str "video.mp4";
                  Mime := VideoMimeType v; SizeBytes := VideoFileSize v |}
    | None => st
    end in
  let st :=
    match Audio_ msg with
    | Some a =>
        add st {| FileID := AudioFileID a;
                  Filename := safeFilename (or_default (AudioFileName a) (str "audio.mp3"));
                  Mime := AudioMimeType a; SizeBytes := AudioFileSize a |}
    | None => st
    end in
  let st :=
    match Voice_ msg with
    | Some v =>
        add st {| FileID := VoiceFileID v; Filename := str "voice.ogg";
                  Mime := VoiceMimeType v; SizeBytes := VoiceFileSize v |}
    | None => st
    end in
  let st :=
    match Animation_ msg with
    | Some a =>
        add st {| FileID := AnimFileID a;
                  Filename := safeFilename (or_default (AnimFileName a) (str "animation.mp4"));
                  Mime := AnimMimeType a; SizeBytes := AnimFileSize a |}
    | None => st
    end in
  let st :=
    match VideoNote_ msg with
    | Some v =>
        add st {| FileID := NoteFileID v; Filename := str "video_note.mp4";
                  Mime := str "video/mp4"; SizeBytes := NoteFileSize v |}
    | None => st
    end in
  match Sticker_ msg with
  | Some s =>
      let ext := if IsAnimated s then str "tgs" else str "webp" in
      add st {| FileID := StickerFileID s; Filename := str "sticker." ++ ext;
                Mime := []; SizeBytes := StickerFileSize s |}
  | None => st
  end.

Definition visit (st : acc) (msg : option Message) : acc :=
  match msg with
  | None => st
  | Some m => visit_message st m
  end.

Definition ExtractAttachments (msgs : list (option Message)) : list Attachment :=
  (foldl visit ([], ∅) msgs).1.

(** ** What the extractor is to return *)

Definition one {A B} (o : option A) (f : A -> B) : list B :=
  match o with Some x => [f x] | None => [] end.

(** The media objects of one message, in the order of the kind checks,
    with the file names and MIME types given to each kind. *)
Definition candidates_of (msg : Message) : list Attachment :=
  one (last (Photo msg))
      (fun p => {| FileID := PhotoFileID p; Filename := str "photo.jpg";
                   Mime := str "image/jpeg"; SizeBytes := PhotoFileSize p |})
  ++ one (Document_ msg)
      (fun d => {| FileID := DocFileID d;
                   Filename := safeFilename (or_default (DocFileName d) (str "document"));
                   Mime := DocMimeType d; SizeBytes := DocFileSize d |})
  ++ one (Video_ msg)
      (fun v => {| FileID := VideoFileID v; Filename := str "video.mp4";
                   Mime := VideoMimeType v; SizeBytes := VideoFileSize v |})
  ++ one (Audio_ msg)
      (fun a => {| FileID := AudioFileID a;
                   Filename := safeFilename (or_default (AudioFileName a) (str "audio.mp3"));
                   Mime := AudioMimeType a; SizeBytes := AudioFileSize a |})
  ++ one (Voice_ msg)
      (fun v => {| FileID := VoiceFileID v; Filename := str "voice.ogg";
                   Mime := VoiceMimeType v; SizeBytes := VoiceFileSize v |})
  ++ one (Animation_ msg)
      (fun a => {| FileID := AnimFileID a;
                   Filename := safeFilename (or_default (AnimFileName a) (str "animation.mp4"));
                   Mime := AnimMimeType a; SizeBytes := AnimFileSize a |})
  ++ one (VideoNote_ msg)
      (fun v => {| FileID := NoteFileID v; Filename := str "video_note.mp4";
                   Mime := str "video/mp4"; SizeBytes := NoteFileSize v |})
  ++ one (Sticker_ msg)
      (fun s => {| FileID := StickerFileID s;
                   Filename := str "sticker." ++ (if IsAnimated s then str "tgs" else str "webp");
                   Mime := []; SizeBytes := StickerFileSize s |}).

(** The media objects of a batch, in batch order. *)
Definition candidates (msgs : list (option Message)) : list Attachment :=
  msgs ≫= (fun msg => match msg with Some m => candidates_of m | None => [] end).

Definition has_id (a : Attachment) : Prop := TrimSpace (FileID a) <> [].

Definition with_default_name (a : Attachment) : Attachment :=
  if is_empty (TrimSpace (Filename a))
  then {| FileID := FileID a; Filename := str "upload.bin";
          Mime := Mime a; SizeBytes := SizeBytes a |}
  else a.

(** Those with an identifier, of equal identifiers only the first. *)
Definition attachments (msgs : list (option Message)) : list Attachment :=
  with_default_name <$> Dedup.keep_first_by FileID (filter has_id (candidates msgs)).

(** [out] holds the kept candidates with their names filled in, [seen]
    their identifiers. *)
Definition tracks (st : acc) (kept : list Attachment) : Prop :=
  st.1 = with_default_name <$> kept /\ forall f, f ∈ st.2 <-> f ∈ FileID <$> kept.

End Attachments.

(* ================================================================== *)
(** * Package [telegram]: mediagroup.go                                *)
(* ================================================================== *)

Module Collector.
Import GoString Tgbotapi.

(** [time.Second], in nanoseconds. *)
Definition Second : Z := 1000000000.

(** A [*time.Timer] is the instant at which it is due; [nil] is
    [None].  The function the timer runs is [c.flush(groupID)] for the
    group that holds it. *)
Record mediaGroup := {
  timer : option Z;
  msgs : list Message
}.

(** [OnFlush] is opaque: only whether it is non-nil matters here, its
    invocations are recorded in the [World]. *)
Record MediaGroupCollector := {
  Delay : Z;
  OnFlush : bool;
  groups : gmap gostring mediaGroup
}.

Record FlushCall := {
  at_ : Z;
  groupID : gostring;
  batch : list Message
}.

(** The clock, the collector and the calls of [OnFlush] so far. *)
Record World := {
  now : Z;
  collector : MediaGroupCollector;
  calls : list FlushCall
}.

Definition NewMediaGroupCollector (delay : Z) (onFlush : bool)
  : MediaGroupCollector :=
  let delay := if delay <=? 0 then 2 * Second else delay in
  {| Delay := delay; OnFlush := onFlush; groups := ∅ |}.

Definition with_groups (c : MediaGroupCollector) (gs : gmap gostring mediaGroup)
  : MediaGroupCollector :=
  {| Delay := Delay c; OnFlush := OnFlush c; groups := gs |}.

(** [time.AfterFunc(d, f)] and [t.Reset(d)] both leave the timer due
    [d] after the present instant. *)
Definition due_after (w : World) (d : Z) : option Z := Some (now w + d).

(** [Collect] on a collector that is not nil, the mutex held from the
    first look at the map to the end. *)
Definition Collect (w : World) (msg : option Message) : World :=
  match msg with
  | None => w
  | Some m =>
      if is_empty (MediaGroupID m) then w
      else
        let c := collector w in
        let gid := MediaGroupID m in
        let g :=
          match groups c !! gid with
          | Some g => g
          | None => {| timer := due_after w (Delay c); msgs := [] |}
          end in
        let g := {| timer := timer g; msgs := msgs g ++ [m] |} in
        let g :=
          match timer g with
          | Some _ => {| timer := due_after w (Delay c); msgs := msgs g |}
          | None => g
          end in
        {| now := now w;
           collector := with_groups c (<[gid := g]> (groups c));
           calls := calls w |}
  end.

(** [flush]: the group leaves the map and its timer with it
    ([g.timer.Stop()]); the callback is called when it is not nil and
    the batch is not empty. *)
Definition flush (w : World) (gid : gostring) : World :=
  let c := collector w in
  match groups c !! gid with
  | Some g =>
      let c' := with_groups c (delete gid (groups c)) in
      let batch := msgs g in
      if OnFlush c && (0 <? Z.of_nat (length batch)) then
        {| now := now w; collector := c';
           calls := calls w ++ [{| at_ := now w; groupID := gid; batch := batch |}] |}
      else {| now := now w; collector := c'; calls := calls w |}
  | None => w
  end.

(** ** The timer runtime *)

Definition due_at (kg : gostring * mediaGroup) : Z :=
  match timer kg.2 with Some d => d | None => 0 end.

Definition is_due (t : Z) (kg : gostring * mediaGroup) : bool :=
  match timer kg.2 with Some d => d <=? t | None => false end.

Definition earlier (x y : gostring * mediaGroup) : Prop := due_at x <= due_at y.

#[global] Instance earlier_dec : RelDecision earlier.
Proof. intros x y. unfold earlier. apply _. Defined.

(** The timers that are due at or before [t], earliest first. *)
Definition due_timers (t : Z) (w : World) : list (gostring * mediaGroup) :=
  merge_sort earlier (List.filter (is_due t) (map_to_list (groups (collector w)))).

(** A timer that fires runs [flush] for its group at its due instant. *)
Definition fire (w : World) (kg : gostring * mediaGroup) : World :=
  flush {| now := due_at kg; collector := collector w; calls := calls w |} kg.1.

(** Let the clock reach [t]: every timer due by then fires. *)
Definition advance (t : Z) (w : World) : World :=
  let w' := foldl fire w (due_timers t w) in
  {| now := Z.max (now w') t; collector := collector w'; calls := calls w' |}.

(** A message that reaches [Collect] at instant [t]. *)
Definition arrival : Type := Z * Message.

Definition step (w : World) (a : arrival) : World :=
  Collect (advance a.1 w) (Some a.2).

(** The arrivals in turn on a fresh collector, then the clock runs
    on to [horizon]. *)
Definition run (delay : Z) (arrivals : list arrival) (horizon : Z) : World :=
  advance horizon
    (foldl step
       {| now := 0; collector := NewMediaGroupCollector delay true; calls := [] |}
       arrivals).

(** ** Bursts *)

(** Each instant of [ts] is not before the one that precedes it,
    [prev] for the first, and less than [d] after it. *)
Fixpoint paced (d prev : Z) (ts : list Z) : Prop :=
  match ts with
  | [] => True
  | t :: ts' => prev <= t < prev + d /\ paced d t ts'
  end.

(** Each instant of [ts] is not before the one that precedes it,
    [prev] for the first. *)
Fixpoint ascending (prev : Z) (ts : list Z) : Prop :=
  match ts with
  | [] => True
  | t :: ts' => prev <= t /\ ascending t ts'
  end.

(** The arrivals cut into bursts.  [cur] is the burst that is open, in
    arrival order, [prev] the instant of its last arrival: an arrival
    less than [d] later joins it, any other one closes it and opens the
    next.  The result is the closed bursts and the open one. *)
Fixpoint gather (d : Z) (closed : list (list arrival)) (cur : list arrival)
         (prev : Z) (rest : list arrival) : list (list arrival) * list arrival :=
  match rest with
  | [] => (closed, cur)
  | a :: rest' =>
      if a.1 <? prev + d then gather d closed (cur ++ [a]) a.1 rest'
      else gather d (closed ++ [cur]) [a] a.1 rest'
  end.

(** The instant of the last arrival of a burst. *)
Definition last_instant (burst : list arrival) : Z := default 0 (last burst.*1).

(** The call of [OnFlush] a burst is due. *)
Definition flush_of (d : Z) (gid : gostring) (burst : list arrival) : FlushCall :=
  {| at_ := last_instant burst + d; groupID := gid; batch := burst.*2 |}.

(** The calls of [OnFlush] made for [gid]. *)
Definition calls_for (gid : gostring) (w : World) : list FlushCall :=
  filter (fun c => groupID c = gid) (calls w).

(** The world in which [gid] alone is accumulating. *)
Definition accumulating (t d : Z) (gid : gostring) (due : Z) (ms : list Message)
           (cs : list FlushCall) : World :=
  {| now := t;
     collector := {| Delay := d; OnFlush := true;
                     groups := {[ gid := {| timer := Some due; msgs := ms |} ]} |};
     calls := cs |}.

(** The world in which no group is accumulating. *)
Definition idle (t d : Z) (cs : list FlushCall) : World :=
  {| now := t;
     collector := {| Delay := d; OnFlush := true; groups := ∅ |};
     calls := cs |}.

End Collector.

(* ================================================================== *)
(** * Package [karakeep]: types.go                                     *)
(* ================================================================== *)

Module Karakeep.
Import GoString.

#[local] Set Warnings "-register-all".

(** A decoded JSON document, as [encoding/json] hands it over in an
    [any]: [nil], [bool], [float64] (kept as its literal), [string],
    [[]any] and [map[string]any].  The fields of an object are listed
    in the order in which a [range] over the map happens to visit
    them; a decoded object holds every key once. *)
Inductive json :=
| JNull
| JBool (b : bool)
| JNumber (literal : gostring)
| JString (s : gostring)
| JArray (items : list json)
| JObject (fields : list (gostring * json)).

Record Tag := { TagID : gostring; TagName : gostring }.

Record Bookmark := {
  ID : gostring;
  BookmarkURL : gostring;
  Title : gostring;
  BookmarkNotes : gostring;
  Summary : gostring;
  Tags : list Tag;
  Raw : gostring
}.

(** [Bookmark{}] *)
Definition zero_Bookmark : Bookmark :=
  {| ID := []; BookmarkURL := []; Title := []; BookmarkNotes := [];
     Summary := []; Tags := []; Raw := [] |}.

(** [obj[key].(string)] *)
Fixpoint lookup_string (key : gostring) (obj : list (gostring * json))
  : option gostring :=
  match obj with
  | [] => None
  | (k, v) :: obj' =>
      if eqb k key then match v with JString s => Some s | _ => None end
      else lookup_string key obj'
  end.

Section Decoding.

(** [json.Unmarshal] into an [any]; [None] is a syntax error. *)
Variable Unmarshal : gostring -> option json.

(** [json.Unmarshal(raw, &s)] for [var s string]: [null] leaves [s]
    empty. *)
Definition unmarshal_string (raw : gostring) : option gostring :=
  match Unmarshal raw with
  | Some (JString s) => Some s
  | Some JNull => Some []
  | _ => None
  end.

(** [json.Unmarshal(raw, &m)] for [var m map[string]any]: [null]
    leaves [m] nil, which ranges like the empty map. *)
Definition unmarshal_object (raw : gostring) : option (list (gostring * json)) :=
  match Unmarshal raw with
  | Some (JObject fields) => Some fields
  | Some JNull => Some []
  | _ => None
  end.

Definition SummaryText (b : Bookmark) : gostring :=
  if len (Summary b) =? 0 then []
  else
    match unmarshal_string (Summary b) with
    | Some s => TrimSpace s
    | None =>
        match unmarshal_object (Summary b) with
        | Some obj =>
            match lookup_string (str "text") obj with
            | Some v => TrimSpace v
            | None =>
                match lookup_string (str "summary") obj with
                | Some v => TrimSpace v
                | None => []
                end
            end
        | None => []
        end
    end.

End Decoding.

End Karakeep.

(* ================================================================== *)
(** * Package [app]: app.go                                            *)
(* ================================================================== *)

Module App.
Import GoString Karakeep.

(** ** Error texts *)

Definition hint404 : gostring :=
  str " Похоже, указан не тот адрес сервера. Укажи домен Karakeep без /api: /server https://<host>".

Definition hint401 : gostring :=
  str " Проверь API key (/key) и права ключа.".

Definition hint400 : gostring :=
  str " Похоже, Karakeep не принял payload. Обычно это означает неверные поля запроса (url/title/notes). Я починю формат после уточнения текста ошибки в логах.".

Definition ellipsis : gostring := str "…".

(** [fmt.Sprintf("❌ Ошибка Karakeep (%d).", status)] *)
Definition error_head (status : Z) : gostring :=
  str "❌ Ошибка Karakeep (" ++ Itoa status ++ str ").".

Definition userFacingKarakeepError (status : Z) (err : option gostring)
  : gostring :=
  let msg := error_head status in
  if status =? 404 then msg ++ hint404
  else if (status =? 401) || (status =? 403) then msg ++ hint401
  else
    let msg := if status =? 400 then msg ++ hint400 else msg in
    let msg :=
      match err with
      | Some e => msg ++ str " " ++ TrimSpace e
      | None => msg
      end in
    if len msg >? 800 then prefix_bytes 800 msg ++ ellipsis else msg.

(** ** Readiness of the extracted content *)

Definition quote : ascii := "034"%char.

(** The key [crawlStatus] and the value [success], each between double
    quotes, a colon between them and no space. *)
Definition crawl_marker : gostring :=
  quote :: str "crawlStatus" ++ quote :: str ":" ++ quote :: str "success" ++ [quote].

(** The same for the key [taggingStatus]. *)
Definition tagging_marker : gostring :=
  quote :: str "taggingStatus" ++ quote :: str ":" ++ quote :: str "success" ++ [quote].

Definition is_excluded_key (kl : gostring) : bool :=
  eqb kl (str "notes") || eqb kl (str "note") || eqb kl (str "summary").

Definition is_content_key (kl : gostring) : bool :=
  eqb kl (str "content") || eqb kl (str "html") || eqb kl (str "text")
  || eqb kl (str "textcontent") || eqb kl (str "readablecontent")
  || eqb kl (str "excerpt") || eqb kl (str "description")
  || eqb kl (str "markdown") || eqb kl (str "article").

(** [s, ok := vv.(string); ok && len(strings.TrimSpace(s)) >= n] *)
Definition long_string (n : Z) (vv : json) : bool :=
  match vv with
  | JString s => len (TrimSpace s) >=? n
  | _ => false
  end.

(** The first result of [findNonTrivialContent].  The second one, the
    map [sig] of what was seen, only feeds the log line of the waiter
    and is left out. *)
Fixpoint findNonTrivialContent (v : json) (depth : Z) {struct v} : bool :=
  if depth >? 6 then false
  else
    match v with
    | JNull => false
    | JObject x =>
        (fix range (x : list (gostring * json)) : bool :=
           match x with
           | [] => false
           | (k, vv) :: rest =>
               let kl := ToLower k in
               if is_excluded_key kl then range rest
               else if is_content_key kl && long_string 200 vv then true
               else if findNonTrivialContent vv (depth + 1) then true
               else range rest
           end) x
    | JArray x =>
        (fix range (x : list json) : bool :=
           match x with
           | [] => false
           | vv :: rest =>
               if findNonTrivialContent vv (depth + 1) then true
               else range rest
           end) x
    | JString x => len (TrimSpace x) >=? 400
    | JBool _ | JNumber _ => false
    end.

(** ** What the scan is to find *)

(** The keys the design document names as suggesting page content. *)
Definition named_content_keys : list gostring :=
  [str "content"; str "html"; str "text"; str "excerpt"; str "description";
   str "markdown"; str "article"].

(** The keys the scan takes as suggesting page content. *)
Definition scanned_content_keys : list gostring :=
  [str "content"; str "html"; str "text"; str "textcontent";
   str "readablecontent"; str "excerpt"; str "description"; str "markdown";
   str "article"].

Definition excluded_keys : list gostring := [str "notes"; str "note"; str "summary"].

(** [finds keys d v]: the scan of [v], met at depth [d], finds a sign
    of extracted content: [v] is a string of 400 bytes or more once
    trimmed; or a field of [v], not under an excluded key, is a string of
    200 bytes or more once trimmed under one of [keys], or holds such a
    sign one level down; or an item of [v] holds one.  Keys are compared
    in lower case, and nothing is looked at beyond depth 6. *)
Inductive finds (keys : list gostring) : Z -> json -> Prop :=
| finds_large d x :
    d <= 6 -> len (TrimSpace x) >= 400 -> finds keys d (JString x)
| finds_field d fields k s :
    d <= 6 -> (k, JString s) ∈ fields ->
    ToLower k ∉ excluded_keys -> ToLower k ∈ keys ->
    len (TrimSpace s) >= 200 ->
    finds keys d (JObject fields)
| finds_below_field d fields k v :
    d <= 6 -> (k, v) ∈ fields ->
    ToLower k ∉ excluded_keys -> finds keys (d + 1) v ->
    finds keys d (JObject fields)
| finds_below_item d items v :
    d <= 6 -> v ∈ items -> finds keys (d + 1) v ->
    finds keys d (JArray items).

Section Remote.

Variable Unmarshal : gostring -> option json.

(** The first result of [hasExtractedContent]. *)
Definition hasExtractedContent (raw : gostring) : bool :=
  if len raw =? 0 then false
  else if Contains raw crawl_marker || Contains raw tagging_marker then true
  else
    match unmarshal_object Unmarshal raw with
    | None => false
    | Some m => findNonTrivialContent (JObject m) 0
    end.

(** The record carries a success marker, or it decodes to an object in
    which the scan finds a sign of extracted content. *)
Definition extraction_signalled (keys : list gostring) (raw : gostring) : Prop :=
  Contains raw crawl_marker = true
  \/ Contains raw tagging_marker = true
  \/ (raw <> [] /\
      exists m, unmarshal_object Unmarshal raw = Some m /\ finds keys 0 (JObject m)).

Definition looksEmptySummary (s : gostring) : bool :=
  let s := ToLower s in
  Contains s (str "content is empty")
  || Contains s (str "no information to summarize").

(** ** Polling waiters *)

(** One turn of the loop as the remote service answers it: how long
    the calls of the turn take ([Summarize] and [GetBookmark] for
    the summary waiter), and what [GetBookmark] returns, [None]
    standing for [err != nil]. *)
Record Reply := {
  took : Z;
  got : option Bookmark
}.

(** What surrounds a waiter: the replies of the service turn by
    turn, the instant at which [ctx.Done()] is closed, if ever, and
    the case [select] takes on a turn where both are ready. *)
Record Env := {
  remote : nat -> Reply;
  cancel_at : option Z;
  pick_tick : nat -> bool
}.

(** A [*time.Ticker]: ticks are due every [period]; its channel
    holds one tick, a tick that finds it full is dropped. *)
Record Ticker := {
  next_tick : Z;
  period : Z;
  buffered : bool
}.

(** [time.NewTicker(d)] at instant [now]. *)
Definition NewTicker (now d : Z) : Ticker :=
  {| next_tick := now + d; period := d; buffered := false |}.

(** The clock reaches [t]: the ticks due by then are sent. *)
Definition let_pass (t : Z) (tk : Ticker) : Ticker :=
  if next_tick tk <=? t then
    {| next_tick :=
         next_tick tk + period tk * ((t - next_tick tk) / period tk + 1);
       period := period tk;
       buffered := true |}
  else tk.

Inductive selected :=
| Ticked (now : Z) (tk : Ticker)
| Cancelled (now : Z).

Definition cancelled_by (env : Env) (t : Z) : bool :=
  match cancel_at env with
  | Some c => c <=? t
  | None => false
  end.

Definition take_tick (tk : Ticker) : Ticker :=
  {| next_tick := next_tick tk; period := period tk; buffered := false |}.

Definition await_tick (tk : Ticker) : selected :=
  Ticked (next_tick tk)
         {| next_tick := next_tick tk + period tk; period := period tk;
            buffered := false |}.

(** [select { case <-ctx.Done(): ... case <-t.C: }] reached at
    [now] on turn [i]. *)
Definition select (env : Env) (i : nat) (now : Z) (tk : Ticker) : selected :=
  if buffered tk then
    if cancelled_by env now && negb (pick_tick env i) then Cancelled now
    else Ticked now (take_tick tk)
  else if cancelled_by env now then Cancelled now
  else
    match cancel_at env with
    | Some c =>
        if c <? next_tick tk then Cancelled c
        else if (c =? next_tick tk) && negb (pick_tick env i) then Cancelled c
        else await_tick tk
    | None => await_tick tk
    end.

(** The [for] loop both waiters run, [ready] being the test each
    applies to a bookmark read without error.  The result is the
    bookmark that passed the test, if any, and the instant of the
    return; [None] only when [fuel] turns were not enough. *)
Fixpoint poll_loop (ready : Bookmark -> bool) (env : Env) (deadline : Z)
         (fuel : nat) (i : nat) (now : Z) (tk : Ticker)
  : option (option Bookmark * Z) :=
  match fuel with
  | O => None
  | S fuel' =>
      let r := remote env i in
      let now := now + took r in
      let tk := let_pass now tk in
      let found :=
        match got r with
        | Some b => if ready b then Some b else None
        | None => None
        end in
      match found with
      | Some b => Some (Some b, now)
      | None =>
          if now >? deadline then Some (None, now)
          else
            match select env i now tk with
            | Cancelled t => Some (None, t)
            | Ticked t tk' => poll_loop ready env deadline fuel' (S i) t tk'
            end
      end
  end.

(** The read of turn [i] does not pass the test. *)
Definition not_ready_at (ready : Bookmark -> bool) (env : Env) (i : nat) : Prop :=
  forall b, got (remote env i) = Some b -> ready b = false.

(** What holds of the clock and of the ticker at the head of turn [i]
    of a loop entered at [start]: no tick is buffered, the next one is
    due within the interval, and [i] ticks have gone by. *)
Definition at_head (start interval timeout : Z) (i : nat) (now : Z) (tk : Ticker)
  : Prop :=
  period tk = interval /\ buffered tk = false
  /\ now < next_tick tk <= now + interval
  /\ now <= start + timeout + interval
  /\ start + (Z.of_nat i + 1) * interval <= next_tick tk.

Definition Minute : Z := 60 * Collector.Second.

Definition or_default (d dflt : Z) : Z := if d <=? 0 then dflt else d.

Definition extraction_ready (b : Bookmark) : bool := hasExtractedContent (Raw b).

Definition summary_ready (b : Bookmark) : bool :=
  let s := TrimSpace (SummaryText Unmarshal b) in
  negb (is_empty s) && negb (looksEmptySummary s).

(** Called at instant [start]; the result comes with the instant of
    the return. *)
Definition waitForExtractedContent (env : Env) (start interval timeout : Z)
           (fuel : nat) : option (bool * Z) :=
  let interval := or_default interval (3 * Collector.Second) in
  let timeout := or_default timeout (3 * Minute) in
  let deadline := start + timeout in
  let t := NewTicker start interval in
  match poll_loop extraction_ready env deadline fuel 0 start t with
  | Some (Some _, at_) => Some (true, at_)
  | Some (None, at_) => Some (false, at_)
  | None => None
  end.

Definition waitForNonEmptySummary (env : Env) (start interval timeout : Z)
           (fuel : nat) : option (Bookmark * bool * Z) :=
  let interval := or_default interval (3 * Collector.Second) in
  let timeout := or_default timeout (3 * Minute) in
  let deadline := start + timeout in
  let t := NewTicker start interval in
  match poll_loop summary_ready env deadline fuel 0 start t with
  | Some (Some b, at_) => Some (b, true, at_)
  | Some (None, at_) => Some (zero_Bookmark, false, at_)
  | None => None
  end.

(** Turns that are always enough for a waiter with these settings. *)
Definition enough_fuel (interval timeout : Z) : nat :=
  Z.to_nat (or_default timeout (3 * Minute)
            / or_default interval (3 * Collector.Second)) + 2.

End Remote.

(** ** The submission step of [processMessageBatch] *)

(** The arguments of one [client.CreateBookmark] call. *)
Record CreateCall := {
  call_url : gostring;
  call_title : gostring;
  call_notes : gostring
}.

(** What [client.CreateBookmark] returns. *)
Record Created := {
  created : Bookmark;
  status : Z;
  err : option gostring
}.

(** A computation that calls the service: it reads and extends the
    list of the create calls made so far. *)
Definition Client (A : Type) : Type := list CreateCall -> A * list CreateCall.

#[global] Instance client_ret : MRet Client :=
  fun A (a : A) calls => (a, calls).

#[global] Instance client_bind : MBind Client :=
  fun A B (k : A -> Client B) (m : Client A) calls =>
    let '(a, calls') := m calls in k a calls'.

Section Submit.

(** [time.Unix(sec, 0).UTC().Format(time.RFC3339)] *)
Variable rfc3339 : Z -> gostring.

(** The service: its answer to a create call, given the create
    calls it has answered before. *)
Variable respond : list CreateCall -> CreateCall -> Created.

Definition CreateBookmark (urlStr title notes : gostring) : Client Created :=
  fun calls =>
    let call := {| call_url := urlStr; call_title := title; call_notes := notes |} in
    (respond calls call, calls ++ [call]).

(** The [switch res.Kind] that creates the record; [date] is
    [msg.Date]. *)
Definition submit (res : Classifier.Result) (date : Z) : Client Created :=
  if eqb (Classifier.Kind_ res) Classifier.KindBookmark then
    CreateBookmark (Classifier.URL res) [] (Classifier.Notes res)
  else if eqb (Classifier.Kind_ res) Classifier.KindNote then
    r ← CreateBookmark [] [] (Classifier.ResText res);
    match err r, Classifier.URLs res with
    | Some _, u0 :: _ => CreateBookmark u0 [] (Classifier.ResText res)
    | _, _ => mret r
    end
  else if eqb (Classifier.Kind_ res) Classifier.KindFile then
    let notes := str "Telegram media (" ++ rfc3339 date ++ str ")" in
    CreateBookmark [] [] notes
  else mret {| created := zero_Bookmark; status := 0; err := None |}.

End Submit.

End App.

(* ================================================================== *)
(** * Positions in UTF-16 code units                                   *)
(* ================================================================== *)

Module Utf16.
Import GoString.

(** The number of UTF-16 code units the code points of [rs] take. *)
Definition units (rs : list rune) : Z := foldr (fun r n => utf16_len r + n) 0 rs.

(** Whether one of the code points of [rs] starts at code unit [c],
    [pos] being the position of the head of [rs]. *)
Fixpoint starts_at (c pos : Z) (rs : list rune) : bool :=
  match rs with
  | [] => false
  | r :: rs' => (pos =? c) || starts_at c (pos + utf16_len r) rs'
  end.

(** The index in [rs] of the first code point that starts at code unit
    [c] or later, the length of [rs] when there is none. *)
Fixpoint first_at (c pos : Z) (rs : list rune) : nat :=
  match rs with
  | [] => O
  | r :: rs' => if pos >=? c then O else S (first_at c (pos + utf16_len r) rs')
  end.

End Utf16.

(* ================================================================== *)
(** * What the collector hands over                                    *)
(* ================================================================== *)

Module Delivery.
Import Tgbotapi Collector.

(** The units handed to the callback so far, call after call. *)
Definition delivered (w : World) : list Message := calls w ≫= batch.

(** The units the groups of a live map hold. *)
Definition held (gs : gmap gostring mediaGroup) : list Message :=
  map_to_list gs ≫= (fun kg => msgs kg.2).

(** The units [Collect] takes up: those that carry a group identifier. *)
Definition grouped (arrivals : list arrival) : list Message :=
  filter (fun m => MediaGroupID m <> []) arrivals.*2.

(** A batch that holds units, all of the group it is handed over for. *)
Definition of_one_group (gid : gostring) (ms : list Message) : Prop :=
  gid <> [] /\ ms <> [] /\ Forall (fun m => MediaGroupID m = gid) ms.

(** What holds of a collector that has taken up [taken]: the callback
    is set; every live group holds units of its own identifier, in the
    order they were taken up, and a timer; so did every call; and every
    unit taken up is held or was handed over, once. *)
Record sound (taken : list Message) (w : World) : Prop := {
  sound_callback : OnFlush (collector w) = true;
  sound_groups : forall gid g,
    groups (collector w) !! gid = Some g ->
    of_one_group gid (msgs g) /\ msgs g `sublist_of` taken /\ is_Some (timer g);
  sound_calls :
    Forall (fun c => of_one_group (groupID c) (batch c) /\ batch c `sublist_of` taken)
           (calls w);
  sound_once : delivered w ++ held (groups (collector w)) ≡ₚ taken
}.

(** The clock has not passed [limit], and no timer is due more than the
    delay after it. *)
Definition timely (limit : Z) (w : World) : Prop :=
  now w <= limit
  /\ forall gid g due,
       groups (collector w) !! gid = Some g -> timer g = Some due ->
       due <= limit + Delay (collector w).

End Delivery.

(* ================================================================== *)
(** * Package [net]: the address tests the bot calls                   *)
(* ================================================================== *)

Module Net.
Import GoString.

(** [net.IP], a slice of bytes.  [nil] is the empty slice: the tests
    below only look at the length. *)
Abbreviation IP := (list ascii).

Definition octet (z : Z) : ascii := byte_of z.

(** [ip[i]] *)
Definition at_ (ip : IP) (i : nat) : Z := byte_val (nth i ip (octet 0)).

Definition v4InV6Prefix : IP := repeat (octet 0) 10 ++ [octet 255; octet 255].

(** [net.IPv4(a, b, c, d)]: the 16-byte form of an IPv4 address. *)
Definition IPv4 (a b c d : ascii) : IP := v4InV6Prefix ++ [a; b; c; d].

Definition IPv4zero : IP := IPv4 (octet 0) (octet 0) (octet 0) (octet 0).
Definition IPv6unspecified : IP := repeat (octet 0) 16.
Definition IPv6loopback : IP := repeat (octet 0) 15 ++ [octet 1].

Definition isZeros (p : IP) : bool := forallb (fun c => byte_val c =? 0) p.

Definition To4 (ip : IP) : option IP :=
  if (length ip =? 4)%nat then Some ip
  else if (length ip =? 16)%nat && isZeros (take 10 ip)
          && (at_ ip 10 =? 255) && (at_ ip 11 =? 255)
  then Some (drop 12 ip)
  else None.

Definition To16 (ip : IP) : option IP :=
  if (length ip =? 4)%nat then
    Some (IPv4 (nth 0 ip (octet 0)) (nth 1 ip (octet 0))
               (nth 2 ip (octet 0)) (nth 3 ip (octet 0)))
  else if (length ip =? 16)%nat then Some ip
  else None.

Definition Equal (ip x : IP) : bool :=
  if (length ip =? length x)%nat then bool_decide (ip = x)
  else if (length ip =? 4)%nat && (length x =? 16)%nat then
    bool_decide (take 12 x = v4InV6Prefix) && bool_decide (ip = drop 12 x)
  else if (length ip =? 16)%nat && (length x =? 4)%nat then
    bool_decide (take 12 ip = v4InV6Prefix) && bool_decide (drop 12 ip = x)
  else false.

Definition IsUnspecified (ip : IP) : bool :=
  Equal ip IPv4zero || Equal ip IPv6unspecified.

Definition IsLoopback (ip : IP) : bool :=
  match To4 ip with
  | Some ip4 => at_ ip4 0 =? 127
  | None => Equal ip IPv6loopback
  end.

Definition IsMulticast (ip : IP) : bool :=
  match To4 ip with
  | Some ip4 => Z.land (at_ ip4 0) 240 =? 224
  | None => (length ip =? 16)%nat && (at_ ip 0 =? 255)
  end.

Definition IsLinkLocalMulticast (ip : IP) : bool :=
  match To4 ip with
  | Some ip4 => (at_ ip4 0 =? 224) && (at_ ip4 1 =? 0) && (at_ ip4 2 =? 0)
  | None => (length ip =? 16)%nat && (at_ ip 0 =? 255)
            && (Z.land (at_ ip 1) 15 =? 2)
  end.

Definition IsLinkLocalUnicast (ip : IP) : bool :=
  match To4 ip with
  | Some ip4 => (at_ ip4 0 =? 169) && (at_ ip4 1 =? 254)
  | None => (length ip =? 16)%nat && (at_ ip 0 =? 254)
            && (Z.land (at_ ip 1) 192 =? 128)
  end.

End Net.

(* ================================================================== *)
(** * Package [security]: ssrf.go                                      *)
(* ================================================================== *)

Module Security.
Import GoString Net.

(** [strings.TrimSuffix(s, suffix)] *)
Definition TrimSuffix (s suffix : gostring) : gostring :=
  if HasPrefix (rev s) (rev suffix)
  then take (length s - length suffix) s
  else s.

Definition isLocalHostname (h : gostring) : bool :=
  let h := ToLower (TrimSuffix h (str ".")) in
  eqb h (str "localhost") || eqb h (str "localhost.localdomain").

(** Called on the 16-byte form. *)
Definition isPrivate (ip : IP) : bool :=
  match To4 ip with
  | Some v4 =>
      if at_ v4 0 =? 10 then true
      else if (at_ v4 0 =? 172) && (at_ v4 1 >=? 16) && (at_ v4 1 <=? 31) then true
      else if (at_ v4 0 =? 192) && (at_ v4 1 =? 168) then true
      else if at_ v4 0 =? 127 then true
      else if (at_ v4 0 =? 169) && (at_ v4 1 =? 254) then true
      else false
  | None => Z.land (at_ ip 0) 254 =? 252
  end.

Definition isDisallowedIP (ip : IP) : bool :=
  match To16 ip with
  | None => true
  | Some ip =>
      if IsLoopback ip || IsLinkLocalUnicast ip || IsLinkLocalMulticast ip
         || IsMulticast ip || IsUnspecified ip
      then true
      else if isPrivate ip then true
      else false
  end.

(** What [url.Parse] keeps of a URL for this program. *)
Record URL := {
  Scheme : gostring;
  Host : gostring
}.

Section Validate.

(** [url.Parse]; [None] is [err != nil]. *)
Variable Parse : gostring -> option URL.

(** [u.Hostname()]: [u.Host] without the port and the brackets. *)
Variable Hostname : URL -> gostring.

(** [net.LookupIP]; [None] is [err != nil]. *)
Variable LookupIP : gostring -> option (list IP).

(** [u.String()] for a URL that has a scheme and a host only, and
    [ip.String()]. *)
Variable URLString : URL -> gostring.
Variable IPString : IP -> gostring.

(** [fmt.Sprintf("%q", s)] *)
Variable Quote : gostring -> gostring.

(** The normalized base URL, or the text of the error. *)
Definition ValidateServerBaseURL (raw : gostring) : gostring + gostring :=
  let raw := TrimSpace raw in
  if is_empty raw then inr (str "empty url")
  else
    match Parse raw with
    | None => inr (str "invalid url: " ++ Quote raw)
    | Some u =>
        if is_empty (Scheme u) || is_empty (Host u)
        then inr (str "invalid url: " ++ Quote raw)
        else if negb (eqb (Scheme u) (str "https"))
        then inr (str "only https is allowed")
        else
          let host := Hostname u in
          if is_empty host then inr (str "empty hostname")
          else if isLocalHostname host then inr (str "localhost is not allowed")
          else
            let refused :=
              match LookupIP host with
              | Some ips => List.find isDisallowedIP ips
              | None => None
              end in
            match refused with
            | Some ip =>
                inr (str "host resolves to disallowed ip: " ++ IPString ip)
            | None => inl (URLString {| Scheme := Scheme u; Host := Host u |})
            end
    end.

End Validate.

End Security.

(* ================================================================== *)
(** * Package [config]                                                 *)
(* ================================================================== *)

Module Config.
Import GoString.

Record Config := {
  ListenAddr : gostring;
  TelegramBotToken : gostring;
  TelegramWebhookPath : gostring;
  TelegramWebhookSecret : gostring;
  TelegramDebug : bool;
  DBPath : gostring;
  APIKeyMasterKey : gostring
}.

(** The environment of the process.  [os.Getenv] gives the empty
    string for a variable that is not set. *)
Definition Environ : Type := gmap gostring gostring.

Definition Getenv (env : Environ) (key : gostring) : gostring :=
  default [] (env !! key).

(** [strconv.ParseBool]; [None] is [err != nil]. *)
Definition ParseBool (s : gostring) : option bool :=
  if bool_decide (s ∈ [str "1"; str "t"; str "T"; str "TRUE"; str "true"; str "True"])
  then Some true
  else if bool_decide
            (s ∈ [str "0"; str "f"; str "F"; str "FALSE"; str "false"; str "False"])
  then Some false
  else None.

Definition envString (env : Environ) (key def : gostring) : gostring :=
  let v := TrimSpace (Getenv env key) in
  if is_empty v then def else v.

Definition envBool (env : Environ) (key : gostring) (def : bool) : bool :=
  let v := TrimSpace (Getenv env key) in
  if is_empty v then def
  else
    match ParseBool v with
    | Some b => b
    | None => def
    end.

(** The configuration, or the text of the error. *)
Definition FromEnv (env : Environ) : Config + gostring :=
  let listenAddr := envString env (str "LISTEN_ADDR") (str ":8080") in
  let webhookPath := envString env (str "TELEGRAM_WEBHOOK_PATH") (str "/telegram/webhook") in
  let webhookSecret := envString env (str "TELEGRAM_WEBHOOK_SECRET") [] in
  let dbPath := envString env (str "DB_PATH") (str "./data/bot.sqlite") in
  let masterKey := TrimSpace (Getenv env (str "API_KEY_MASTER_KEY")) in
  let token := TrimSpace (Getenv env (str "TELEGRAM_BOT_TOKEN")) in
  if is_empty token then inr (str "TELEGRAM_BOT_TOKEN is required")
  else
    let debug := envBool env (str "TELEGRAM_DEBUG") false in
    inl {| ListenAddr := listenAddr; TelegramBotToken := token;
           TelegramWebhookPath := webhookPath;
           TelegramWebhookSecret := webhookSecret; TelegramDebug := debug;
           DBPath := dbPath; APIKeyMasterKey := masterKey |}.

Section Validate.

(** [fmt.Sprintf("%q", s)] *)
Variable Quote : gostring -> gostring.

(** [None] is the [nil] error. *)
Definition Validate (c : Config) : option gostring :=
  if is_empty (TelegramBotToken c) then Some (str "telegram bot token is empty")
  else if negb (HasPrefix (TelegramWebhookPath c) (str "/")) then
    Some (str "TELEGRAM_WEBHOOK_PATH must start with '/': "
          ++ Quote (TelegramWebhookPath c))
  else if is_empty (TrimSpace (APIKeyMasterKey c)) then
    Some (str "API_KEY_MASTER_KEY is required (used to encrypt api_key in SQLite)")
  else None.

End Validate.

End Config.

(* ================================================================== *)
(** * Package [crypto]                                                 *)
(* ================================================================== *)

Module Crypto.
Import GoString.

(** [type Key [32]byte], as its bytes. *)
Abbreviation Key := (list ascii).

Section Derive.

(** [base64.StdEncoding.DecodeString]: the bytes, or the text of the
    error. *)
Variable DecodeString : gostring -> gostring + gostring.

(** [sha256.Sum256] *)
Variable Sum256 : gostring -> gostring.

(** The key, or the text of the error. *)
Definition DeriveKeyFromSecret (secret : gostring) : Key + gostring :=
  if is_empty secret then inr (str "empty master key")
  else
    match DecodeString secret with
    | inl raw => if (length raw =? 32)%nat then inl raw else inl (Sum256 secret)
    | inr _ => inl (Sum256 secret)
    end.

End Derive.

End Crypto.

(* ================================================================== *)
(** * Package [storage]: sqlite.go                                     *)
(* ================================================================== *)

Module Storage.
Import GoString.

Definition is_blank (c : ascii) : bool :=
  bool_decide (c = " "%char) || bool_decide (c = "010"%char)
  || bool_decide (c = "013"%char) || bool_decide (c = "009"%char).

(** [stringsTrim]: the first loop moves [i] past the leading blanks,
    the second moves [j] back over the trailing blanks of what is
    left, and [s[i:j]] is returned. *)
Definition stringsTrim (s : gostring) : gostring :=
  let rest := Classifier.drop_while is_blank s in
  rev (Classifier.drop_while is_blank (rev rest)).

(** A row of the table [users]; a column that is [NULL] is [None]. *)
Record Row := {
  server_base_url : gostring;
  api_key_ciphertext_b64 : gostring;
  api_key_nonce_b64 : gostring;
  created_at : gostring;
  updated_at : gostring;
  last_success_at : option gostring;
  last_success_id : option gostring
}.

(** The database: the rows of [users] by [telegram_user_id], and the
    error the driver answers every statement with, if it is out of
    order. *)
Record DB := {
  users : gmap Z Row;
  fault : option gostring
}.

Definition with_users (db : DB) (rows : gmap Z Row) : DB :=
  {| users := rows; fault := fault db |}.

(** [INSERT ... ON CONFLICT(telegram_user_id) DO UPDATE SET
    updated_at=excluded.updated_at]; the columns the statement does not
    name take their defaults.  [now] is the text of
    [time.Now().UTC().Format(time.RFC3339Nano)]. *)
Definition UpsertUser (db : DB) (telegramUserID : Z) (now : gostring)
  : DB * option gostring :=
  match fault db with
  | Some e => (db, Some e)
  | None =>
      let row :=
        match users db !! telegramUserID with
        | Some r =>
            {| server_base_url := server_base_url r;
               api_key_ciphertext_b64 := api_key_ciphertext_b64 r;
               api_key_nonce_b64 := api_key_nonce_b64 r;
               created_at := created_at r; updated_at := now;
               last_success_at := last_success_at r;
               last_success_id := last_success_id r |}
        | None =>
            {| server_base_url := []; api_key_ciphertext_b64 := [];
               api_key_nonce_b64 := []; created_at := now; updated_at := now;
               last_success_at := None; last_success_id := None |}
        end in
      (with_users db (<[telegramUserID := row]> (users db)), None)
  end.

(** [UPDATE users SET ... WHERE telegram_user_id=?]: the row with this
    key, if there is one, is replaced; the statement succeeds either
    way. *)
Definition update (db : DB) (telegramUserID : Z) (f : Row -> Row)
  : DB * option gostring :=
  match fault db with
  | Some e => (db, Some e)
  | None => (with_users db (alter f telegramUserID (users db)), None)
  end.

Definition SetServerBaseURL (db : DB) (telegramUserID : Z)
           (serverBaseURL now : gostring) : DB * option gostring :=
  if is_empty (stringsTrim serverBaseURL)
  then (db, Some (str "server base url is empty"))
  else
    update db telegramUserID (fun r =>
      {| server_base_url := serverBaseURL;
         api_key_ciphertext_b64 := api_key_ciphertext_b64 r;
         api_key_nonce_b64 := api_key_nonce_b64 r;
         created_at := created_at r; updated_at := now;
         last_success_at := last_success_at r;
         last_success_id := last_success_id r |}).

Definition SetLastSuccess (db : DB) (telegramUserID : Z)
           (bookmarkID now : gostring) : DB * option gostring :=
  update db telegramUserID (fun r =>
    {| server_base_url := server_base_url r;
       api_key_ciphertext_b64 := api_key_ciphertext_b64 r;
       api_key_nonce_b64 := api_key_nonce_b64 r;
       created_at := created_at r; updated_at := now;
       last_success_at := Some now;
       last_success_id := Some bookmarkID |}).

(** [storage.User]; the zero [time.Time] and a [sql.NullTime] or
    [sql.NullString] that is not valid are [None]. *)
Record User := {
  TelegramUserID : Z;
  ServerBaseURL : gostring;
  APIKeyCiphertextB64 : gostring;
  APIKeyNonceB64 : gostring;
  CreatedAt : option Z;
  UpdatedAt : option Z;
  LastSuccessAt : option Z;
  LastSuccessID : option gostring
}.

(** [User{}] *)
Definition zero_User : User :=
  {| TelegramUserID := 0; ServerBaseURL := []; APIKeyCiphertextB64 := [];
     APIKeyNonceB64 := []; CreatedAt := None; UpdatedAt := None;
     LastSuccessAt := None; LastSuccessID := None |}.

(** [sql.ErrNoRows.Error()] *)
Definition ErrNoRows : gostring := str "sql: no rows in result set".

Section Store.

(** [time.Parse(time.RFC3339Nano, s)]; [None] is [err != nil]. *)
Variable ParseTime : gostring -> option Z.

Definition GetUser (db : DB) (telegramUserID : Z) : User * option gostring :=
  match fault db with
  | Some e => (zero_User, Some e)
  | None =>
      match users db !! telegramUserID with
      | None => (zero_User, Some ErrNoRows)
      | Some r =>
          ({| TelegramUserID := telegramUserID;
              ServerBaseURL := server_base_url r;
              APIKeyCiphertextB64 := api_key_ciphertext_b64 r;
              APIKeyNonceB64 := api_key_nonce_b64 r;
              CreatedAt := ParseTime (created_at r);
              UpdatedAt := ParseTime (updated_at r);
              LastSuccessAt := last_success_at r ≫= ParseTime;
              LastSuccessID := last_success_id r |}, None)
      end
  end.

(** The cipher of the store: [aead.Seal(nil, nonce, plaintext, nil)]
    and [aead.Open(nil, nonce, ciphertext, nil)], and the base-64
    codec.  What can fail gives its bytes or the text of its error.
    The nonces are of the size of the cipher, as [Encrypt] draws
    them. *)
Variable Seal : gostring -> gostring -> gostring.
Variable Open_ : gostring -> gostring -> gostring + gostring.
Variable EncodeToString : gostring -> gostring.
Variable DecodeString : gostring -> gostring + gostring.

(** [nonce] is what [io.ReadFull(rand.Reader, nonce)] has drawn, or the
    text of its error. *)
Definition SetAPIKey (db : DB) (telegramUserID : Z) (apiKey : gostring)
           (nonce : gostring + gostring) (now : gostring) : DB * option gostring :=
  if is_empty (stringsTrim apiKey) then (db, Some (str "api key is empty"))
  else
    match nonce with
    | inr e => (db, Some (str "nonce: " ++ e))
    | inl nonce =>
        let ct := Seal nonce apiKey in
        update db telegramUserID (fun r =>
          {| server_base_url := server_base_url r;
             api_key_ciphertext_b64 := EncodeToString ct;
             api_key_nonce_b64 := EncodeToString nonce;
             created_at := created_at r; updated_at := now;
             last_success_at := last_success_at r;
             last_success_id := last_success_id r |})
    end.

(** The key, whether one is set, and the error. *)
Definition DecryptAPIKey (u : User) : gostring * bool * option gostring :=
  if is_empty (stringsTrim (APIKeyCiphertextB64 u))
     || is_empty (stringsTrim (APIKeyNonceB64 u))
  then ([], false, None)
  else
    match DecodeString (APIKeyCiphertextB64 u) with
    | inr e => ([], false, Some (str "decode api_key ciphertext: " ++ e))
    | inl ct =>
        match DecodeString (APIKeyNonceB64 u) with
        | inr e => ([], false, Some (str "decode api_key nonce: " ++ e))
        | inl nonce =>
            match Open_ nonce ct with
            | inr e => ([], false, Some (str "decrypt: " ++ e))
            | inl pt => (pt, true, None)
            end
        end
    end.

End Store.

Section Opening.

(** [filepath.Dir]; [os.MkdirAll], [None] being the [nil] error;
    [sql.Open] with the configuration of the connection, which gives
    the database or the text of the error; [crypto.NewAEAD], [None]
    being the [nil] error. *)
Variable Dir : gostring -> gostring.
Variable MkdirAll : gostring -> option gostring.
Variable sqlOpen : gostring -> DB + gostring.
Variable B64DecodeString : gostring -> gostring + gostring.
Variable Sum256 : gostring -> gostring.
Variable NewAEAD : Crypto.Key -> option gostring.

(** [CREATE TABLE IF NOT EXISTS users]: the rows that are there
    stay. *)
Definition migrate (db : DB) : option gostring :=
  match fault db with
  | Some e => Some (str "migrate: " ++ e)
  | None => None
  end.

(** The store, by its database and its key, or the text of the
    error. *)
Definition Open (dbPath masterKey : gostring) : DB * Crypto.Key + gostring :=
  if is_empty (stringsTrim dbPath) then inr (str "db path is empty")
  else if is_empty (stringsTrim masterKey) then inr (str "master key is empty")
  else
    match MkdirAll (Dir dbPath) with
    | Some e => inr (str "mkdir db dir: " ++ e)
    | None =>
        match sqlOpen dbPath with
        | inr e => inr (str "sql.Open(sqlite): " ++ e)
        | inl db =>
            match Crypto.DeriveKeyFromSecret B64DecodeString Sum256 masterKey with
            | inr e => inr e
            | inl k =>
                match NewAEAD k with
                | Some e => inr e
                | None =>
                    match migrate db with
                    | Some e => inr e
                    | None => inl (db, k)
                    end
                end
            end
        end
    end.

End Opening.

End Storage.

(* ================================================================== *)
(** * Package [karakeep]: client.go                                    *)
(* ================================================================== *)

Module Client.
Import GoString Karakeep.

(** [strings.TrimPrefix(s, prefix)] *)
Definition TrimPrefix (s prefix : gostring) : gostring :=
  if HasPrefix s prefix then drop (length prefix) s else s.

(** [strings.Split(s, "/")]: the texts between the slashes, one more
    than there are slashes. *)
Fixpoint Split (s : gostring) : list gostring :=
  match s with
  | [] => [[]]
  | c :: s' =>
      if Attachments.is_slash c then [] :: Split s'
      else
        match Split s' with
        | [] => [[c]]
        | part :: parts => (c :: part) :: parts
        end
  end.

(** [strings.Join(parts, "/")] *)
Fixpoint Join (parts : list gostring) : gostring :=
  match parts with
  | [] => []
  | [part] => part
  | part :: parts' => part ++ "/"%char :: Join parts'
  end.

Definition pickPrefix (p : gostring) : gostring :=
  let p := TrimSpace p in
  if is_empty p then str "/api/v1"
  else if negb (HasPrefix p (str "/")) then str "/" ++ p
  else p.

(** The method [altPrefix], by the prefix of the client. *)
Definition altPrefix (apiPrefix : gostring) : gostring * bool :=
  if eqb apiPrefix (str "/api/v1") then (str "/api", true)
  else if eqb apiPrefix (str "/api") then (str "/api/v1", true)
  else (str "/api/v1", true).

(** What the server is sent as a body: the map that is marshalled to
    JSON, or the form of an upload. *)
Inductive Payload :=
| NoBody
| JSONBody (fields : gmap gostring gostring)
| FormBody (data filename mime : gostring).

(** An [*http.Request]: the method, the path of its URL, the headers
    the client sets (empty when not set) and the body the request is
    built over. *)
Record Request := {
  Method : gostring;
  Path : gostring;
  Authorization : gostring;
  Accept : gostring;
  ContentType : gostring;
  Body : Payload
}.

(** An [*http.Response], with the bytes its body can be read for. *)
Record Response := {
  StatusCode : Z;
  ResponseBody : gostring
}.

(** [*APIError], and the errors of other origins by their text. *)
Inductive Err :=
| APIError (StatusCode : Z) (BodyPreview : gostring)
| OtherError (text : gostring).

(** [karakeep.Asset] *)
Record Asset := {
  AssetID : gostring;
  AssetFilename : gostring;
  AssetMime : gostring;
  AssetURL : gostring;
  AssetRaw : gostring
}.

(** [Asset{}] *)
Definition zero_Asset : Asset :=
  {| AssetID := []; AssetFilename := []; AssetMime := []; AssetURL := [];
     AssetRaw := [] |}.

Definition asset_with_Raw (a : Asset) (raw : gostring) : Asset :=
  {| AssetID := AssetID a; AssetFilename := AssetFilename a; AssetMime := AssetMime a;
     AssetURL := AssetURL a; AssetRaw := raw |}.

(** What changes in a client, and the requests it has handed to
    [http.Client.Do] so far. *)
Record State := {
  apiPrefix : gostring;
  sent : list Request
}.

(** A method of the client. *)
Definition Call (A : Type) : Type := State -> A * State.

#[global] Instance call_ret : MRet Call := fun A (a : A) st => (a, st).

#[global] Instance call_bind : MBind Call :=
  fun A B (k : A -> Call B) (m : Call A) st => let '(a, st') := m st in k a st'.

Definition set_prefix (p : gostring) : Call unit :=
  fun st => (tt, {| apiPrefix := p; sent := sent st |}).

Definition get_prefix : Call gostring := fun st => (apiPrefix st, st).

Section Transport.

(** The key of the client. *)
Variable apiKey : gostring.

(** [c.http.Do]: the answer to a request, given the requests answered
    before it; the response, or the text of the error. *)
Variable Do : list Request -> Request -> Response + gostring.

(** [path.Join], and the path of the URL that is parsed from the text
    of the base URL with a path put in. *)
Variable path_Join : list gostring -> gostring.
Variable url_path : gostring -> gostring.

(** [json.Unmarshal(raw, out)] for [out *Bookmark]: what [out] points
    to afterwards, and whether the error is [nil]. *)
Variable decode : gostring -> Bookmark -> Bookmark * bool.

(** [json.Unmarshal(raw, &wrapper)]: the field [data] when the error
    is [nil]. *)
Variable decode_data : gostring -> option gostring.

Definition http_Do (req : Request) : Call (Response + gostring) :=
  fun st => (Do (sent st) req, {| apiPrefix := apiPrefix st; sent := sent st ++ [req] |}).

(** [io.ReadAll(io.LimitReader(resp.Body, 32<<10))] *)
Definition read_body (resp : Response) : gostring :=
  prefix_bytes 32768 (ResponseBody resp).

Definition preview_of (b : gostring) : gostring :=
  let preview := TrimSpace b in
  if len preview >? 600 then prefix_bytes 600 preview ++ App.ellipsis else preview.

(** The path of the request that is tried again under the prefix
    [alt]. *)
Definition retry_path (alt : gostring) (path : gostring) : gostring :=
  let p := TrimPrefix path (str "/") in
  let parts := Split p in
  let start :=
    match parts with
    | first :: rest =>
        if eqb first (str "api") then
          match rest with
          | second :: _ => if eqb second (str "v1") then 2%nat else 1%nat
          | [] => 1%nat
          end
        else 0%nat
    | [] => 0%nat
    end in
  let tail := Join (drop start parts) in
  url_path (path_Join [TrimPrefix alt (str "/"); tail]).

(** The path of the base URL of a client is empty: [NewClient] sets
    it so. *)
Definition newRequest (method p : gostring) (body : Payload) : Call Request :=
  prefix ← get_prefix;
  let p := TrimPrefix p (str "/") in
  mret {| Method := method;
          Path := url_path (path_Join [[]; TrimPrefix prefix (str "/"); p]);
          Authorization := str "Bearer " ++ apiKey;
          Accept := str "application/json";
          ContentType := [];
          Body := body |}.

Definition with_path (req : Request) (path : gostring) : Request :=
  {| Method := Method req; Path := path; Authorization := Authorization req;
     Accept := Accept req; ContentType := ContentType req; Body := Body req |}.

Definition with_content_type (req : Request) (ct : gostring) : Request :=
  {| Method := Method req; Path := Path req; Authorization := Authorization req;
     Accept := Accept req; ContentType := ct; Body := Body req |}.

(** The status, the body and the error.  The request of the second
    try is [req.Clone] with another URL. *)
Definition do (req : Request) : Call (Z * gostring * option Err) :=
  r ← http_Do req;
  match r with
  | inr e => mret (0, [], Some (OtherError e))
  | inl resp =>
      let b := read_body resp in
      if (StatusCode resp <? 200) || (StatusCode resp >=? 300) then
        let preview := preview_of b in
        let failed := (StatusCode resp, b, Some (APIError (StatusCode resp) preview)) in
        if StatusCode resp =? 404 then
          prefix ← get_prefix;
          let '(alt, ok) := altPrefix prefix in
          if ok then
            set_prefix alt;;
            r2 ← http_Do (with_path req (retry_path alt (Path req)));
            match r2 with
            | inl resp2 =>
                let b2 := read_body resp2 in
                if (StatusCode resp2 >=? 200) && (StatusCode resp2 <? 300)
                then mret (StatusCode resp2, b2, None)
                else
                  mret (StatusCode resp2, b2,
                        Some (APIError (StatusCode resp2) (preview_of b2)))
            | inr _ => mret failed
            end
          else mret failed
        else mret failed
      else mret (StatusCode resp, b, None)
  end.

(** [doJSON] with [out] pointing to a zero [Bookmark]: the status, the
    body, the error and what [out] points to afterwards.  The maps the
    client marshals hold texts only and its requests are built from
    constant methods and from the text of a URL: [json.Marshal] and
    [http.NewRequestWithContext] do not fail. *)
Definition doJSON (method p : gostring) (body : Payload)
  : Call (Z * gostring * option Err * Bookmark) :=
  req ← newRequest method p body;
  let req :=
    match body with
    | NoBody => req
    | _ => with_content_type req (str "application/json")
    end in
  '(status, raw, err) ← do req;
  match err with
  | Some _ => mret (status, raw, err, zero_Bookmark)
  | None =>
      if 0 <? len raw then
        let '(out, ok) := decode raw zero_Bookmark in
        if ok then mret (status, raw, None, out)
        else
          match decode_data raw with
          | Some data =>
              if 0 <? len data then mret (status, raw, None, (decode data out).1)
              else mret (status, raw, None, out)
          | None => mret (status, raw, None, out)
          end
      else mret (status, raw, None, zero_Bookmark)
  end.

Definition with_Raw (b : Bookmark) (raw : gostring) : Bookmark :=
  {| ID := ID b; BookmarkURL := BookmarkURL b; Title := Title b;
     BookmarkNotes := BookmarkNotes b; Summary := Summary b; Tags := Tags b;
     Raw := raw |}.

(** The common end of the methods that return a bookmark. *)
Definition bookmark_of (r : Z * gostring * option Err * Bookmark)
  : Bookmark * Z * option Err :=
  let '(status, raw, err, out) := r in
  match err with
  | Some _ => (zero_Bookmark, status, err)
  | None => (with_Raw out raw, status, None)
  end.

(** [url.PathEscape] *)
Variable PathEscape : gostring -> gostring.

Definition GetBookmark (bookmarkID : gostring) : Call (Bookmark * Z * option Err) :=
  r ← doJSON (str "GET") (str "/bookmarks/" ++ PathEscape bookmarkID) NoBody;
  mret (bookmark_of r).

Definition UpdateBookmark (bookmarkID : gostring) (patch : gmap gostring gostring)
  : Call (Bookmark * Z * option Err) :=
  r ← doJSON (str "PATCH") (str "/bookmarks/" ++ PathEscape bookmarkID) (JSONBody patch);
  mret (bookmark_of r).

Definition Summarize (bookmarkID : gostring) : Call (Bookmark * Z * option Err) :=
  r ← doJSON (str "POST") (str "/bookmarks/" ++ PathEscape bookmarkID ++ str "/summarize")
             (JSONBody ∅);
  mret (bookmark_of r).

Definition AttachAsset (bookmarkID assetID : gostring)
  : Call (Bookmark * Z * option Err) :=
  r ← doJSON (str "POST") (str "/bookmarks/" ++ PathEscape bookmarkID ++ str "/assets")
             (JSONBody {[ str "assetId" := assetID ]});
  mret (bookmark_of r).

Definition CreateBookmark (urlStr title notes : gostring)
  : Call (Bookmark * Z * option Err) :=
  let urlStr := TrimSpace urlStr in
  let title := TrimSpace title in
  let notes := TrimSpace notes in
  let titled (body : gmap gostring gostring) :=
    if negb (is_empty title) then <[ str "title" := title ]> body else body in
  if negb (is_empty urlStr) then
    let body := titled {[ str "type" := str "link"; str "url" := urlStr ]} in
    r ← doJSON (str "POST") (str "/bookmarks") (JSONBody body);
    let '(out, status, err) := bookmark_of r in
    match err with
    | Some _ => mret (zero_Bookmark, status, err)
    | None =>
        (if negb (is_empty (ID out)) && negb (is_empty notes)
         then UpdateBookmark (ID out) {[ str "notes" := notes ]};; mret tt
         else mret tt);;
        mret (out, status, None)
    end
  else
    let body := titled {[ str "type" := str "text"; str "text" := notes ]} in
    r ← doJSON (str "POST") (str "/bookmarks") (JSONBody body);
    mret (bookmark_of r).

(** [json.Unmarshal(raw, &out)] for [var out Asset]: [out] afterwards
    and whether the error is [nil]; and [json.Unmarshal(raw, &wrapper)]:
    the field [data] when the error is [nil]. *)
Variable decode_asset : gostring -> Asset * bool.
Variable decode_asset_data : gostring -> option Asset.

(** [mw.FormDataContentType()] *)
Variable FormDataContentType : gostring.

(** Writing the form into a buffer does not fail. *)
Definition UploadAsset (data filename mime : gostring) : Call (Asset * Z * option Err) :=
  let filename := if is_empty (TrimSpace filename) then str "upload.bin" else filename in
  let mime :=
    if is_empty (TrimSpace mime) then str "application/octet-stream" else mime in
  req ← newRequest (str "POST") (str "/assets") (FormBody data filename mime);
  let req := with_content_type req FormDataContentType in
  '(status, raw, err) ← do req;
  match err with
  | Some _ => mret (zero_Asset, status, err)
  | None =>
      let '(out, ok) := decode_asset raw in
      if ok then mret (asset_with_Raw out raw, status, None)
      else
        match decode_asset_data raw with
        | Some wrapped =>
            if negb (is_empty (AssetID wrapped))
            then mret (asset_with_Raw wrapped raw, status, None)
            else mret (asset_with_Raw zero_Asset raw, status, None)
        | None => mret (asset_with_Raw zero_Asset raw, status, None)
        end
  end.

(** [fmt.Sprintf("%q", s)] *)
Variable Quote : gostring -> gostring.

(** [err.Error()] *)
Definition Error (e : Err) : gostring :=
  match e with
  | APIError status preview =>
      if negb (is_empty (TrimSpace preview)) then
        str "karakeep api error: status=" ++ Itoa status ++ str " body_preview="
        ++ Quote (TrimSpace preview)
      else str "karakeep api error: status=" ++ Itoa status
  | OtherError text => text
  end.

End Transport.

End Client.

(* ================================================================== *)
(** * Package [telegram]: downloader.go                                *)
(* ================================================================== *)

Module Downloader.
Import GoString.

(** The answer to the download of a file: its status, the bytes of
    its body that can be read and the error the read meets after them,
    if any. *)
Record Response := {
  StatusCode : Z;
  Body : gostring;
  ReadError : option gostring
}.

(** [io.ReadAll(resp.Body)] *)
Definition ReadAll (resp : Response) : gostring + gostring :=
  match ReadError resp with
  | Some e => inr e
  | None => inl (Body resp)
  end.

(** [io.ReadAll(io.LimitReader(resp.Body, n))]: a reader with nothing
    left to give ends the read before the body is asked for more. *)
Definition ReadAllLimited (resp : Response) (n : Z) : gostring + gostring :=
  if n <=? 0 then inl []
  else if n <=? len (Body resp) then inl (prefix_bytes n (Body resp))
  else ReadAll resp.

Section Download.

(** [d.Bot.GetFile]: the path of the file, or the text of the error;
    [d.Bot.FileURL]; and the [GET] of a URL by the HTTP client of the
    downloader: the response, or the text of the error. *)
Variable GetFile : gostring -> gostring + gostring.
Variable FileURL : gostring -> gostring.
Variable Get : gostring -> Response + gostring.

(** [DownloadFileByID] on a downloader that is configured: the bytes,
    the path and the error. *)
Definition DownloadFileByID (fileID : gostring) (maxBytes : Z)
  : gostring * gostring * option gostring :=
  let fileID := TrimSpace fileID in
  if is_empty fileID then ([], [], Some (str "fileID is empty"))
  else
    match GetFile fileID with
    | inr e => ([], [], Some (str "getFile: " ++ e))
    | inl filePath =>
        if is_empty (TrimSpace filePath)
        then ([], [], Some (str "empty file_path from telegram"))
        else
          match Get (FileURL filePath) with
          | inr e => ([], [], Some e)
          | inl resp =>
              if (StatusCode resp <? 200) || (StatusCode resp >=? 300) then
                ([], [], Some (str "telegram file download failed: status="
                                ++ Itoa (StatusCode resp)))
              else
                let read :=
                  if maxBytes >? 0
                  then ReadAllLimited resp (Classifier.wrap64 (maxBytes + 1))
                  else ReadAll resp in
                match read with
                | inr e => ([], [], Some e)
                | inl b =>
                    if (maxBytes >? 0) && (len b >? maxBytes) then
                      ([], filePath,
                       Some (str "file too large: " ++ Itoa (len b)
                             ++ str " bytes (limit " ++ Itoa maxBytes ++ str ")"))
                    else (b, filePath, None)
                end
          end
    end.

End Download.

End Downloader.

(* ================================================================== *)
(** * Package [app]: the uploads of [processMessageBatch]              *)
(* ================================================================== *)

Module Uploads.
Import GoString Karakeep Attachments.

(** What the uploads act on: the client, and the identifiers of the
    files asked of the downloader so far. *)
Record Session := {
  client : Client.State;
  fetched : list gostring
}.

Definition Job (A : Type) : Type := Session -> A * Session.

#[global] Instance job_ret : MRet Job := fun A (a : A) s => (a, s).

#[global] Instance job_bind : MBind Job :=
  fun A B (k : A -> Job B) (m : Job A) s => let '(a, s') := m s in k a s'.

(** A method of the client, called from the uploads. *)
Definition call {A} (m : Client.Call A) : Job A :=
  fun s => let '(a, c) := m (client s) in (a, {| client := c; fetched := fetched s |}).

Section Upload.

Variable apiKey : gostring.
Variable Do : list Client.Request -> Client.Request -> Client.Response + gostring.
Variable path_Join : list gostring -> gostring.
Variable url_path : gostring -> gostring.
Variable decode : gostring -> Bookmark -> Bookmark * bool.
Variable decode_data : gostring -> option gostring.
Variable PathEscape : gostring -> gostring.
Variable decode_asset : gostring -> Client.Asset * bool.
Variable decode_asset_data : gostring -> option Client.Asset.
Variable FormDataContentType : gostring.
Variable Quote : gostring -> gostring.
Variable GetFile : gostring -> gostring + gostring.
Variable FileURL : gostring -> gostring.
Variable Get : gostring -> Downloader.Response + gostring.

Definition download (fileID : gostring) (maxBytes : Z)
  : Job (gostring * gostring * option gostring) :=
  fun s =>
    (Downloader.DownloadFileByID GetFile FileURL Get fileID maxBytes,
     {| client := client s; fetched := fetched s ++ [fileID] |}).

Definition UploadAsset := Client.UploadAsset apiKey Do path_Join url_path
                                             decode_asset decode_asset_data
                                             FormDataContentType.

Definition AttachAsset := Client.AttachAsset apiKey Do path_Join url_path
                                             decode decode_data PathEscape.

(** [parts[len(parts)-1]] for [parts := strings.Split(filePath, "/")] *)
Definition path_tail (filePath : gostring) : gostring :=
  default [] (last (Client.Split filePath)).

(** The loop over the attachments.  The result is the text the
    acknowledgement is edited to when the loop is left by [return],
    [None] when it runs to its end. *)
Fixpoint attach_all (bookmarkID : gostring) (maxBytes : Z) (attachments : list Attachment)
  : Job (option gostring) :=
  match attachments with
  | [] => mret None
  | att :: rest =>
      if (SizeBytes att >? 0) && (SizeBytes att >? maxBytes) then
        mret (Some (str "❌ Слишком большой файл: " ++ Filename att ++ str " ("
                    ++ Itoa (SizeBytes att) ++ str " bytes), лимит "
                    ++ Itoa maxBytes ++ str " bytes"))
      else
        '(data, filePath, err) ← download (FileID att) maxBytes;
        match err with
        | Some e =>
            mret (Some (str "❌ Ошибка скачивания файла из Telegram: " ++ e))
        | None =>
            let filename :=
              if is_empty (TrimSpace (Filename att)) then path_tail filePath
              else Filename att in
            '(asset, st, err) ← call (UploadAsset data filename (Mime att));
            match err with
            | Some e =>
                mret (Some (str "❌ Ошибка загрузки в Karakeep (" ++ Itoa st
                            ++ str "): " ++ Client.Error Quote e))
            | None =>
                if is_empty (TrimSpace (Client.AssetID asset)) then
                  mret (Some (str "❌ Karakeep вернул asset без id (проверьте схему Upload a new asset)."))
                else
                  '(_, st, err) ← call (AttachAsset bookmarkID (Client.AssetID asset));
                  match err with
                  | Some e =>
                      mret (Some (str "❌ Ошибка attach asset (" ++ Itoa st
                                  ++ str "): " ++ Client.Error Quote e))
                  | None => attach_all bookmarkID maxBytes rest
                  end
            end
        end
  end.

(** [50 << 20] *)
Definition default_limit : Z := 52428800.

(** The section [Upload + attach assets] for the bookmark [b], with
    [a.MaxUploadBytes] as it is set. *)
Definition upload (b : Bookmark) (MaxUploadBytes : Z) (attachments : list Attachment)
  : Job (option gostring) :=
  if negb (is_empty (ID b)) && (0 <? Z.of_nat (length attachments)) then
    let maxBytes := if MaxUploadBytes <=? 0 then default_limit else MaxUploadBytes in
    attach_all (ID b) maxBytes attachments
  else mret None.

End Upload.

(** ** What the uploads are to keep to *)

(** The bytes of a file the request uploads, if it uploads one. *)
Definition uploaded (r : Client.Request) : option gostring :=
  match Client.Body r with
  | Client.FormBody data _ _ => Some data
  | _ => None
  end.

(** The declared size of the attachment passes the limit. *)
Definition declared_over (maxBytes : Z) (att : Attachment) : Prop :=
  0 < SizeBytes att /\ maxBytes < SizeBytes att.

End Uploads.

(* ================================================================== *)
(** * Package [telegram]: webhook.go                                   *)
(* ================================================================== *)

Module Webhook.
Import GoString.

(** What the handler reads of an [*http.Request]: the method, the
    header [X-Telegram-Bot-Api-Secret-Token] (empty when absent), the
    bytes of the body that can be read and the error the read meets
    after them, if any. *)
Record Request := {
  Method : gostring;
  SecretHeader : gostring;
  Body : gostring;
  ReadError : option gostring
}.

(** [2 << 20] *)
Definition body_limit : Z := 2097152.

(** [io.ReadAll(io.LimitReader(r.Body, 2<<20))] *)
Definition read_body (r : Request) : gostring + gostring :=
  if body_limit <=? len (Body r) then inl (prefix_bytes body_limit (Body r))
  else
    match ReadError r with
    | Some e => inr e
    | None => inl (Body r)
    end.

Section Handler.

(** [tgbotapi.Update], and [json.Unmarshal(body, &upd)], [None] being
    [err != nil]. *)
Variable Update : Type.
Variable Unmarshal : gostring -> option Update.

(** [opts.SecretToken], and whether [opts.OnUpdate] is set. *)
Variable SecretToken : gostring.
Variable OnUpdate : bool.

(** The status the handler answers with, and the update it starts
    [OnUpdate] on, if any. *)
Definition ServeHTTP (r : Request) : Z * option Update :=
  if negb (eqb (Method r) (str "POST")) then (405, None)
  else if negb (is_empty SecretToken) && negb (eqb (SecretHeader r) SecretToken)
  then (401, None)
  else
    match read_body r with
    | inr _ => (400, None)
    | inl body =>
        match Unmarshal body with
        | None => (400, None)
        | Some upd => (200, if OnUpdate then Some upd else None)
        end
    end.

End Handler.

End Webhook.

(* ================================================================== *)
(** * Package [app]: [HandleUpdate] and the commands                   *)
(* ================================================================== *)

Module Handler.
Import GoString Tgbotapi.

(** [tgbotapi.Chat] *)
Record Chat := {
  ChatID : Z;
  ChatType : gostring
}.

(** A message with the two fields [HandleUpdate] reads besides those
    of the pipeline: [msg.From], by its [ID], and [msg.Chat]. *)
Record Envelope := {
  message : Message;
  From : option Z;
  Chat_ : option Chat
}.

(** [c.IsPrivate()] *)
Definition IsPrivate (c : Chat) : bool := eqb (ChatType c) (str "private").

(** [m.IsCommand()] *)
Definition IsCommand (m : Message) : bool :=
  match Entities m with
  | [] => false
  | entity :: _ => (Offset entity =? 0) && eqb (Type_ entity) (str "bot_command")
  end.

(** [s[lo:hi]]; [None] when the bounds are out of range, where Go
    panics. *)
Definition slice (s : gostring) (lo hi : Z) : option gostring :=
  if (0 <=? lo) && (lo <=? hi) && (hi <=? len s)
  then Some (take (Z.to_nat (hi - lo)) (drop (Z.to_nat lo) s))
  else None.

(** [command[:i]] for [i := strings.Index(command, "@")], the whole
    of it when there is no [@]. *)
Definition before_at (command : gostring) : gostring :=
  Attachments.take_while (fun c => negb (bool_decide (c = "@"%char))) command.

(** [m.Command()] *)
Definition Command (m : Message) : option gostring :=
  if negb (IsCommand m) then Some []
  else
    match Entities m with
    | [] => Some []
    | entity :: _ => before_at <$> slice (Text m) 1 (Length entity)
    end.

(** [m.CommandArguments()] *)
Definition CommandArguments (m : Message) : option gostring :=
  if negb (IsCommand m) then Some []
  else
    match Entities m with
    | [] => Some []
    | entity :: _ =>
        if len (Text m) =? Length entity then Some []
        else slice (Text m) (Length entity + 1) (len (Text m))
    end.

(** What [HandleUpdate] does besides writing to the store. *)
Inductive Effect :=
| Sent (chatID : Z) (text : gostring)
| Collected (m : Message)
| Spawned (m : Message).

(** How a call ends: by returning, or by a panic. *)
Inductive Ending := Returned | Panicked.

Record Outcome := {
  ending : Ending;
  db : Storage.DB;
  effects : list Effect
}.

(** What the head of [processMessageBatch] comes to: a return without
    a word, a return after a message to the chat, or the
    classification, reached with the settings of the sender and the
    key. *)
Inductive Admission :=
| Dropped
| Refused (chatID : Z) (text : gostring)
| Proceeds (u : Storage.User) (apiKey : gostring).

Definition nl : gostring := ["010"%char].

Definition not_set : gostring := str "(не задан)".

Section App.

(** The store. *)
Variable ParseTime : gostring -> option Z.
Variable Seal : gostring -> gostring -> gostring.
Variable Open_ : gostring -> gostring -> gostring + gostring.
Variable EncodeToString : gostring -> gostring.
Variable DecodeString : gostring -> gostring + gostring.

(** The guard of the server address. *)
Variable Parse : gostring -> option Security.URL.
Variable Hostname : Security.URL -> gostring.
Variable LookupIP : gostring -> option (list Net.IP).
Variable URLString : Security.URL -> gostring.
Variable IPString : Net.IP -> gostring.
Variable Quote : gostring -> gostring.

(** [t.In(time.Local).Format(time.RFC3339)] *)
Variable FormatLocal : Z -> gostring.

(** [a.Version], and whether [a.MediaGroups] is set. *)
Variable Version : gostring.
Variable MediaGroups : bool.

Definition GetUser := Storage.GetUser ParseTime.
Definition DecryptAPIKey := Storage.DecryptAPIKey Open_ DecodeString.
Definition ValidateServerBaseURL :=
  Security.ValidateServerBaseURL Parse Hostname LookupIP URLString IPString Quote.

Definition shown_server (u : Storage.User) : gostring :=
  let server := TrimSpace (Storage.ServerBaseURL u) in
  if is_empty server then not_set else server.

(** A read of the settings that failed for another reason than a
    missing row: [err != nil && err != sql.ErrNoRows], the errors
    being told apart by their texts. *)
Definition read_failed (err : option gostring) : bool :=
  match err with
  | Some e => negb (eqb e Storage.ErrNoRows)
  | None => false
  end.

Definition cmdStart (d : Storage.DB) (from chat : Z) : Outcome :=
  let '(u, _) := GetUser d from in
  let text :=
    str "Привет! Я сохраняю сообщения в Karakeep по API key." ++ nl ++ nl
    ++ str "Текущий сервер: " ++ shown_server u ++ nl ++ nl
    ++ str "Сначала настрой:" ++ nl
    ++ str "/server https://<ваш_karakeep>" ++ nl
    ++ str "/key <API_KEY>" ++ nl ++ nl
    ++ str "Потом просто присылай ссылки/текст/медиа." in
  {| ending := Returned; db := d; effects := [Sent chat text] |}.

Definition cmdHelp (d : Storage.DB) (chat : Z) : Outcome :=
  let text :=
    str "Команды:" ++ nl
    ++ str "/server — показать текущий сервер" ++ nl
    ++ str "/server <url> — установить сервер (только https)" ++ nl
    ++ str "/key — проверить, задан ли API key" ++ nl
    ++ str "/key <token> — установить API key" ++ nl
    ++ str "/status — статус" ++ nl
    ++ str "/help — справка" in
  {| ending := Returned; db := d; effects := [Sent chat text] |}.

(** [now] is the text of the instant at which the command writes to
    the store. *)
Definition cmdServer (d : Storage.DB) (from chat : Z) (args now : gostring) : Outcome :=
  let arg := TrimSpace args in
  if is_empty arg then
    let '(u, err) := GetUser d from in
    if read_failed err then
      {| ending := Returned; db := d;
         effects := [Sent chat (str "Ошибка чтения настроек.")] |}
    else
      {| ending := Returned; db := d;
         effects := [Sent chat (str "Текущий сервер: " ++ shown_server u ++ nl
                                ++ str "Установить: /server https://<host>")] |}
  else
    match ValidateServerBaseURL arg with
    | inr _ =>
        {| ending := Returned; db := d;
           effects := [Sent chat (str "Некорректный / небезопасный URL. Разрешён только публичный https. Пример: /server https://karakeep.example.com")] |}
    | inl norm =>
        match Storage.SetServerBaseURL d from norm now with
        | (d', Some _) =>
            {| ending := Returned; db := d';
               effects := [Sent chat (str "Не удалось сохранить сервер.")] |}
        | (d', None) =>
            {| ending := Returned; db := d';
               effects := [Sent chat (str "✅ Сервер сохранён: " ++ norm)] |}
        end
    end.

(** [nonce] is what the cipher draws for the key, or the text of the
    error. *)
Definition cmdKey (d : Storage.DB) (from chat : Z) (args now : gostring)
           (nonce : gostring + gostring) : Outcome :=
  let arg := TrimSpace args in
  if is_empty arg then
    let '(u, err) := GetUser d from in
    if read_failed err then
      {| ending := Returned; db := d;
         effects := [Sent chat (str "Ошибка чтения настроек.")] |}
    else
      let '(_, ok, _) := DecryptAPIKey u in
      if ok then
        {| ending := Returned; db := d;
           effects := [Sent chat (str "API key: задан ✅")] |}
      else
        {| ending := Returned; db := d;
           effects := [Sent chat (str "API key: не задан ❌" ++ nl
                                  ++ str "Установить: /key <API_KEY>")] |}
  else
    match Storage.SetAPIKey Seal EncodeToString d from arg nonce now with
    | (d', Some _) =>
        {| ending := Returned; db := d';
           effects := [Sent chat (str "Не удалось сохранить API key.")] |}
    | (d', None) =>
        {| ending := Returned; db := d';
           effects := [Sent chat (str "✅ API key сохранён.")] |}
    end.

Definition cmdStatus (d : Storage.DB) (from chat : Z) : Outcome :=
  let '(u, err) := GetUser d from in
  if read_failed err then
    {| ending := Returned; db := d;
       effects := [Sent chat (str "Ошибка чтения настроек.")] |}
  else
    let '(_, keySet, _) := DecryptAPIKey u in
    let keyStr := if keySet then str "да" else str "нет" in
    let last :=
      match Storage.LastSuccessAt u with
      | Some t => FormatLocal t
      | None => str "нет"
      end in
    let text :=
      str "Сервер: " ++ shown_server u ++ nl
      ++ str "Ключ: " ++ keyStr ++ nl
      ++ str "Последняя успешная запись: " ++ last ++ nl
      ++ str "Версия: " ++ TrimSpace Version in
    {| ending := Returned; db := d; effects := [Sent chat text] |}.

(** [HandleUpdate] for [upd.Message], [None] being [nil], in an
    application wired as [main] wires it: the store and the bot are
    set.  [now1] is the text of the instant at which the user is
    upserted, [now2] that of the instant at which a command writes. *)
Definition HandleUpdate (d : Storage.DB) (upd : option Envelope)
           (now1 now2 : gostring) (nonce : gostring + gostring) : Outcome :=
  match upd with
  | None => {| ending := Returned; db := d; effects := [] |}
  | Some env =>
      match From env with
      | None => {| ending := Returned; db := d; effects := [] |}
      | Some from =>
          let msg := message env in
          let d := (Storage.UpsertUser d from now1).1 in
          if IsCommand msg then
            match Chat_ env with
            | None => {| ending := Panicked; db := d; effects := [] |}
            | Some chat =>
                if negb (IsPrivate chat) then
                  {| ending := Returned; db := d;
                     effects := [Sent (ChatID chat) (str "Команды настройки доступны только в личных сообщениях с ботом.")] |}
                else
                  match Command msg with
                  | None => {| ending := Panicked; db := d; effects := [] |}
                  | Some command =>
                      let name := ToLower command in
                      if eqb name (str "start") then cmdStart d from (ChatID chat)
                      else if eqb name (str "help") then cmdHelp d (ChatID chat)
                      else if eqb name (str "server") then
                        match CommandArguments msg with
                        | None => {| ending := Panicked; db := d; effects := [] |}
                        | Some args => cmdServer d from (ChatID chat) args now2
                        end
                      else if eqb name (str "key") then
                        match CommandArguments msg with
                        | None => {| ending := Panicked; db := d; effects := [] |}
                        | Some args => cmdKey d from (ChatID chat) args now2 nonce
                        end
                      else if eqb name (str "status") then cmdStatus d from (ChatID chat)
                      else
                        {| ending := Returned; db := d;
                           effects := [Sent (ChatID chat) (str "Неизвестная команда. /help")] |}
                  end
            end
          else if negb (is_empty (MediaGroupID msg)) && MediaGroups then
            {| ending := Returned; db := d; effects := [Collected msg] |}
          else {| ending := Returned; db := d; effects := [Spawned msg] |}
      end
  end.

Definition not_configured : gostring :=
  str "❌ Не настроено. Сначала: /server https://<host> и /key <API_KEY>".

(** [processMessageBatch] up to the classification, for [msg]. *)
Definition admission (d : Storage.DB) (msg : option Envelope) : Admission :=
  match msg with
  | None => Dropped
  | Some env =>
      match From env, Chat_ env with
      | Some from, Some chat =>
          let '(u, err) := GetUser d from in
          match err with
          | Some _ => Dropped
          | None =>
              let '(apiKey, ok, err) := DecryptAPIKey u in
              match err with
              | Some _ => Dropped
              | None =>
                  if is_empty (TrimSpace (Storage.ServerBaseURL u)) || negb ok
                  then Refused (ChatID chat) not_configured
                  else Proceeds u apiKey
              end
          end
      | _, _ => Dropped
      end
  end.

End App.

(** ** What the settings of a user are *)

(** The address and the key of a user as the table holds them. *)
Definition settings (d : Storage.DB) (user : Z) : option (gostring * gostring * gostring) :=
  (fun r => (Storage.server_base_url r, Storage.api_key_ciphertext_b64 r,
             Storage.api_key_nonce_b64 r)) <$> Storage.users d !! user.

(** The settings are those of a row that is there, or those an
    upsert gives a new row. *)
Definition settings_or_unset (d : Storage.DB) (user : Z)
  : gostring * gostring * gostring :=
  default ([], [], []) (settings d user).

(** The message of [env] is the command [name] with the arguments
    [args], sent by [user] in the private chat [chat]. *)
Definition private_command (env : Envelope) (user : Z) (chat : Chat)
           (name args : gostring) : Prop :=
  From env = Some user /\ Chat_ env = Some chat /\ IsPrivate chat = true
  /\ IsCommand (message env) = true
  /\ (exists command, Command (message env) = Some command /\ ToLower command = name)
  /\ CommandArguments (message env) = Some args.

(** The first entity of the message claims a length that is not one
    of a part of its text after the first byte. *)
Definition entity_out_of_range (m : Message) : Prop :=
  match Entities m with
  | entity :: _ => Length entity < 1 \/ len (Text m) < Length entity
  | [] => False
  end.

End Handler.

(* ================================================================== *)
(** * Sample inputs                                                    *)
(* ================================================================== *)

Module Samples.
Import GoString Tgbotapi Karakeep App.

(** A record whose only field is [textContent], a text of 200 bytes:
    [{"textContent":"xxx...x"}]. *)
Definition page_text : gostring := repeat "x"%char 200.

Definition text_content_raw : gostring :=
  str "{" ++ quote :: str "textContent" ++ quote :: str ":"
  ++ quote :: page_text ++ quote :: str "}".

Definition text_content_json : json :=
  JObject [(str "textContent", JString page_text)].

(** A decoder that knows this one document. *)
Definition text_content_decoder (raw : gostring) : option json :=
  if eqb raw text_content_raw then Some text_content_json else None.

(** A message of the media group [gid]. *)
Definition group_message (id : Z) (gid : gostring) : Message :=
  {| MessageID := id; Date := 0; Text := []; Caption := []; Entities := [];
     CaptionEntities := []; MediaGroupID := gid; Photo := [];
     Document_ := None; Video_ := None; Audio_ := None; Voice_ := None;
     Animation_ := None; VideoNote_ := None; Sticker_ := None |}.

(** The three units of an album, and the instants, a second apart, at
    which they reach the collector. *)
Definition album : gostring := str "album".

Definition album_arrivals : list Collector.arrival :=
  [(Collector.Second, group_message 2 album);
   (2 * Collector.Second, group_message 3 album)].

(** The text [https://example.com], auto-detected as a URL. *)
Definition link_message : Message :=
  {| MessageID := 1; Date := 0; Text := str "https://example.com"; Caption := [];
     Entities := [{| Type_ := str "url"; Offset := 0; Length := 19;
                     EntityURL := [] |}];
     CaptionEntities := []; MediaGroupID := []; Photo := [];
     Document_ := None; Video_ := None; Audio_ := None; Voice_ := None;
     Animation_ := None; VideoNote_ := None; Sticker_ := None |}.

(** A service that answers every read after [d] with a bookmark that
    carries nothing, under a context that is never cancelled. *)
Definition unready_service (d : Z) : Env :=
  {| remote := fun _ => {| took := d; got := Some zero_Bookmark |};
     cancel_at := None;
     pick_tick := fun _ => true |}.

(** A text in which a URL is followed by more text, and the entity
    that marks the URL: offset 5, length 19. *)
Definition reply_text : gostring := str "read https://example.com, then reply".

Definition reply_entities : list MessageEntity :=
  [{| Type_ := str "url"; Offset := 5; Length := 19; EntityURL := [] |}].

(** The text [click here] whose first word links to a site. *)
Definition click_here_entities : list MessageEntity :=
  [{| Type_ := str "text_link"; Offset := 0; Length := 5;
      EntityURL := str "https://example.com" |}].

(** A message that carries a sticker. *)
Definition sticker_message : Message :=
  {| MessageID := 7; Date := 0; Text := []; Caption := []; Entities := [];
     CaptionEntities := []; MediaGroupID := []; Photo := [];
     Document_ := None; Video_ := None; Audio_ := None; Voice_ := None;
     Animation_ := None; VideoNote_ := None;
     Sticker_ := Some {| StickerFileID := str "sticker-1"; IsAnimated := false;
                         StickerFileSize := 1024 |} |}.

(** A note that mentions two sites. *)
Definition note_on_two_sites : Classifier.Result :=
  {| Classifier.Kind_ := Classifier.KindNote; Classifier.URL := [];
     Classifier.Notes := [];
     Classifier.ResText := str "compare https://a.example and https://b.example";
     Classifier.URLs := [str "https://a.example"; str "https://b.example"];
     Classifier.HasMedia := false |}.

(** A service that rejects a submission without URL. *)
Definition url_required_service (before : list CreateCall) (call : CreateCall)
  : Created :=
  if is_empty (call_url call)
  then {| created := zero_Bookmark; status := 400;
          err := Some (str "karakeep api error: status=400") |}
  else {| created := zero_Bookmark; status := 201; err := None |}.

Definition epoch_label (sec : Z) : gostring := str "1970-01-01T00:00:00Z".

End Samples.

(* ================================================================== *)
(** * Sample surroundings                                              *)
(* ================================================================== *)

Module Fixtures.
Import GoString Tgbotapi Karakeep Samples.

(** ** A table of users *)

Definition keep_address : gostring := str "https://keep.example".

(** The text of an instant, and a parser that knows no instant. *)
Definition noon : gostring := str "2024-01-02T12:00:00Z".

Definition no_instant (s : gostring) : option Z := None.

(** The row of a user who has set an address and no key. *)
Definition addressed_row : Storage.Row :=
  {| Storage.server_base_url := keep_address;
     Storage.api_key_ciphertext_b64 := []; Storage.api_key_nonce_b64 := [];
     Storage.created_at := noon; Storage.updated_at := noon;
     Storage.last_success_at := None; Storage.last_success_id := None |}.

Definition empty_db : Storage.DB := {| Storage.users := ∅; Storage.fault := None |}.

Definition one_user_db : Storage.DB :=
  {| Storage.users := {[ 7 := addressed_row ]}; Storage.fault := None |}.

(** ** A cipher and a codec *)

(** Sealing puts a mark and the nonce before the text; encoding puts
    the text between two marks. *)
Definition toy_Seal (nonce pt : gostring) : gostring := "#"%char :: nonce ++ pt.

Definition toy_Open (nonce ct : gostring) : gostring + gostring :=
  inl (drop (S (length nonce)) ct).

Definition toy_Encode (x : gostring) : gostring := "="%char :: x ++ ["="%char].

Definition toy_Decode (y : gostring) : gostring + gostring :=
  inl (take (length y - 2) (drop 1 y)).

(** ** A resolver *)

(** A parser of URLs that knows the scheme [https] and takes what
    follows it for the host. *)
Definition toy_Parse (raw : gostring) : option Security.URL :=
  if HasPrefix raw (str "https://")
  then Some {| Security.Scheme := str "https"; Security.Host := drop 8 raw |}
  else None.

Definition toy_URLString (u : Security.URL) : gostring :=
  Security.Scheme u ++ str "://" ++ Security.Host u.

Definition public_ip : Net.IP := [Net.octet 93; Net.octet 184; Net.octet 216; Net.octet 34].

(** Every host resolves to the one public address. *)
Definition toy_LookupIP (host : gostring) : option (list Net.IP) := Some [public_ip].

Definition toy_IPString (ip : Net.IP) : gostring := str "93.184.216.34".

Definition toy_Quote (s : gostring) : gostring := App.quote :: s ++ [App.quote].

Definition toy_FormatLocal (t : Z) : gostring := str "2024-01-02T12:00:00Z".

(** ** Commands *)

(** A message whose text starts with a command of [length] bytes. *)
Definition command_message (text : gostring) (length : Z) : Message :=
  {| MessageID := 9; Date := 0; Text := text; Caption := [];
     Entities := [{| Type_ := str "bot_command"; Offset := 0; Length := length;
                     EntityURL := [] |}];
     CaptionEntities := []; MediaGroupID := []; Photo := [];
     Document_ := None; Video_ := None; Audio_ := None; Voice_ := None;
     Animation_ := None; VideoNote_ := None; Sticker_ := None |}.

Definition private_chat : Handler.Chat :=
  {| Handler.ChatID := 7; Handler.ChatType := str "private" |}.

(** The user 7 sends [/server https://keep.example] and
    [/key secret-token] to the bot. *)
Definition server_command : Handler.Envelope :=
  {| Handler.message := command_message (str "/server https://keep.example") 7;
     Handler.From := Some 7; Handler.Chat_ := Some private_chat |}.

Definition key_command : Handler.Envelope :=
  {| Handler.message := command_message (str "/key secret-token") 4;
     Handler.From := Some 7; Handler.Chat_ := Some private_chat |}.

(** The same user sends a link. *)
Definition link_envelope : Handler.Envelope :=
  {| Handler.message := link_message; Handler.From := Some 7;
     Handler.Chat_ := Some private_chat |}.

(** [HandleUpdate] in these surroundings, with the collector set. *)
Definition toy_HandleUpdate :=
  Handler.HandleUpdate no_instant toy_Seal toy_Open toy_Encode toy_Decode toy_Parse
                       Security.Host toy_LookupIP toy_URLString toy_IPString toy_Quote
                       toy_FormatLocal (str "1.0") true.

(** ** A service and a file server *)

Definition stored_record : gostring := str "{}".

(** A service that answers every request with the status 200 and the
    same record. *)
Definition toy_Do (before : list Client.Request) (req : Client.Request)
  : Client.Response + gostring :=
  inl {| Client.StatusCode := 200; Client.ResponseBody := stored_record |}.

Definition toy_path_Join (parts : list gostring) : gostring :=
  Client.Join (filter (fun p => negb (is_empty p)) parts).

Definition toy_url_path (p : gostring) : gostring := "/"%char :: p.

(** Decoders that find the same identifier in every record. *)
Definition toy_decode (raw : gostring) (out : Bookmark) : Bookmark * bool :=
  ({| ID := str "b1"; BookmarkURL := BookmarkURL out; Title := Title out;
      BookmarkNotes := BookmarkNotes out; Summary := Summary out; Tags := Tags out;
      Raw := Raw out |}, true).

Definition toy_decode_data (raw : gostring) : option gostring := None.

Definition toy_decode_asset (raw : gostring) : Client.Asset * bool :=
  ({| Client.AssetID := str "asset-1"; Client.AssetFilename := [];
      Client.AssetMime := []; Client.AssetURL := []; Client.AssetRaw := [] |}, true).

Definition toy_decode_asset_data (raw : gostring) : option Client.Asset := None.

Definition toy_PathEscape (s : gostring) : gostring := s.

Definition fresh_client : Client.State :=
  {| Client.apiPrefix := str "/api/v1"; Client.sent := [] |}.

Definition fresh_session : Uploads.Session :=
  {| Uploads.client := fresh_client; Uploads.fetched := [] |}.

Definition stored_bookmark : Bookmark :=
  {| ID := str "b1"; BookmarkURL := []; Title := []; BookmarkNotes := [];
     Summary := []; Tags := []; Raw := stored_record |}.

(** Telegram serves every file under [documents/], and every file has
    the same ten bytes. *)
Definition toy_GetFile (fileID : gostring) : gostring + gostring :=
  inl (str "documents/" ++ fileID).

Definition toy_FileURL (filePath : gostring) : gostring :=
  str "https://files.example/" ++ filePath.

Definition ten_bytes : Downloader.Response :=
  {| Downloader.StatusCode := 200; Downloader.Body := str "0123456789";
     Downloader.ReadError := None |}.

Definition toy_Get (url : gostring) : Downloader.Response + gostring := inl ten_bytes.

(** The sticker of the sample message, of 1 KiB, and a video declared
    at 60 MiB. *)
Definition sticker_attachment : Attachments.Attachment :=
  {| Attachments.FileID := str "sticker-1"; Attachments.Filename := str "sticker.webp";
     Attachments.Mime := []; Attachments.SizeBytes := 1024 |}.

Definition long_video : Attachments.Attachment :=
  {| Attachments.FileID := str "video-1"; Attachments.Filename := str "video.mp4";
     Attachments.Mime := str "video/mp4"; Attachments.SizeBytes := 62914560 |}.

(** ** A configuration *)

(** The environment sets the token, with blanks around it, and the
    master key. *)
Definition sample_env : Config.Environ :=
  {[ str "TELEGRAM_BOT_TOKEN" := str " 123:abc "; str "API_KEY_MASTER_KEY" := str "passphrase" ]}.

Definition sample_config : Config.Config :=
  {| Config.ListenAddr := str ":8080"; Config.TelegramBotToken := str "123:abc";
     Config.TelegramWebhookPath := str "/telegram/webhook";
     Config.TelegramWebhookSecret := []; Config.TelegramDebug := false;
     Config.DBPath := str "./data/bot.sqlite";
     Config.APIKeyMasterKey := str "passphrase" |}.

(** A file system that makes every directory, a driver that opens an
    empty database, a passphrase that is not base 64, a digest of 32
    zero bytes and a cipher that takes every key. *)
Definition toy_Dir (p : gostring) : gostring := str "./data".
Definition toy_MkdirAll (dir : gostring) : option gostring := None.
Definition toy_sqlOpen (p : gostring) : Storage.DB + gostring := inl empty_db.
Definition toy_B64Decode (s : gostring) : gostring + gostring :=
  inr (str "illegal base64 data at input byte 8").
Definition toy_Sum256 (s : gostring) : gostring := repeat (Net.octet 0) 32.
Definition toy_NewAEAD (k : Crypto.Key) : option gostring := None.

(** ** Arrivals *)

(** Two albums whose units alternate, and a message of no album
    between them. *)
Definition other_album : gostring := str "other".

Definition mixed_arrivals : list Collector.arrival :=
  [(0, group_message 1 album);
   (Collector.Second, group_message 2 other_album);
   (Collector.Second, link_message);
   (2 * Collector.Second, group_message 3 album);
   (2 * Collector.Second, group_message 4 other_album)].

End Fixtures.

(* ================================================================== *)
(** * Properties of the string functions                               *)
(* ================================================================== *)

Module GoStringFacts.
Import GoString.

(** Induction on the length of a string, for the scans that look
    several bytes ahead. *)
Lemma length_ind {A} (P : list A -> Prop) :
  (forall s, (forall t, (length t < length s)%nat -> P t) -> P s) ->
  forall s, P s.
Proof.
  intros step s. remember (length s) as n eqn:E. revert s E.
  induction n as [n IH] using lt_wf_ind.
  intros s ->. apply step. intros t Ht. by eapply IH.
Qed.

Lemma is_empty_true (s : gostring) : is_empty s = true <-> s = [].
Proof. destruct s; simpl; split; congruence. Qed.

Lemma is_empty_false (s : gostring) : is_empty s = false <-> s <> [].
Proof. destruct s; simpl; split; congruence. Qed.

Lemma eqb_true (s t : gostring) : eqb s t = true <-> s = t.
Proof. unfold eqb. apply bool_decide_eq_true. Qed.

Lemma eqb_false (s t : gostring) : eqb s t = false <-> s <> t.
Proof. unfold eqb. apply bool_decide_eq_false. Qed.

Section Scan.
(** The two scans differ only in the order in which the bytes of an
    encoding are met. *)
Variable scan : gostring -> gostring.
Variable starts : gostring -> bool.
Hypothesis scan_nil : scan [] = [].
Hypothesis scan_step :
  forall s, s <> [] ->
    (starts s = false /\ scan s = s)
    \/ (starts s = true /\
        exists p t, p <> [] /\ s = p ++ t /\ scan s = scan t).
Hypothesis starts_nil : starts [] = false.
Hypothesis starts_prefix :
  forall p w, starts (p ++ w) = false -> starts p = false.

Lemma scan_suffix s : exists p, s = p ++ scan s.
Proof using scan_nil scan_step.
  induction s as [s IH] using length_ind.
  destruct s as [|c s']; [exists []; by rewrite scan_nil|].
  destruct (scan_step (c :: s')) as [[_ ->]|[_ (p & t & Hp & Hs & ->)]]; [done| |].
  - by exists [].
  - destruct (IH t) as [q Hq].
    { rewrite Hs, length_app. destruct p; [done|simpl; lia]. }
    exists (p ++ q). rewrite Hs at 1. rewrite Hq at 1. by rewrite app_assoc.
Qed.

Lemma scan_length s : (length (scan s) <= length s)%nat.
Proof using scan_nil scan_step.
  destruct (scan_suffix s) as [p Hp]. rewrite Hp at 2.
  rewrite length_app. lia.
Qed.

Lemma scan_fixed s : scan s = s <-> starts s = false.
Proof using scan_nil scan_step starts_nil.
  destruct s as [|c s']; [by rewrite scan_nil, starts_nil|].
  destruct (scan_step (c :: s')) as [[H1 H2]|[H1 (p & t & Hp & Hs & H2)]]; [done| |].
  - by split.
  - split; [|congruence]. intros E. exfalso.
    pose proof (scan_length t) as Hl. rewrite <- H2, E, Hs, length_app in Hl.
    destruct p; [done|simpl in Hl; lia].
Qed.

Lemma scan_not_starts s : starts (scan s) = false.
Proof using scan_nil scan_step starts_nil.
  induction s as [s IH] using length_ind.
  destruct s as [|c s']; [by rewrite scan_nil|].
  destruct (scan_step (c :: s')) as [[H1 ->]|[_ (p & t & Hp & Hs & ->)]]; [done|done|].
  apply IH. rewrite Hs, length_app. destruct p; [done|simpl; lia].
Qed.

Lemma scan_idem s : scan (scan s) = scan s.
Proof using scan_nil scan_step starts_nil.
  apply scan_fixed, scan_not_starts.
Qed.

End Scan.

Lemma trim_left_step s :
  s <> [] ->
  (starts_with_space s = false /\ trim_left s = s)
  \/ (starts_with_space s = true /\
      exists p t, p <> [] /\ s = p ++ t /\ trim_left s = trim_left t).
Proof.
  destruct s as [|c1 [|c2 [|c3 t3]]]; [done|..]; intros _; simpl;
    destruct (is_space1 c1) eqn:E1; simpl;
    try (right; split; [done|]; by eexists [c1], _);
    try (by left).
  - destruct (is_space2 c1 c2) eqn:E2; simpl; [|by left].
    right. split; [done|]. by exists [c1; c2], [].
  - destruct (is_space2 c1 c2) eqn:E2; simpl.
    { right. split; [done|]. by eexists [c1; c2], _. }
    destruct (is_space3 c1 c2 c3) eqn:E3; [|by left].
    right. split; [done|]. by exists [c1; c2; c3], t3.
Qed.

Lemma trim_left_rev_step s :
  s <> [] ->
  (ends_with_space s = false /\ trim_left_rev s = s)
  \/ (ends_with_space s = true /\
      exists p t, p <> [] /\ s = p ++ t /\ trim_left_rev s = trim_left_rev t).
Proof.
  destruct s as [|c1 [|c2 [|c3 t3]]]; [done|..]; intros _; simpl;
    destruct (is_space1 c1) eqn:E1; simpl;
    try (right; split; [done|]; by eexists [c1], _);
    try (by left).
  - destruct (is_space2 c2 c1) eqn:E2; simpl; [|by left].
    right. split; [done|]. by exists [c1; c2], [].
  - destruct (is_space2 c2 c1) eqn:E2; simpl.
    { right. split; [done|]. by eexists [c1; c2], _. }
    destruct (is_space3 c3 c2 c1) eqn:E3; [|by left].
    right. split; [done|]. by exists [c1; c2; c3], t3.
Qed.

Lemma starts_with_space_prefix p w :
  starts_with_space (p ++ w) = false -> starts_with_space p = false.
Proof.
  destruct p as [|c1 [|c2 [|c3 p]]]; simpl; try done.
  - intros H. apply orb_false_iff in H as [-> _]. done.
  - destruct w as [|c3 w]; simpl; [done|].
    intros H. apply orb_false_iff in H as [-> H].
    apply orb_false_iff in H as [-> _]. done.
Qed.

Lemma trim_left_idem s : trim_left (trim_left s) = trim_left s.
Proof. apply (scan_idem trim_left starts_with_space); auto using trim_left_step. Qed.

Lemma trim_left_rev_idem s : trim_left_rev (trim_left_rev s) = trim_left_rev s.
Proof.
  apply (scan_idem trim_left_rev ends_with_space); auto using trim_left_rev_step.
Qed.

Lemma trim_right_prefix s : exists w, s = trim_right s ++ w.
Proof.
  destruct (scan_suffix trim_left_rev ends_with_space eq_refl trim_left_rev_step (rev s))
    as [q Hq].
  exists (rev q). unfold trim_right. rewrite <- rev_app_distr, <- Hq.
  by rewrite rev_involutive.
Qed.

Lemma trim_right_idem s : trim_right (trim_right s) = trim_right s.
Proof.
  unfold trim_right. by rewrite rev_involutive, trim_left_rev_idem.
Qed.

(** What [TrimSpace] returns is left alone by a second [TrimSpace]. *)
Lemma TrimSpace_idem s : TrimSpace (TrimSpace s) = TrimSpace s.
Proof.
  unfold TrimSpace.
  assert (trim_left (trim_right (trim_left s)) = trim_right (trim_left s)) as ->.
  { apply (scan_fixed trim_left starts_with_space); auto using trim_left_step.
    destruct (trim_right_prefix (trim_left s)) as [w Hw].
    apply (starts_with_space_prefix _ w). rewrite <- Hw.
    apply (scan_not_starts trim_left starts_with_space); auto using trim_left_step. }
  apply trim_right_idem.
Qed.

Lemma TrimSpace_nil : TrimSpace [] = [].
Proof. reflexivity. Qed.

(** A string has at most as many code points as bytes. *)
Lemma runes_length s : (length (runes s) <= length s)%nat.
Proof.
  induction s as [s IH] using length_ind.
  destruct s as [|c1 t1]; [done|]. simpl.
  destruct (byte_val c1 <? 128).
  { simpl. specialize (IH t1 ltac:(simpl; lia)). lia. }
  assert (length (RuneError :: runes t1) <= S (length t1))%nat as Herr.
  { simpl. specialize (IH t1 ltac:(simpl; lia)). lia. }
  destruct t1 as [|c2 t2]; [simpl; lia|].
  destruct (in_range 194 223 c1 && is_cont c2).
  { simpl. specialize (IH t2 ltac:(simpl; lia)). lia. }
  destruct t2 as [|c3 t3]; [exact Herr|].
  destruct (in_range 224 239 c1 && second_of3 c1 c2 && is_cont c3).
  { simpl. specialize (IH t3 ltac:(simpl; lia)). lia. }
  destruct t3 as [|c4 t4]; [exact Herr|].
  destruct (in_range 240 244 c1 && second_of4 c1 c2 && is_cont c3 && is_cont c4).
  { simpl. specialize (IH t4 ltac:(simpl; lia)). lia. }
  exact Herr.
Qed.

Lemma RuneCount_le_len s : RuneCountInString s <= len s.
Proof. unfold RuneCountInString, len. pose proof (runes_length s). lia. Qed.

End GoStringFacts.

(* ================================================================== *)
(** * Properties of keeping first occurrences                          *)
(* ================================================================== *)

Module DedupFacts.
Import Dedup.

Section KeepFirst.
Context {A K : Type} `{EqDecision K} (key : A -> K).

Lemma keep_first_by_sublist l : keep_first_by key l `sublist_of` l.
Proof.
  induction l as [|x l IH]; simpl; [done|].
  apply sublist_skip. etrans; [apply sublist_filter|done].
Qed.

Lemma keep_first_by_elem_of x l : x ∈ keep_first_by key l -> x ∈ l.
Proof. intros Hx. eapply elem_of_sublist; [exact Hx|apply keep_first_by_sublist]. Qed.

Lemma keep_first_by_keys l k :
  k ∈ key <$> keep_first_by key l <-> k ∈ key <$> l.
Proof.
  induction l as [|x l IH]; simpl; [done|].
  rewrite !elem_of_cons, <- IH, !list_elem_of_fmap.
  split.
  - intros [->|(y & -> & Hy)]; [by left|].
    apply list_elem_of_filter in Hy as [_ Hy]. right. by exists y.
  - intros [->|(y & -> & Hy)]; [by left|].
    destruct (decide (key y = key x)) as [E|E]; [by left|].
    right. exists y. split; [done|]. by apply list_elem_of_filter.
Qed.

Lemma keep_first_by_NoDup l : NoDup (key <$> keep_first_by key l).
Proof.
  induction l as [|x l IH]; simpl; [constructor|].
  apply NoDup_cons. split.
  - intros (y & E & Hy)%list_elem_of_fmap.
    apply list_elem_of_filter in Hy as [Hy _]. congruence.
  - eapply sublist_NoDup; [exact IH|apply fmap_sublist, sublist_filter].
Qed.

(** The head of the list is kept whatever follows. *)
Lemma keep_first_by_head x l : head (keep_first_by key (x :: l)) = Some x.
Proof. reflexivity. Qed.

(** The fold of the extractors returns the first occurrences. *)
Lemma foldl_add_new out cs :
  foldl (add_new key) out cs
  = out ++ filter (fun y => key y ∉ key <$> out) (keep_first_by key cs).
Proof.
  revert out. induction cs as [|x cs IH]; intros out; simpl.
  { by rewrite filter_nil, app_nil_r. }
  rewrite IH. unfold add_new. destruct (decide (key x ∈ key <$> out)) as [Hin|Hin].
  - rewrite filter_cons_False by (intros ?; done).
    f_equal. rewrite list_filter_filter. apply list_filter_iff.
    intros y. split; [|by intros [? ?]]. intros Hy. split; [done|congruence].
  - rewrite filter_cons_True by done.
    rewrite <- app_assoc. simpl. do 2 f_equal.
    rewrite list_filter_filter. apply list_filter_iff.
    intros y. rewrite fmap_app, elem_of_app. simpl. rewrite list_elem_of_singleton.
    split; [|intros [? ?] [?|?]; done].
    intros Hy. split; [tauto|]. intros E. apply Hy. by right.
Qed.

Lemma foldl_add_new_nil cs : foldl (add_new key) [] cs = keep_first_by key cs.
Proof.
  rewrite foldl_add_new. simpl.
  induction (keep_first_by key cs) as [|y l IH]; [done|].
  rewrite filter_cons_True by apply not_elem_of_nil. by rewrite IH.
Qed.

(** The first element with a given key is kept. *)
Lemma keep_first_by_first l1 x l2 :
  key x ∉ key <$> l1 -> x ∈ keep_first_by key (l1 ++ x :: l2).
Proof.
  induction l1 as [|y l1 IH]; simpl; intros Hx; [by left|].
  rewrite not_elem_of_cons in Hx. destruct Hx as [Hne Hx].
  right. apply list_elem_of_filter. split; [done|by apply IH].
Qed.

(** Among elements with distinct keys a key is met at most once. *)
Lemma NoDup_keys_count (l : list A) k :
  NoDup (key <$> l) -> (length (filter (fun a => key a = k) l) <= 1)%nat.
Proof.
  induction l as [|x l IH]; simpl; [lia|].
  rewrite NoDup_cons. intros [Hx Hl]. rewrite filter_cons.
  destruct (decide (key x = k)) as [<-|Hne]; [|by apply IH].
  simpl. assert (filter (fun a => key a = key x) l = []) as ->; [|simpl; lia].
  destruct (filter _ l) as [|y l'] eqn:E; [done|]. exfalso. apply Hx.
  assert (y ∈ filter (fun a => key a = key x) l) as Hy by (rewrite E; by left).
  apply list_elem_of_filter in Hy as [<- Hy]. by apply list_elem_of_fmap_2.
Qed.

Lemma elem_of_keys_count (l : list A) k :
  k ∈ key <$> l -> (1 <= length (filter (fun a => key a = k) l))%nat.
Proof.
  intros (x & -> & Hx)%list_elem_of_fmap.
  assert (x ∈ filter (fun a => key a = key x) l) as Hin
      by by apply list_elem_of_filter.
  destruct (filter _ l); [by apply not_elem_of_nil in Hin|simpl; lia].
Qed.

End KeepFirst.

End DedupFacts.

(* ================================================================== *)
(** * Properties of package [classifier]                               *)
(* ================================================================== *)

Module ClassifierFacts.
Import GoString GoStringFacts Tgbotapi Classifier Dedup DedupFacts.

(** ** The URL extractor *)

Lemma drop_while_split {A} (f : A -> bool) (l : list A) :
  exists p, l = p ++ drop_while f l
            /\ Forall (fun x => f x = true) p
            /\ (forall x, head (drop_while f l) = Some x -> f x = false).
Proof.
  induction l as [|x l (p & Hl & Hp & Hh)]; simpl.
  { exists []. split; [done|]. split; [constructor|done]. }
  destruct (f x) eqn:E.
  - exists (x :: p). split; [simpl; by f_equal|]. split; [by constructor|done].
  - exists []. split; [done|]. split; [constructor|]. simpl. congruence.
Qed.

Lemma last_rev {A} (l : list A) : last (rev l) = head l.
Proof. rewrite <- last_reverse. unfold reverse. by rewrite <- rev_alt. Qed.

(** What the pattern removes is the run of class characters that ends
    the text; what is left does not end in one. *)
Lemma strip_trailing_punct_split u :
  exists p, u = strip_trailing_punct u ++ p
            /\ Forall (fun c => is_trailing_punct c = true) p
            /\ (forall c, last (strip_trailing_punct u) = Some c ->
                          is_trailing_punct c = false).
Proof.
  unfold strip_trailing_punct.
  destruct (drop_while_split is_trailing_punct (rev u)) as (p & Hl & Hp & Hh).
  exists (rev p). split; [|split].
  - rewrite <- rev_app_distr, <- Hl. by rewrite rev_involutive.
  - by apply List.Forall_rev.
  - intros c. rewrite last_rev. apply Hh.
Qed.

Lemma is_trailing_punct_chars c :
  is_trailing_punct c = true <-> c ∈ str ")].,!?:;".
Proof. unfold is_trailing_punct. apply bool_decide_eq_true. Qed.

Lemma normalize_trimmed c : TrimSpace (normalize c) = normalize c.
Proof. apply TrimSpace_idem. Qed.

Lemma visit_candidate text st e :
  visit text st e = match candidate text e with Some c => add st c | None => st end.
Proof.
  unfold visit, candidate.
  destruct (eqb (Type_ e) (str "text_link")); [done|].
  by destruct (eqb (Type_ e) (str "url")).
Qed.

Lemma foldl_visit text ents st :
  foldl (visit text) st ents = foldl add st (candidates text ents).
Proof.
  revert st. induction ents as [|e ents IH]; intros st; [done|].
  simpl. rewrite visit_candidate, IH. unfold candidates. simpl.
  by destruct (candidate text e).
Qed.

Lemma add_step st c :
  seen_is_out st ->
  seen_is_out (add st c)
  /\ (add st c).1
     = if decide (nonempty (normalize c)) then add_new id st.1 (normalize c) else st.1.
Proof.
  intros Hinv. unfold add, add_new, nonempty. rewrite list_fmap_id. simpl.
  destruct (is_empty (normalize c)) eqn:E.
  { apply is_empty_true in E. rewrite decide_False by tauto. done. }
  apply is_empty_false in E. rewrite decide_True by done.
  destruct (decide (normalize c ∈ st.1)) as [Hin|Hin].
  - rewrite bool_decide_eq_true_2 by by apply Hinv. done.
  - rewrite bool_decide_eq_false_2 by (by intros ?%Hinv). simpl. split; [|done].
    intros u. simpl. rewrite elem_of_union, elem_of_singleton, elem_of_app,
      list_elem_of_singleton, (Hinv u). tauto.
Qed.

Lemma foldl_add st cs :
  seen_is_out st ->
  (foldl add st cs).1
  = foldl (add_new id) st.1 (filter nonempty (normalize <$> cs)).
Proof.
  revert st. induction cs as [|c cs IH]; intros st Hinv; [done|].
  simpl. destruct (add_step st c Hinv) as [Hinv' E].
  rewrite (IH _ Hinv'), E. rewrite filter_cons.
  by destruct (decide (nonempty (normalize c))).
Qed.

Lemma ExtractURLs_extracted text ents : ExtractURLs text ents = extracted text ents.
Proof.
  unfold ExtractURLs, extracted. rewrite foldl_visit, foldl_add.
  - apply foldl_add_new_nil.
  - intros u. simpl. rewrite elem_of_empty. split; [done|]. apply not_elem_of_nil.
Qed.

Lemma elem_of_extracted text ents u :
  u ∈ extracted text ents
  <-> u <> [] /\ exists c, c ∈ candidates text ents /\ u = normalize c.
Proof.
  unfold extracted.
  rewrite <- (list_fmap_id (keep_first_by id _)), keep_first_by_keys, list_fmap_id.
  rewrite list_elem_of_filter, list_elem_of_fmap. unfold nonempty.
  split; intros [Hu (c & H1 & H2)]; (split; [done|by exists c]).
Qed.

Lemma ExtractURLs_dedup_free text ents u :
  u ∈ ExtractURLs text ents -> TrimSpace u = u.
Proof.
  rewrite ExtractURLs_extracted.
  intros (_ & c & _ & ->)%elem_of_extracted. apply normalize_trimmed.
Qed.

(** The extractor, given what the offset resolver returns.  For every
    text and entity list, [ExtractURLs] returns the normalized
    contributions of the entities, the empty ones dropped and of equal
    ones only the first kept, in the order of the entities: an explicit
    link contributes its URL, an auto-detected URL what [SliceByUTF16]
    returns for its span.  The result has no duplicate and no empty or
    untrimmed string; normalizing strips the run of closing brackets,
    periods, commas, exclamation and question marks, colons and
    semicolons that ends the trimmed text. *)
Lemma ExtractURLs_dedup_in_order text ents :
  let out := ExtractURLs text ents in
  out = keep_first_by id (filter nonempty (normalize <$> candidates text ents))
  /\ NoDup out
  /\ out `sublist_of` (normalize <$> candidates text ents)
  /\ (forall u, u ∈ out <->
                u <> [] /\ exists c, c ∈ candidates text ents /\ u = normalize c)
  /\ (forall u, u ∈ out -> TrimSpace u = u)
  /\ (forall c, exists p,
         TrimSpace c = strip_trailing_punct (TrimSpace c) ++ p
         /\ Forall (fun ch => ch ∈ str ")].,!?:;") p
         /\ forall ch, last (strip_trailing_punct (TrimSpace c)) = Some ch ->
                       ch ∉ str ")].,!?:;").
Proof.
  intros out. subst out. rewrite ExtractURLs_extracted.
  split; [done|]. split; [|split; [|split; [|split]]].
  - unfold extracted. rewrite <- (list_fmap_id (keep_first_by id _)).
    apply keep_first_by_NoDup.
  - unfold extracted. etrans; [apply keep_first_by_sublist|apply sublist_filter].
  - apply elem_of_extracted.
  - intros u (_ & c & _ & ->)%elem_of_extracted. apply normalize_trimmed.
  - intros c. destruct (strip_trailing_punct_split (TrimSpace c)) as (p & H1 & H2 & H3).
    exists p. split; [done|]. split.
    + eapply Forall_impl; [exact H2|]. intros ch. apply is_trailing_punct_chars.
    + intros ch Hch Hin. apply is_trailing_punct_chars in Hin.
      rewrite (H3 ch Hch) in Hin. done.
Qed.

(** ** The classifier *)

Lemma ExtractURLsFromMessage_trimmed msg u :
  u ∈ ExtractURLsFromMessage msg -> TrimSpace u = u.
Proof.
  destruct msg as [m|]; simpl; [|by intros ?%not_elem_of_nil].
  destruct (is_empty (Text m)); simpl.
  - destruct (is_empty (Caption m)); simpl; [by intros ?%not_elem_of_nil|].
    apply ExtractURLs_dedup_free.
  - apply ExtractURLs_dedup_free.
Qed.

Lemma Kinds_distinct :
  KindBookmark <> KindNote /\ KindBookmark <> KindFile /\ KindNote <> KindFile
  /\ KindBookmark <> [] /\ KindNote <> [] /\ KindFile <> [].
Proof. repeat split; discriminate. Qed.

(** C1.  For every message, with [text] the trimmed text-or-caption,
    [urls] the extracted URL list and [media] the presence of media:
    media with no text and no URL is a file; media otherwise is a note
    with the text and the whole URL list; no media and no URL is a note
    with the text; no media and one URL is a bookmark of that URL, with
    empty notes when the text is the URL, with the text as notes and the
    URL list attached otherwise; no media and two or more URLs is a note
    with the text and the whole URL list. *)
Theorem ClassifyMessage_table (m : Message) :
  let text := TrimSpace (firstNonEmpty (Text m) (Caption m)) in
  let urls := ExtractURLsFromMessage (Some m) in
  let media := messageHasMedia (Some m) in
  let r := ClassifyMessage (Some m) in
  (media = true -> text = [] -> urls = [] ->
     Kind_ r = KindFile /\ HasMedia r = true)
  /\ (media = true -> ~ (text = [] /\ urls = []) ->
       Kind_ r = KindNote /\ ResText r = text /\ URLs r = urls /\ HasMedia r = true)
  /\ (media = false -> urls = [] ->
       Kind_ r = KindNote /\ ResText r = text /\ URLs r = [])
  /\ (media = false -> forall u, urls = [u] ->
       Kind_ r = KindBookmark /\ URL r = u
       /\ (text = u -> Notes r = [])
       /\ (text <> u -> Notes r = text /\ URLs r = [u]))
  /\ (media = false -> (2 <= length urls)%nat ->
       Kind_ r = KindNote /\ ResText r = text /\ URLs r = urls).
Proof.
  intros text urls media r. subst r. unfold ClassifyMessage.
  fold text urls media.
  split; [|split; [|split; [|split]]].
  - intros -> -> ->. done.
  - intros -> Hne. simpl.
    destruct (is_empty text) eqn:Et; simpl; [|done].
    destruct urls as [|u0 us] eqn:Eu; simpl; [|done].
    apply is_empty_true in Et. tauto.
  - intros -> ->. done.
  - intros -> u Hu. rewrite Hu. simpl.
    assert (TrimSpace u = u) as ->.
    { apply (ExtractURLsFromMessage_trimmed (Some m)). fold urls. rewrite Hu.
      apply list_elem_of_singleton. done. }
    destruct (eqb text u) eqn:E.
    + apply eqb_true in E. repeat split; done.
    + apply eqb_false in E. repeat split; done.
  - intros -> Hlen. simpl. destruct urls as [|u0 [|u1 us]]; simpl in *; [lia|lia|done].
Qed.

(** C10.  [ClassifyMessage] is total: a nil message gives a note with
    every other field at its zero value, and the kind returned for any
    input is one of the three constants, none of which is the absent
    (empty) kind. *)
Theorem ClassifyMessage_total :
  ClassifyMessage None
  = {| Kind_ := KindNote; URL := URL zero_Result; Notes := Notes zero_Result;
       ResText := ResText zero_Result; URLs := URLs zero_Result;
       HasMedia := HasMedia zero_Result |}
  /\ (forall msg, Kind_ (ClassifyMessage msg) ∈ [KindBookmark; KindNote; KindFile])
  /\ (forall msg, Kind_ (ClassifyMessage msg) <> []).
Proof.
  assert (forall msg, Kind_ (ClassifyMessage msg) = KindBookmark
                      \/ Kind_ (ClassifyMessage msg) = KindNote
                      \/ Kind_ (ClassifyMessage msg) = KindFile) as Hkind.
  { intros [m|]; unfold ClassifyMessage; [|by auto].
    set (urls := ExtractURLsFromMessage (Some m)).
    set (text := TrimSpace _).
    destruct (messageHasMedia (Some m)); cbn [andb].
    - destruct (is_empty text && _); by auto.
    - destruct urls as [|u0 [|u1 us]]; [by auto| |by auto].
      destruct (eqb _ _); by auto. }
  split; [done|]. split.
  - intros msg. rewrite !elem_of_cons. specialize (Hkind msg). tauto.
  - intros msg E. destruct (Hkind msg) as [H|[H|H]]; rewrite E in H; discriminate.
Qed.

(** C2, at the cases of the package's own test.  On the text [a😊b]
    the pair (0, 1) addresses [a] and the pair (1, 2) addresses [😊];
    [SliceByUTF16] returns the whole text for the first and [😊b] for
    the second: a span that ends on the boundary of a code point before
    the last one is returned up to the end of the text.  The pair (3, 1),
    which ends with the text, is returned as [b], as it should. *)
Theorem SliceByUTF16_runs_to_the_end :
  utf16_span (str "a😊b") 0 1 = str "a"
  /\ SliceByUTF16 (str "a😊b") 0 1 = str "a😊b"
  /\ SliceByUTF16 (str "a😊b") 0 1 <> str "a"
  /\ utf16_span (str "a😊b") 1 2 = str "😊"
  /\ SliceByUTF16 (str "a😊b") 1 2 = str "😊b"
  /\ SliceByUTF16 (str "a😊b") 1 2 <> str "😊"
  /\ utf16_span (str "a😊b") 3 1 = str "b"
  /\ SliceByUTF16 (str "a😊b") 3 1 = str "b".
Proof. repeat split; by vm_compute. Qed.

(** C6, where a URL is followed by more text.  In the text
    [read https://example.com, then reply] the entity at offset 5 of
    length 19 addresses [https://example.com]; [ExtractURLs] returns the
    text from the URL to the end instead, what [SliceByUTF16] makes of
    the span. *)
Theorem ExtractURLs_takes_the_rest_of_the_text :
  utf16_span Samples.reply_text 5 19 = str "https://example.com"
  /\ normalize (utf16_span Samples.reply_text 5 19) = str "https://example.com"
  /\ SliceByUTF16 Samples.reply_text 5 19 = str "https://example.com, then reply"
  /\ ExtractURLs Samples.reply_text Samples.reply_entities
     = [str "https://example.com, then reply"]
  /\ ExtractURLs Samples.reply_text Samples.reply_entities
     <> [str "https://example.com"].
Proof. repeat split; by vm_compute. Qed.

End ClassifierFacts.

(* ================================================================== *)
(** * Properties of the attachment extractor                           *)
(* ================================================================== *)

Module AttachmentsFacts.
Import GoString GoStringFacts Tgbotapi Attachments Dedup DedupFacts.

Lemma FileID_with_default_name a : FileID (with_default_name a) = FileID a.
Proof. unfold with_default_name. by destruct (is_empty _). Qed.

Lemma visit_message_candidates st m :
  visit_message st m = foldl add st (candidates_of m).
Proof.
  unfold visit_message, candidates_of, one.
  destruct (last (Photo m)), (Document_ m), (Video_ m), (Audio_ m), (Voice_ m),
    (Animation_ m), (VideoNote_ m), (Sticker_ m); reflexivity.
Qed.

Lemma foldl_visit_candidates msgs st :
  foldl visit st msgs = foldl add st (candidates msgs).
Proof.
  revert st. induction msgs as [|msg msgs IH]; intros st; [done|].
  unfold candidates. simpl. rewrite foldl_app, IH.
  destruct msg as [m|]; simpl; [|done]. by rewrite visit_message_candidates.
Qed.

Lemma add_tracks st kept a :
  tracks st kept ->
  tracks (add st a) (if decide (has_id a) then add_new FileID kept a else kept).
Proof.
  intros [Hout Hseen]. unfold add, add_new, has_id.
  destruct (is_empty (TrimSpace (FileID a))) eqn:E.
  { apply is_empty_true in E. rewrite decide_False by tauto. done. }
  apply is_empty_false in E. rewrite decide_True by done.
  destruct (decide (FileID a ∈ FileID <$> kept)) as [Hin|Hin].
  - rewrite bool_decide_eq_true_2 by by apply Hseen. done.
  - rewrite bool_decide_eq_false_2 by (by intros ?%Hseen).
    split; simpl.
    + rewrite fmap_app, Hout. simpl. unfold with_default_name.
      by destruct (is_empty (TrimSpace (Filename a))).
    + intros f. rewrite fmap_app, elem_of_union, elem_of_singleton, elem_of_app.
      simpl. rewrite list_elem_of_singleton, (Hseen f). tauto.
Qed.

Lemma foldl_add_tracks cs st kept :
  tracks st kept ->
  tracks (foldl add st cs) (foldl (add_new FileID) kept (filter has_id cs)).
Proof.
  revert st kept. induction cs as [|c cs IH]; intros st kept Ht; [done|].
  simpl. rewrite filter_cons.
  pose proof (add_tracks st kept c Ht) as Ht'.
  destruct (decide (has_id c)); simpl; by apply IH.
Qed.

Lemma ExtractAttachments_attachments msgs : ExtractAttachments msgs = attachments msgs.
Proof.
  unfold ExtractAttachments, attachments. rewrite foldl_visit_candidates.
  destruct (foldl_add_tracks (candidates msgs) ([], ∅) []) as [-> _].
  { split; [done|]. intros f. simpl. rewrite elem_of_empty. split; [done|].
    apply not_elem_of_nil. }
  by rewrite foldl_add_new_nil.
Qed.

Lemma attachments_keys msgs :
  FileID <$> attachments msgs
  = FileID <$> keep_first_by FileID (filter has_id (candidates msgs)).
Proof.
  unfold attachments. rewrite <- list_fmap_compose. apply list_fmap_ext.
  intros i a _. apply FileID_with_default_name.
Qed.

(** C7.  For every batch, [ExtractAttachments] returns the media
    objects that have an identifier, of those that share an identifier
    only the first in batch order, each with the file name and MIME type
    of its kind: no identifier comes twice, and an identifier that the
    batch carries, however often, comes exactly once. *)
Theorem ExtractAttachments_once_per_file msgs :
  let out := ExtractAttachments msgs in
  let found := filter has_id (candidates msgs) in
  out = with_default_name <$> keep_first_by FileID found
  /\ NoDup (FileID <$> out)
  /\ (forall f,
        length (filter (fun a => FileID a = f) out)
        = if decide (f ∈ FileID <$> found) then 1%nat else 0%nat)
  /\ (forall before a after,
        found = before ++ a :: after -> FileID a ∉ FileID <$> before ->
        with_default_name a ∈ out).
Proof.
  intros out found. subst out found. rewrite ExtractAttachments_attachments.
  assert (NoDup (FileID <$> attachments msgs)) as Hnd.
  { rewrite attachments_keys. apply keep_first_by_NoDup. }
  split; [done|]. split; [done|]. split.
  - intros f. pose proof (NoDup_keys_count FileID (attachments msgs) f Hnd) as Hle.
    destruct (decide (f ∈ FileID <$> _)) as [Hin|Hin].
    + apply keep_first_by_keys in Hin.
      rewrite <- attachments_keys in Hin.
      pose proof (elem_of_keys_count FileID _ _ Hin). lia.
    + destruct (filter _ (attachments msgs)) as [|a l] eqn:E; [done|].
      exfalso. apply Hin.
      assert (a ∈ filter (fun a => FileID a = f) (attachments msgs)) as Ha
          by (rewrite E; by left).
      apply list_elem_of_filter in Ha as [<- Ha].
      apply (keep_first_by_keys FileID). rewrite <- attachments_keys.
      by apply list_elem_of_fmap_2.
  - intros before a after E Hfirst. unfold attachments. rewrite E.
    apply list_elem_of_fmap_2. by apply keep_first_by_first.
Qed.

End AttachmentsFacts.

(* ================================================================== *)
(** * Properties of the error texts                                    *)
(* ================================================================== *)

Module ErrorTextFacts.
Import GoString GoStringFacts App.

(** The text every message starts with: sixteen bytes, eight code
    points. *)
Lemma error_head_start status :
  exists rest, error_head status = str "❌ Ошибка" ++ rest.
Proof. unfold error_head. eexists. reflexivity. Qed.

Lemma runes_after_start x :
  runes (str "❌ Ошибка" ++ x) = runes (str "❌ Ошибка") ++ runes x.
Proof. reflexivity. Qed.

Lemma RuneCount_after_start x :
  RuneCountInString (str "❌ Ошибка" ++ x) <= len (str "❌ Ошибка" ++ x) - 8.
Proof.
  unfold RuneCountInString, len. rewrite runes_after_start, !length_app.
  pose proof (runes_length x).
  change (length (runes (str "❌ Ошибка"))) with 8%nat.
  change (length (str "❌ Ошибка")) with 16%nat. lia.
Qed.

(** The cut at 800 bytes and the mark that follows it. *)
Lemma cut_keeps_start x :
  len (str "❌ Ошибка" ++ x) > 800 ->
  exists y, prefix_bytes 800 (str "❌ Ошибка" ++ x) ++ ellipsis = str "❌ Ошибка" ++ y
            /\ len (prefix_bytes 800 (str "❌ Ошибка" ++ x) ++ ellipsis) = 803.
Proof.
  unfold len, prefix_bytes. rewrite length_app.
  change (length (str "❌ Ошибка")) with 16%nat. intros Hlen.
  exists (take 784 x ++ ellipsis). split.
  - rewrite take_app. change (length (str "❌ Ошибка")) with 16%nat.
    change (Z.to_nat 800 - 16)%nat with 784%nat.
    change (take (Z.to_nat 800) (str "❌ Ошибка")) with (str "❌ Ошибка").
    by rewrite <- app_assoc.
  - rewrite !length_app, length_take, length_app.
    change (length (str "❌ Ошибка")) with 16%nat.
    change (length ellipsis) with 3%nat. lia.
Qed.

Lemma capped_bounds x :
  let full := str "❌ Ошибка" ++ x in
  let msg := if len full >? 800 then prefix_bytes 800 full ++ ellipsis else full in
  RuneCountInString msg <= 800 /\ len msg <= 803.
Proof.
  intros full msg. subst msg. destruct (len full >? 800) eqn:E.
  - apply Z.gtb_lt in E. destruct (cut_keeps_start x) as (y & Hy & Hlen); [fold full; lia|].
    fold full in Hy, Hlen. rewrite Hlen. split; [|lia].
    pose proof (RuneCount_after_start y) as Hr. rewrite <- Hy, Hlen in Hr. lia.
  - rewrite Z.gtb_ltb in E. apply Z.ltb_ge in E.
    pose proof (RuneCount_after_start x) as Hr. fold full in Hr. lia.
Qed.

(** C9.  The message shown for a failed submission is chosen by the
    status: 404 gives the wrong-address hint, 401 and 403 the credential
    hint, 400 the rejected-payload hint followed by the error excerpt,
    any other status the excerpt alone; the last two are cut after 800
    bytes and marked with an ellipsis.  The message never has more than
    800 characters (code points), nor more than 803 bytes. *)
Theorem userFacingKarakeepError_by_status status err :
  let msg := userFacingKarakeepError status err in
  let excerpt := match err with Some e => str " " ++ TrimSpace e | None => [] end in
  let cap := fun full : gostring =>
    if len full >? 800 then prefix_bytes 800 full ++ ellipsis else full in
  (status = 404 -> msg = error_head status ++ hint404)
  /\ (status = 401 \/ status = 403 -> msg = error_head status ++ hint401)
  /\ (status = 400 ->
       msg = cap (error_head status ++ hint400 ++ excerpt)
       /\ exists rest, msg = error_head status ++ hint400 ++ rest)
  /\ (status <> 404 -> status <> 401 -> status <> 403 -> status <> 400 ->
       msg = cap (error_head status ++ excerpt))
  /\ RuneCountInString msg <= 800
  /\ len msg <= 803.
Proof.
  intros msg excerpt cap. subst msg. unfold userFacingKarakeepError.
  destruct (status =? 404) eqn:E404.
  { apply Z.eqb_eq in E404. subst status.
    repeat split; try (intros; lia); try (intros [?|?]; lia); by vm_compute. }
  apply Z.eqb_neq in E404.
  destruct (status =? 401) eqn:E401; cbn [orb].
  { apply Z.eqb_eq in E401. subst status.
    repeat split; try (intros; lia); by vm_compute. }
  apply Z.eqb_neq in E401.
  destruct (status =? 403) eqn:E403; cbn [orb].
  { apply Z.eqb_eq in E403. subst status.
    repeat split; try (intros; lia); by vm_compute. }
  apply Z.eqb_neq in E403.
  assert (forall head : gostring,
            match err with Some e => head ++ str " " ++ TrimSpace e | None => head end
            = head ++ excerpt) as Hex.
  { intros head. subst excerpt. destruct err; [done|by rewrite app_nil_r]. }
  rewrite Hex. fold (cap ((if status =? 400 then error_head status ++ hint400
                            else error_head status) ++ excerpt)).
  destruct (error_head_start status) as [rest Hrest].
  destruct (status =? 400) eqn:E400.
  - apply Z.eqb_eq in E400. subst status. rewrite <- app_assoc.
    split; [intros; lia|]. split; [intros [?|?]; lia|]. split; [|split; [intros; lia|]].
    + intros _. split; [done|]. unfold cap.
      destruct (len _ >? 800) eqn:El; [|by eexists].
      eexists. unfold prefix_bytes.
      rewrite take_app_ge by (vm_compute; lia).
      rewrite take_app_ge by (vm_compute; lia).
      rewrite <- !app_assoc. reflexivity.
    + rewrite Hrest, <- app_assoc. apply capped_bounds.
  - apply Z.eqb_neq in E400.
    split; [intros; lia|]. split; [intros [?|?]; lia|]. split; [intros; lia|].
    split; [done|].
    rewrite Hrest, <- app_assoc. apply capped_bounds.
Qed.

End ErrorTextFacts.

(* ================================================================== *)
(** * Properties of the submission step                                *)
(* ================================================================== *)

Module SubmitFacts.
Import GoString GoStringFacts Karakeep App Classifier.

Section Submission.
Variable rfc3339 : Z -> gostring.
Variable respond : list CreateCall -> CreateCall -> Created.

(** C8.  Whatever create calls came [before]: a note is submitted
    without URL, and when that call fails and the classification holds
    a URL it is submitted once more with the first URL, the answer to
    this second call being the outcome; in every other case, among them
    every bookmark and every file, exactly one create call is made. *)
Theorem submit_retries_only_a_failed_note (res : Result) (date : Z)
        (before : list CreateCall) :
  let outcome := (submit rfc3339 respond res date before).1 in
  let calls := (submit rfc3339 respond res date before).2 in
  let text_only :=
    {| call_url := []; call_title := []; call_notes := ResText res |} in
  (Kind_ res = KindNote ->
     (forall u0 us,
        err (respond before text_only) <> None -> URLs res = u0 :: us ->
        let with_url :=
          {| call_url := u0; call_title := []; call_notes := ResText res |} in
        calls = before ++ [text_only; with_url]
        /\ outcome = respond (before ++ [text_only]) with_url)
     /\ (err (respond before text_only) = None \/ URLs res = [] ->
         calls = before ++ [text_only] /\ outcome = respond before text_only))
  /\ (Kind_ res = KindBookmark ->
      let link :=
        {| call_url := URL res; call_title := []; call_notes := Notes res |} in
      calls = before ++ [link] /\ outcome = respond before link)
  /\ (Kind_ res = KindFile ->
      let label :=
        {| call_url := []; call_title := [];
           call_notes := str "Telegram media (" ++ rfc3339 date ++ str ")" |} in
      calls = before ++ [label] /\ outcome = respond before label).
Proof.
  intros outcome calls text_only. subst outcome calls. unfold submit.
  split; [|split].
  - intros ->. rewrite (proj2 (eqb_false KindNote KindBookmark)) by discriminate.
    rewrite (proj2 (eqb_true KindNote KindNote)) by done.
    unfold mbind, client_bind, CreateBookmark. fold text_only. split.
    + intros u0 us Herr ->. destruct (err (respond before text_only)); [|done].
      simpl. by rewrite <- app_assoc.
    + intros [Hok| ->].
      * by rewrite Hok.
      * by destruct (err (respond before text_only)).
  - intros ->. by rewrite (proj2 (eqb_true KindBookmark KindBookmark)).
  - intros ->. rewrite (proj2 (eqb_false KindFile KindBookmark)) by discriminate.
    rewrite (proj2 (eqb_false KindFile KindNote)) by discriminate.
    by rewrite (proj2 (eqb_true KindFile KindFile)).
Qed.

End Submission.

End SubmitFacts.

(* ================================================================== *)
(** * Properties of the readiness scan                                 *)
(* ================================================================== *)

Module ReadinessFacts.
Import GoString GoStringFacts Karakeep App.

Lemma is_excluded_key_spec kl : is_excluded_key kl = true <-> kl ∈ excluded_keys.
Proof.
  unfold is_excluded_key, excluded_keys.
  rewrite !orb_true_iff, !eqb_true, !elem_of_cons, elem_of_nil. tauto.
Qed.

Lemma is_content_key_spec kl :
  is_content_key kl = true <-> kl ∈ scanned_content_keys.
Proof.
  unfold is_content_key, scanned_content_keys.
  rewrite !orb_true_iff, !eqb_true, !elem_of_cons, elem_of_nil. tauto.
Qed.

Lemma long_string_spec n v :
  long_string n v = true <-> exists s, v = JString s /\ len (TrimSpace s) >= n.
Proof.
  destruct v; simpl; try (split; [done|by intros (? & ? & ?)]).
  rewrite Z.geb_le. split.
  - intros H. eexists. split; [done|lia].
  - intros (s' & [= <-] & H). lia.
Qed.

(** The scan, one field or item at a time. *)
Lemma find_beyond v d : d > 6 -> findNonTrivialContent v d = false.
Proof.
  intros Hd. destruct v; simpl;
    destruct (d >? 6) eqn:E; try done; rewrite Z.gtb_ltb in E;
    apply Z.ltb_ge in E; lia.
Qed.

Lemma find_string x d :
  d <= 6 -> findNonTrivialContent (JString x) d = (len (TrimSpace x) >=? 400).
Proof.
  intros Hd. simpl. destruct (d >? 6) eqn:E; [|done].
  rewrite Z.gtb_ltb in E. apply Z.ltb_lt in E. lia.
Qed.

Lemma find_object_nil d : findNonTrivialContent (JObject []) d = false.
Proof. simpl. by destruct (d >? 6). Qed.

Lemma find_object_cons k vv rest d :
  d <= 6 ->
  findNonTrivialContent (JObject ((k, vv) :: rest)) d
  = if is_excluded_key (ToLower k) then findNonTrivialContent (JObject rest) d
    else if is_content_key (ToLower k) && long_string 200 vv then true
    else if findNonTrivialContent vv (d + 1) then true
    else findNonTrivialContent (JObject rest) d.
Proof.
  intros Hd. simpl. destruct (d >? 6) eqn:E; [|done].
  rewrite Z.gtb_ltb in E. apply Z.ltb_lt in E. lia.
Qed.

Lemma find_array_nil d : findNonTrivialContent (JArray []) d = false.
Proof. simpl. by destruct (d >? 6). Qed.

Lemma find_array_cons vv rest d :
  d <= 6 ->
  findNonTrivialContent (JArray (vv :: rest)) d
  = if findNonTrivialContent vv (d + 1) then true
    else findNonTrivialContent (JArray rest) d.
Proof.
  intros Hd. simpl. destruct (d >? 6) eqn:E; [|done].
  rewrite Z.gtb_ltb in E. apply Z.ltb_lt in E. lia.
Qed.

Lemma find_object fields d :
  d <= 6 ->
  findNonTrivialContent (JObject fields) d = true
  <-> exists k v, (k, v) ∈ fields /\ is_excluded_key (ToLower k) = false
                  /\ (is_content_key (ToLower k) && long_string 200 v = true
                      \/ findNonTrivialContent v (d + 1) = true).
Proof.
  intros Hd. induction fields as [|[k vv] rest IH].
  { rewrite find_object_nil. split; [done|]. intros (k & v & H%not_elem_of_nil & _). done. }
  rewrite find_object_cons by done.
  destruct (is_excluded_key (ToLower k)) eqn:Ex.
  { rewrite IH. split.
    - intros (k' & v' & Hin & H). exists k', v'. split; [by right|done].
    - intros (k' & v' & Hin & Hex' & H). apply elem_of_cons in Hin as [[= -> ->]|Hin].
      + congruence.
      + by exists k', v'. }
  destruct (is_content_key (ToLower k) && long_string 200 vv) eqn:Ec.
  { split; [|done]. intros _. exists k, vv. split; [by left|]. split; [done|by left]. }
  destruct (findNonTrivialContent vv (d + 1)) eqn:Ef.
  { split; [|done]. intros _. exists k, vv. split; [by left|]. split; [done|by right]. }
  rewrite IH. split.
  - intros (k' & v' & Hin & H). exists k', v'. split; [by right|done].
  - intros (k' & v' & Hin & Hex' & H). apply elem_of_cons in Hin as [[= -> ->]|Hin].
    + destruct H; congruence.
    + by exists k', v'.
Qed.

Lemma find_array items d :
  d <= 6 ->
  findNonTrivialContent (JArray items) d = true
  <-> exists v, v ∈ items /\ findNonTrivialContent v (d + 1) = true.
Proof.
  intros Hd. induction items as [|vv rest IH].
  { rewrite find_array_nil. split; [done|]. intros (v & H%not_elem_of_nil & _). done. }
  rewrite find_array_cons by done.
  destruct (findNonTrivialContent vv (d + 1)) eqn:Ef.
  { split; [|done]. intros _. exists vv. split; [by left|done]. }
  rewrite IH. split.
  - intros (v' & Hin & H). exists v'. split; [by right|done].
  - intros (v' & Hin & H). apply elem_of_cons in Hin as [->|Hin]; [congruence|].
    by exists v'.
Qed.

Lemma finds_found v d :
  finds scanned_content_keys d v -> findNonTrivialContent v d = true.
Proof.
  induction 1 as [d x Hd Hx|d fields k s Hd Hin Hex Hkey Hs
                 |d fields k v Hd Hin Hex _ IH|d items v Hd Hin _ IH].
  - rewrite find_string by done. apply Z.geb_le. lia.
  - apply find_object; [done|]. exists k, (JString s). split; [done|]. split.
    + destruct (is_excluded_key (ToLower k)) eqn:E; [|done].
      by apply is_excluded_key_spec in E.
    + left. apply andb_true_iff. split; [by apply is_content_key_spec|].
      apply long_string_spec. by exists s.
  - apply find_object; [done|]. exists k, v. split; [done|]. split; [|by right].
    destruct (is_excluded_key (ToLower k)) eqn:E; [|done].
    by apply is_excluded_key_spec in E.
  - apply find_array; [done|]. by exists v.
Qed.

Lemma found_finds (n : nat) : forall v d,
  7 - d <= Z.of_nat n ->
  findNonTrivialContent v d = true -> finds scanned_content_keys d v.
Proof.
  induction n as [|n IH]; intros v d Hn Hf.
  { rewrite find_beyond in Hf by lia. done. }
  destruct (decide (d <= 6)) as [Hd|Hd]; [|rewrite find_beyond in Hf by lia; done].
  destruct v as [|b|lit|x|items|fields].
  - simpl in Hf. by destruct (d >? 6).
  - simpl in Hf. by destruct (d >? 6).
  - simpl in Hf. by destruct (d >? 6).
  - rewrite find_string in Hf by done. apply Z.geb_le in Hf.
    apply finds_large; [done|lia].
  - apply find_array in Hf as (v & Hin & Hv); [|done].
    apply (finds_below_item _ _ _ v); [done|done|]. apply IH; [lia|done].
  - apply find_object in Hf as (k & v & Hin & Hex & Hv); [|done].
    assert (ToLower k ∉ excluded_keys) as Hex'.
    { intros H%is_excluded_key_spec. congruence. }
    destruct Hv as [Hv|Hv].
    + apply andb_true_iff in Hv as [Hk (s & -> & Hs)%long_string_spec].
      apply (finds_field _ _ _ k s); [done|done|done| |done].
      by apply is_content_key_spec.
    + apply (finds_below_field _ _ _ k v); [done|done|done|].
      apply IH; [lia|done].
Qed.

Lemma find_iff_finds v d :
  findNonTrivialContent v d = true <-> finds scanned_content_keys d v.
Proof.
  split; [|apply finds_found].
  apply (found_finds (Z.to_nat (7 - d))). lia.
Qed.

(** C5, as the code has it.  For every raw record and whatever the
    decoder returns for it, the extraction-readiness test holds exactly
    when the record carries one of the two success markers, or is not
    empty and decodes to an object in which the scan, no deeper than
    level 6 and skipping the fields keyed notes, note or summary, finds
    a string of at least 200 bytes once trimmed under one of the keys
    content, html, text, textcontent, readablecontent, excerpt,
    description, markdown, article, or any string of at least 400 bytes
    once trimmed; keys are compared in lower case. *)
Theorem hasExtractedContent_signalled Unmarshal raw :
  hasExtractedContent Unmarshal raw = true
  <-> extraction_signalled Unmarshal scanned_content_keys raw.
Proof.
  unfold hasExtractedContent, extraction_signalled.
  destruct (len raw =? 0) eqn:El.
  { apply Z.eqb_eq in El. destruct raw; [|by unfold len in El].
    split; [done|]. by intros [?|[?|[? _]]]. }
  assert (raw <> []) as Hne by (intros ->; done).
  destruct (Contains raw crawl_marker) eqn:E1; [by split; auto|].
  destruct (Contains raw tagging_marker) eqn:E2; [by split; auto|].
  cbn [orb]. destruct (unmarshal_object Unmarshal raw) as [m|].
  - rewrite find_iff_finds. split.
    + intros H. right. right. split; [done|]. by exists m.
    + intros [?|[?|(_ & m' & [= <-] & H)]]; done.
  - split; [done|]. by intros [?|[?|(_ & m' & ? & _)]].
Qed.

(** C5, as it is stated: with the seven keys the design document
    names, a record whose field [textContent] holds 200 bytes of text is
    not signalled, and the test holds for it. *)
Lemma hasExtractedContent_reads_textContent :
  hasExtractedContent Samples.text_content_decoder Samples.text_content_raw = true
  /\ ~ extraction_signalled Samples.text_content_decoder named_content_keys
        Samples.text_content_raw.
Proof.
  split; [by vm_compute|].
  intros [H|[H|(_ & m & Hm & H)]]; [by vm_compute in H..|].
  assert (m = [(str "textContent", JString Samples.page_text)]) as ->.
  { vm_compute in Hm. by injection Hm as <-. }
  inversion H as [|d fields k s Hd Hin Hex Hkey Hs|d fields k v Hd Hin Hex Hv|]; subst.
  - apply list_elem_of_singleton in Hin. injection Hin as -> ->.
    vm_compute in Hkey. by repeat (apply elem_of_cons in Hkey as [?|Hkey]; [done|]);
      apply elem_of_nil in Hkey.
  - apply list_elem_of_singleton in Hin. injection Hin as -> ->.
    inversion Hv as [d x Hd' Hx| | |]; subst. by vm_compute in Hx.
Qed.

End ReadinessFacts.

(* ================================================================== *)
(** * Properties of the media-group collector                          *)
(* ================================================================== *)

Module CollectorFacts.
Import GoString GoStringFacts Tgbotapi Collector.

Lemma NewMediaGroupCollector_Delay delay onFlush :
  0 < Delay (NewMediaGroupCollector delay onFlush).
Proof.
  unfold NewMediaGroupCollector. simpl.
  destruct (delay <=? 0) eqn:E; [done|]. apply Z.leb_gt in E. lia.
Qed.

Lemma Collect_idle t d cs m :
  MediaGroupID m <> [] ->
  Collect (idle t d cs) (Some m) = accumulating t d (MediaGroupID m) (t + d) [m] cs.
Proof.
  intros Hg. unfold Collect, idle, accumulating. simpl.
  rewrite (proj2 (is_empty_false _)) by done.
  rewrite lookup_empty. simpl. unfold with_groups. simpl.
  by rewrite insert_empty.
Qed.

Lemma Collect_accumulating t d due ms cs m :
  MediaGroupID m <> [] ->
  Collect (accumulating t d (MediaGroupID m) due ms cs) (Some m)
  = accumulating t d (MediaGroupID m) (t + d) (ms ++ [m]) cs.
Proof.
  intros Hg. unfold Collect, accumulating. simpl.
  rewrite (proj2 (is_empty_false _)) by done.
  rewrite lookup_singleton_eq. simpl. unfold with_groups. simpl.
  by rewrite insert_singleton_eq.
Qed.

Lemma advance_idle t d cs t' :
  advance t' (idle t d cs) = idle (Z.max t t') d cs.
Proof.
  unfold advance, due_timers, idle. simpl. by rewrite map_to_list_empty.
Qed.

(** Before the timer is due nothing happens. *)
Lemma advance_early t d gid due ms cs t' :
  t' < due ->
  advance t' (accumulating t d gid due ms cs)
  = accumulating (Z.max t t') d gid due ms cs.
Proof.
  intros Hlt. unfold advance, due_timers, accumulating. simpl.
  rewrite map_to_list_singleton. simpl. unfold is_due. simpl.
  rewrite (proj2 (Z.leb_gt due t')) by done. done.
Qed.

(** Once it is due the group is flushed, at the instant it was due. *)
Lemma advance_late t d gid due ms cs t' :
  t <= due -> due <= t' -> ms <> [] ->
  advance t' (accumulating t d gid due ms cs)
  = idle t' d (cs ++ [{| at_ := due; groupID := gid; batch := ms |}]).
Proof.
  intros Ht Hle Hms. unfold advance, due_timers, accumulating. simpl.
  rewrite map_to_list_singleton. simpl. unfold is_due. simpl.
  rewrite (proj2 (Z.leb_le due t')) by done. simpl.
  unfold fire, flush. simpl. rewrite lookup_singleton_eq. simpl.
  destruct ms as [|m ms]; [done|]. simpl.
  unfold idle, with_groups, due_at. simpl. rewrite delete_singleton_eq.
  f_equal. lia.
Qed.

(** A message of the group that arrives while the group accumulates
    joins it and sets the timer anew. *)
Lemma step_accumulating t d ms cs t' m :
  MediaGroupID m <> [] -> t <= t' < t + d ->
  step (accumulating t d (MediaGroupID m) (t + d) ms cs) (t', m)
  = accumulating t' d (MediaGroupID m) (t' + d) (ms ++ [m]) cs.
Proof.
  intros Hg Ht. unfold step. cbn [fst snd]. rewrite advance_early by lia.
  rewrite Z.max_r by lia. by apply Collect_accumulating.
Qed.

Lemma foldl_step_accumulating gid d cs rest : forall t ms,
  gid <> [] ->
  Forall (fun a : arrival => MediaGroupID a.2 = gid) rest ->
  paced d t rest.*1 ->
  foldl step (accumulating t d gid (t + d) ms cs) rest
  = accumulating (default t (last rest.*1)) d gid
                 (default t (last rest.*1) + d) (ms ++ rest.*2) cs.
Proof.
  induction rest as [|[t' m] rest IH]; intros t ms Hg Hall Hp.
  { simpl. by rewrite app_nil_r. }
  apply Forall_cons in Hall as [Hm Hall]. simpl in Hm, Hp. destruct Hp as [Ht Hp].
  subst gid. cbn [foldl]. rewrite step_accumulating by done.
  rewrite IH by done. rewrite <- app_assoc. rewrite !fmap_cons. cbn [fst snd].
  destruct (rest.*1) as [|t'' ts] eqn:E; [done|].
  rewrite !last_cons. cbn [app]. by destruct (last ts).
Qed.

(** C3, for a burst.  When the calls of [Collect] for one group
    identifier come each less than the debounce duration after the one
    before, then up to the instant that lies the full duration after the
    last of them no call of the flush callback has been made and the
    group is in the live map, holding its timer and every unit in
    arrival order; from that instant on exactly one call has been made,
    at that instant, with every unit in arrival order, and the group is
    no longer in the live map. *)
Theorem burst_is_flushed_once delay gid t1 m1 (rest : list arrival) horizon :
  let d := Delay (NewMediaGroupCollector delay true) in
  let arrivals := (t1, m1) :: rest in
  let t_last := default t1 (last rest.*1) in
  let w := run delay arrivals horizon in
  gid <> [] ->
  Forall (fun a : arrival => MediaGroupID a.2 = gid) arrivals ->
  0 <= t1 -> paced d t1 rest.*1 ->
  (horizon < t_last + d ->
     calls w = []
     /\ groups (collector w)
        = {[ gid := {| timer := Some (t_last + d); msgs := arrivals.*2 |} ]})
  /\ (t_last + d <= horizon ->
      calls w = [{| at_ := t_last + d; groupID := gid; batch := arrivals.*2 |}]
      /\ groups (collector w) = ∅).
Proof.
  intros d arrivals t_last w Hg Hall Ht1 Hp.
  assert (t1 <= t_last) as Hlast.
  { subst t_last. clear -Hp. revert t1 Hp.
    induction (rest.*1) as [|t ts IH]; intros t1 Hp; simpl in *; [done|].
    destruct Hp as [Ht Hp]. rewrite last_cons.
    specialize (IH t Hp). destruct (last ts); simpl in *; lia. }
  assert (foldl step (idle 0 d []) arrivals
          = accumulating t_last d gid (t_last + d) arrivals.*2 []) as Hfold.
  { subst arrivals. apply Forall_cons in Hall as [Hm Hall]. simpl in Hm.
    cbn [foldl]. unfold step at 2. cbn [fst snd].
    rewrite advance_idle, Z.max_r by done.
    rewrite Collect_idle by (by rewrite Hm). rewrite Hm.
    by rewrite foldl_step_accumulating. }
  subst w. unfold run.
  change {| now := 0; collector := NewMediaGroupCollector delay true; calls := [] |}
    with (idle 0 d []).
  rewrite Hfold. pose proof (NewMediaGroupCollector_Delay delay true) as Hd.
  fold d in Hd. split; intros Hh.
  - by rewrite advance_early.
  - rewrite advance_late; [done|lia|done|by subst arrivals].
Qed.

(** ** Any sequence of calls for one group *)

Lemma step_after_flush t d ms cs t' m :
  0 < d -> ms <> [] -> MediaGroupID m <> [] -> t + d <= t' ->
  step (accumulating t d (MediaGroupID m) (t + d) ms cs) (t', m)
  = accumulating t' d (MediaGroupID m) (t' + d) [m]
      (cs ++ [{| at_ := t + d; groupID := MediaGroupID m; batch := ms |}]).
Proof.
  intros Hd Hms Hg Ht. unfold step. cbn [fst snd].
  rewrite advance_late by (done || lia). by apply Collect_idle.
Qed.

Lemma foldl_step_gather gid d cs rest : forall closed cur t,
  0 < d -> gid <> [] -> cur <> [] -> last cur.*1 = Some t ->
  Forall (fun a : arrival => MediaGroupID a.2 = gid) rest ->
  ascending t rest.*1 ->
  foldl step
        (accumulating t d gid (t + d) cur.*2 (cs ++ (flush_of d gid <$> closed)))
        rest
  = accumulating (last_instant (gather d closed cur t rest).2) d gid
                 (last_instant (gather d closed cur t rest).2 + d)
                 (gather d closed cur t rest).2.*2
                 (cs ++ (flush_of d gid <$> (gather d closed cur t rest).1)).
Proof.
  induction rest as [|[t' m] rest IH]; intros closed cur t Hd Hg Hcur Hlast Hall Hasc.
  { simpl. unfold last_instant. by rewrite Hlast. }
  apply Forall_cons in Hall as [Hm Hall]. simpl in Hm, Hasc. destruct Hasc as [Ht Hasc].
  subst gid. cbn [foldl gather fst snd].
  destruct (t' <? t + d) eqn:E.
  - apply Z.ltb_lt in E. rewrite step_accumulating by (done || lia).
    replace (cur.*2 ++ [m]) with ((cur ++ [(t', m)]).*2) by (by rewrite fmap_app).
    apply IH; try done.
    + by destruct cur.
    + rewrite fmap_app. apply last_snoc.
  - apply Z.ltb_ge in E. rewrite step_after_flush; [|done|by destruct cur|done|done].
    rewrite <- app_assoc.
    replace ((flush_of d (MediaGroupID m) <$> closed)
             ++ [{| at_ := t + d; groupID := MediaGroupID m; batch := cur.*2 |}])
      with (flush_of d (MediaGroupID m) <$> (closed ++ [cur])).
    2:{ rewrite fmap_app. simpl. unfold flush_of, last_instant. by rewrite Hlast. }
    by apply (IH _ [(t', m)]).
Qed.

(** However the calls for one group are spaced, the callback is called
    once for every burst: for each closed burst the full duration after
    its last unit, and for the open one as soon as the clock is the full
    duration past its last unit; every call carries the units of its
    burst in arrival order. *)
Lemma every_burst_is_flushed_once delay gid t1 m1 (rest : list arrival) horizon :
  let d := Delay (NewMediaGroupCollector delay true) in
  let bursts := gather d [] [(t1, m1)] t1 rest in
  let w := run delay ((t1, m1) :: rest) horizon in
  gid <> [] ->
  Forall (fun a : arrival => MediaGroupID a.2 = gid) ((t1, m1) :: rest) ->
  0 <= t1 -> ascending t1 rest.*1 ->
  calls w
  = (flush_of d gid <$> bursts.1)
    ++ (if last_instant bursts.2 + d <=? horizon then [flush_of d gid bursts.2]
        else []).
Proof.
  intros d bursts w Hg Hall Ht1 Hasc.
  pose proof (NewMediaGroupCollector_Delay delay true) as Hd. fold d in Hd.
  apply Forall_cons in Hall as [Hm Hall]. simpl in Hm.
  assert (foldl step (idle 0 d []) ((t1, m1) :: rest)
          = accumulating (last_instant bursts.2) d gid (last_instant bursts.2 + d)
                         bursts.2.*2 (flush_of d gid <$> bursts.1)) as Hfold.
  { cbn [foldl]. unfold step at 2. cbn [fst snd].
    rewrite advance_idle, Z.max_r by done.
    rewrite Collect_idle by (by rewrite Hm). rewrite Hm.
    by apply (foldl_step_gather gid d [] rest [] [(t1, m1)] t1). }
  subst w. unfold run.
  change {| now := 0; collector := NewMediaGroupCollector delay true; calls := [] |}
    with (idle 0 d []).
  rewrite Hfold. destruct (last_instant bursts.2 + d <=? horizon) eqn:E.
  - apply Z.leb_le in E. rewrite advance_late; [done|lia|done|].
    assert (forall rest closed cur t, cur <> [] -> (gather d closed cur t rest).2 <> [])
      as Hne.
    { clear. induction rest as [|a rest IH]; intros closed cur t Hcur; [done|].
      simpl. destruct (a.1 <? t + d); apply IH; [by destruct cur|done]. }
    intros Hnil. apply fmap_nil_inv in Hnil. by apply (Hne rest [] [(t1, m1)] t1).
  - apply Z.leb_gt in E. rewrite advance_early by done. simpl. by rewrite app_nil_r.
Qed.

End CollectorFacts.

(* ================================================================== *)
(** * Properties of the polling waiters                                *)
(* ================================================================== *)

Module PollingFacts.
Import GoString GoStringFacts Karakeep App.

Section Loop.
Variable ready : Bookmark -> bool.
Variable env : Env.
Variables start interval timeout longest : Z.
Hypothesis interval_pos : 0 < interval.
Hypothesis timeout_pos : 0 < timeout.
Hypothesis took_bounds : forall i, 0 <= took (remote env i) <= longest.

Let deadline := start + timeout.

Lemma at_head_start : at_head start interval timeout 0 start (NewTicker start interval).
Proof. unfold at_head, NewTicker. simpl. lia. Qed.

Lemma let_pass_late now tk :
  period tk = interval -> next_tick tk <= now ->
  let tk' := let_pass now tk in
  buffered tk' = true /\ period tk' = interval
  /\ now < next_tick tk' <= now + interval
  /\ next_tick tk + interval <= next_tick tk'.
Proof.
  intros Hp Hle. unfold let_pass. rewrite (proj2 (Z.leb_le _ _)) by done. simpl.
  rewrite Hp. split; [done|]. split; [done|].
  pose proof (Z.div_mod (now - next_tick tk) interval ltac:(lia)) as Hdm.
  pose proof (Z.mod_pos_bound (now - next_tick tk) interval interval_pos) as Hm.
  pose proof (Z.div_pos (now - next_tick tk) interval ltac:(lia) interval_pos) as Hq.
  nia.
Qed.

Lemma let_pass_early now tk :
  now < next_tick tk -> let_pass now tk = tk.
Proof. intros Hlt. unfold let_pass. by rewrite (proj2 (Z.leb_gt _ _)). Qed.

Lemma found_none i :
  not_ready_at ready env i ->
  match got (remote env i) with
  | Some b => if ready b then Some b else None
  | None => None
  end = None.
Proof.
  intros Hn. destruct (got (remote env i)) as [b|] eqn:E; [|done].
  by rewrite (Hn b).
Qed.

(** What [select] can do. *)
Lemma select_spec i now tk :
  match select env i now tk with
  | Cancelled t =>
      exists c, cancel_at env = Some c /\ t = Z.max now c
                /\ (buffered tk = true -> c <= now)
                /\ (buffered tk = false -> t <= Z.max now (next_tick tk))
  | Ticked t tk' =>
      (buffered tk = true /\ t = now /\ tk' = take_tick tk)
      \/ (buffered tk = false /\ t = next_tick tk
          /\ tk' = {| next_tick := next_tick tk + period tk;
                      period := period tk; buffered := false |}
          /\ forall c, cancel_at env = Some c -> next_tick tk <= c)
  end.
Proof.
  unfold select, cancelled_by, await_tick.
  destruct (buffered tk) eqn:Eb.
  - destruct (cancel_at env) as [c|] eqn:Ec; simpl; [|by left].
    destruct (c <=? now) eqn:E; simpl; [|by left].
    apply Z.leb_le in E. destruct (pick_tick env i); simpl; [by left|].
    exists c. split; [done|]. split; [lia|]. split; [done|done].
  - destruct (cancel_at env) as [c|] eqn:Ec; simpl.
    2:{ right. repeat split; done. }
    destruct (c <=? now) eqn:E.
    { apply Z.leb_le in E. exists c. split; [done|]. split; [lia|]. split; [done|lia]. }
    apply Z.leb_gt in E. destruct (c <? next_tick tk) eqn:E'.
    { apply Z.ltb_lt in E'. exists c. split; [done|]. split; [lia|]. split; [done|lia]. }
    apply Z.ltb_ge in E'. destruct (c =? next_tick tk) eqn:E''; simpl.
    + apply Z.eqb_eq in E''. destruct (pick_tick env i); simpl.
      * right. repeat split; try done. intros c' [= <-]. lia.
      * exists c. split; [done|]. split; [lia|]. split; [done|lia].
    + right. repeat split; try done. intros c' [= <-]. lia.
Qed.

(** A read that passes the test ends the loop at once, with what was
    read. *)
Lemma loop_ready_now fuel i now tk b :
  got (remote env i) = Some b -> ready b = true ->
  poll_loop ready env deadline (S fuel) i now tk
  = Some (Some b, now + took (remote env i)).
Proof. intros Hg Hr. simpl. by rewrite Hg, Hr. Qed.

(** What the loop returns as ready was read, passed the test, and no
    read before it did. *)
Lemma loop_success fuel : forall i now tk b t,
  poll_loop ready env deadline fuel i now tk = Some (Some b, t) ->
  exists k, (i <= k)%nat /\ got (remote env k) = Some b /\ ready b = true
            /\ forall j, (i <= j < k)%nat -> not_ready_at ready env j.
Proof.
  induction fuel as [|fuel IH]; intros i now tk b t; [done|]. simpl.
  destruct (got (remote env i)) as [b'|] eqn:Eg.
  - destruct (ready b') eqn:Er.
    + intros [= <- <-]. exists i. repeat split; try done. intros j Hj. lia.
    + destruct (_ >? deadline); [done|].
      destruct (select env i _ _) as [t' tk'|t']; [|done].
      intros (k & Hk & Hgot & Hready & Hbefore)%IH.
      exists k. split; [lia|]. split; [done|]. split; [done|].
      intros j Hj. destruct (decide (j = i)) as [->|Hne].
      * intros b0. rewrite Eg. by intros [= <-].
      * apply Hbefore. lia.
  - destruct (_ >? deadline); [done|].
    destruct (select env i _ _) as [t' tk'|t']; [|done].
    intros (k & Hk & Hgot & Hready & Hbefore)%IH.
    exists k. split; [lia|]. split; [done|]. split; [done|].
    intros j Hj. destruct (decide (j = i)) as [->|Hne].
    + intros b0. by rewrite Eg.
    + apply Hbefore. lia.
Qed.

(** When no read passes the test the loop gives up: it returns within
    the turns that the settings allow, not ready, no later than the
    deadline plus one interval plus the longest read, and after the
    deadline unless it was cancelled. *)
Lemma loop_gives_up fuel : forall i now tk,
  (forall j, not_ready_at ready env j) ->
  at_head start interval timeout i now tk ->
  (Z.of_nat i + Z.of_nat fuel - 1) * interval > timeout ->
  exists t, poll_loop ready env deadline fuel i now tk = Some (None, t)
            /\ t <= deadline + interval + longest
            /\ (cancel_at env = None -> deadline < t).
Proof.
  induction fuel as [|fuel IH]; intros i now tk Hnever Hhead Hfuel.
  { exfalso. destruct Hhead as (_ & _ & Hnext & Hnow & Hticks).
    unfold deadline in *. nia. }
  destruct Hhead as (Hperiod & Hbuf & Hnext & Hnow & Hticks).
  pose proof (took_bounds i) as Htook.
  cbn [poll_loop]. rewrite found_none by done.
  set (now' := now + took (remote env i)).
  destruct (now' >? deadline) eqn:Elate.
  { rewrite Z.gtb_ltb in Elate. apply Z.ltb_lt in Elate.
    exists now'. split; [done|]. subst now'. unfold deadline in *. split; [lia|done]. }
  rewrite Z.gtb_ltb in Elate. apply Z.ltb_ge in Elate.
  pose proof (select_spec i now' (let_pass now' tk)) as Hsel.
  destruct (select env i now' (let_pass now' tk)) as [t tk'|t].
  - (* a tick is taken: next turn *)
    apply IH; [done| |lia].
    destruct (decide (next_tick tk <= now')) as [Hpassed|Hpassed].
    + destruct (let_pass_late now' tk Hperiod Hpassed) as (Hb & Hp & Hn & Hadv).
      destruct Hsel as [(_ & -> & ->)|(Hb' & _)]; [|congruence].
      unfold at_head, take_tick. simpl. unfold deadline in *.
      repeat split; try done; lia.
    + rewrite let_pass_early in Hsel by lia.
      destruct Hsel as [(Hb' & _)|(_ & -> & -> & _)]; [congruence|].
      unfold at_head. simpl. unfold deadline in *. subst now'.
      repeat split; try done; lia.
  - (* cancelled *)
    destruct Hsel as (c & Hc & -> & Hdone & Hbound).
    eexists. split; [done|]. split; [|by rewrite Hc].
    destruct (decide (next_tick tk <= now')) as [Hpassed|Hpassed].
    + destruct (let_pass_late now' tk Hperiod Hpassed) as (Hb & _).
      specialize (Hdone Hb). unfold deadline in *. lia.
    + rewrite let_pass_early in Hbound by lia. specialize (Hbound Hbuf).
      unfold deadline in *. subst now'. lia.
Qed.

(** When every read is shorter than the interval, a loop whose context
    is cancelled returns no later than the read that was under way at
    the cancellation. *)
Lemma loop_cancelled fuel c : forall i now tk res t,
  longest < interval -> cancel_at env = Some c ->
  period tk = interval -> buffered tk = false ->
  next_tick tk = now + interval -> now <= Z.max c start ->
  poll_loop ready env deadline fuel i now tk = Some (res, t) ->
  t <= Z.max c start + longest.
Proof.
  induction fuel as [|fuel IH]; intros i now tk res t Hshort Hc Hperiod Hbuf Hnext Hnow;
    [done|].
  pose proof (took_bounds i) as Htook. cbn [poll_loop].
  set (now' := now + took (remote env i)).
  rewrite let_pass_early by (subst now'; lia).
  destruct (match got (remote env i) with
            | Some b => if ready b then Some b else None
            | None => None
            end) as [b|].
  { intros [= <- <-]. subst now'. lia. }
  destruct (now' >? deadline).
  { intros [= <- <-]. subst now'. lia. }
  pose proof (select_spec i now' tk) as Hsel.
  destruct (select env i now' tk) as [t' tk'|t'].
  - destruct Hsel as [(Hb & _)|(_ & -> & -> & Hafter)]; [congruence|].
    specialize (Hafter c Hc). apply IH; try done; simpl; lia.
  - destruct Hsel as (c' & Hc' & -> & _). rewrite Hc in Hc'. injection Hc' as <-.
    intros [= <- <-]. subst now'. lia.
Qed.

End Loop.

(** ** The two waiters *)

Section Waiters.
Variable Unmarshal : gostring -> option json.
Variable env : Env.
Variables start interval timeout longest : Z.
Hypothesis took_bounds : forall i, 0 <= took (remote env i) <= longest.

Let every := or_default interval (3 * Collector.Second).
Let within := or_default timeout (3 * Minute).

Lemma or_default_pos d dflt : 0 < dflt -> 0 < or_default d dflt.
Proof. intros H. unfold or_default. destruct (d <=? 0) eqn:E; [done|]. apply Z.leb_gt in E. lia. Qed.

Lemma enough_fuel_enough fuel :
  (enough_fuel interval timeout <= fuel)%nat ->
  (Z.of_nat 0 + Z.of_nat fuel - 1) * every > within.
Proof.
  unfold enough_fuel. fold every within. intros Hfuel.
  assert (0 < every) by (by apply or_default_pos).
  assert (0 < within) by (by apply or_default_pos).
  pose proof (Z.div_pos within every ltac:(lia) ltac:(lia)).
  pose proof (Z.div_mod within every ltac:(lia)).
  pose proof (Z.mod_pos_bound within every ltac:(lia)).
  assert (within / every + 2 <= Z.of_nat fuel) by lia. nia.
Qed.

Lemma waiter_gives_up (ready : Bookmark -> bool) fuel :
  (enough_fuel interval timeout <= fuel)%nat ->
  (forall i, not_ready_at ready env i) ->
  exists t,
    poll_loop ready env (start + within) fuel 0 start
              (NewTicker start every) = Some (None, t)
    /\ t <= start + within + every + longest
    /\ (cancel_at env = None -> start + within < t)
    /\ (forall c, cancel_at env = Some c -> longest < every ->
                  t <= Z.max c start + longest).
Proof.
  intros Hfuel Hnever.
  assert (0 < every) as Hevery by (by apply or_default_pos).
  assert (0 < within) as Hwithin by (by apply or_default_pos).
  destruct (loop_gives_up ready env start every within longest Hevery Hwithin
              took_bounds fuel 0%nat start (NewTicker start every))
    as (t & Ht & Hle & Hgt);
    [done|by apply at_head_start|by apply enough_fuel_enough|].
  exists t. split; [done|]. split; [done|]. split; [done|].
  intros c Hc Hshort.
  eapply (loop_cancelled ready env start every within longest took_bounds
            _ c _ _ (NewTicker start every)); [done|done|done|done|done| |exact Ht].
  lia.
Qed.

(** C4, with the time the reads take.  Let every remote read of a
    waiter take at most [longest].  If no read passes the readiness
    test, the waiter returns, not ready, no later than timeout plus one
    interval plus [longest] after its call; when its context is never
    cancelled it returns later than the timeout; when the context is
    cancelled and the reads are shorter than the interval it returns no
    later than [longest] after the cancellation.  A waiter that returns
    ready returns the bookmark read last, the first that passed the
    test; a first read that passes it ends the waiter at once.  An
    interval or timeout that is not positive stands for 3 seconds and 3
    minutes.  The results hold for every number of turns from
    [enough_fuel] on. *)
Theorem waiters_return_in_time :
  (interval <= 0 -> every = 3 * Collector.Second)
  /\ (timeout <= 0 -> within = 3 * Minute)
  /\ ((forall i, not_ready_at (extraction_ready Unmarshal) env i) ->
      forall fuel, (enough_fuel interval timeout <= fuel)%nat ->
      exists t,
        waitForExtractedContent Unmarshal env start interval timeout fuel
        = Some (false, t)
        /\ t <= start + within + every + longest
        /\ (cancel_at env = None -> start + within < t)
        /\ (forall c, cancel_at env = Some c -> longest < every ->
                      t <= Z.max c start + longest))
  /\ ((forall i, not_ready_at (summary_ready Unmarshal) env i) ->
      forall fuel, (enough_fuel interval timeout <= fuel)%nat ->
      exists t,
        waitForNonEmptySummary Unmarshal env start interval timeout fuel
        = Some (zero_Bookmark, false, t)
        /\ t <= start + within + every + longest
        /\ (cancel_at env = None -> start + within < t)
        /\ (forall c, cancel_at env = Some c -> longest < every ->
                      t <= Z.max c start + longest))
  /\ (forall n t,
        waitForExtractedContent Unmarshal env start interval timeout n
        = Some (true, t) ->
        exists k b, got (remote env k) = Some b
                    /\ extraction_ready Unmarshal b = true
                    /\ forall j, (j < k)%nat ->
                                 not_ready_at (extraction_ready Unmarshal) env j)
  /\ (forall n b t,
        waitForNonEmptySummary Unmarshal env start interval timeout n
        = Some (b, true, t) ->
        exists k, got (remote env k) = Some b
                  /\ summary_ready Unmarshal b = true
                  /\ forall j, (j < k)%nat ->
                               not_ready_at (summary_ready Unmarshal) env j)
  /\ (forall n b,
        got (remote env 0) = Some b -> summary_ready Unmarshal b = true ->
        waitForNonEmptySummary Unmarshal env start interval timeout (S n)
        = Some (b, true, start + took (remote env 0)))
  /\ (forall n b,
        got (remote env 0) = Some b -> extraction_ready Unmarshal b = true ->
        waitForExtractedContent Unmarshal env start interval timeout (S n)
        = Some (true, start + took (remote env 0))).
Proof.
  split; [|split; [|split; [|split; [|split; [|split; [|split]]]]]].
  - intros H. subst every. unfold or_default. by rewrite (proj2 (Z.leb_le _ _)).
  - intros H. subst within. unfold or_default. by rewrite (proj2 (Z.leb_le _ _)).
  - intros Hnever fuel Hfuel.
    destruct (waiter_gives_up _ fuel Hfuel Hnever) as (t & Ht & Hrest).
    exists t. split; [|done]. unfold waitForExtractedContent.
    fold every within. by rewrite Ht.
  - intros Hnever fuel Hfuel.
    destruct (waiter_gives_up _ fuel Hfuel Hnever) as (t & Ht & Hrest).
    exists t. split; [|done]. unfold waitForNonEmptySummary.
    fold every within. by rewrite Ht.
  - intros n t. unfold waitForExtractedContent.
    destruct (poll_loop _ _ _ _ _ _ _) as [[[b|] t']|] eqn:E; [|done|done].
    intros [= <-]. apply loop_success in E as (k & _ & Hg & Hr & Hb).
    exists k, b. split; [done|]. split; [done|]. intros j Hj. apply Hb. lia.
  - intros n b t. unfold waitForNonEmptySummary.
    destruct (poll_loop _ _ _ _ _ _ _) as [[[b'|] t']|] eqn:E; [|done|done].
    intros [= <- <-]. apply loop_success in E as (k & _ & Hg & Hr & Hb).
    exists k. split; [done|]. split; [done|]. intros j Hj. apply Hb. lia.
  - intros n b Hg Hr. unfold waitForNonEmptySummary.
    by rewrite (loop_ready_now _ _ _ _ _ _ _ _ b Hg Hr).
  - intros n b Hg Hr. unfold waitForExtractedContent.
    by rewrite (loop_ready_now _ _ _ _ _ _ _ _ b Hg Hr).
Qed.

End Waiters.

End PollingFacts.

(* ================================================================== *)
(** * Properties of the UTF-16 slicing                                 *)
(* ================================================================== *)

Module Utf16Facts.
Import GoString Classifier Utf16.

Lemma utf16_len_pos r : 1 <= utf16_len r <= 2.
Proof. unfold utf16_len. destruct (_ && _); lia. Qed.

Lemma units_nonneg rs : 0 <= units rs.
Proof.
  induction rs as [|r rs IH]; simpl; [done|]. pose proof (utf16_len_pos r). lia.
Qed.

Lemma first_at_le c pos rs : (first_at c pos rs <= length rs)%nat.
Proof.
  revert pos. induction rs as [|r rs IH]; intros pos; simpl; [done|].
  destruct (pos >=? c); [lia|]. specialize (IH (pos + utf16_len r)). lia.
Qed.

Lemma first_at_mono c c' pos rs :
  c <= c' -> (first_at c pos rs <= first_at c' pos rs)%nat.
Proof.
  intros Hc. revert pos. induction rs as [|r rs IH]; intros pos; simpl; [done|].
  destruct (pos >=? c) eqn:E; [lia|]. destruct (pos >=? c') eqn:E'.
  - lia.
  - specialize (IH (pos + utf16_len r)). lia.
Qed.

(** Once the start has been found, the loop only looks for the end. *)
Lemma slice_loop_found n sc ec rs : forall ri pos s0,
  s0 <> n -> ri + Z.of_nat (length rs) = n ->
  slice_loop n sc ec rs ri pos s0
  = (s0, ri + Z.of_nat (first_at ec pos rs),
     pos + units (take (first_at ec pos rs) rs)).
Proof.
  induction rs as [|r rs IH]; intros ri pos s0 Hs Hn; simpl in *.
  { f_equal; [f_equal|]; lia. }
  replace (s0 =? n) with false by (symmetry; by apply Z.eqb_neq).
  rewrite andb_false_r. destruct (pos >=? ec) eqn:E.
  - simpl. f_equal; [f_equal|]; lia.
  - rewrite IH by lia. simpl. f_equal; [f_equal|]; lia.
Qed.

(** The loop entered with no start found yet. *)
Lemma slice_loop_search n sc ec rs : forall ri pos,
  sc <= ec -> 0 <= ri -> ri + Z.of_nat (length rs) = n ->
  slice_loop n sc ec rs ri pos n
  = (ri + Z.of_nat (first_at sc pos rs), ri + Z.of_nat (first_at ec pos rs),
     pos + units (take (first_at ec pos rs) rs)).
Proof.
  induction rs as [|r rs IH]; intros ri pos Hc Hri Hn; simpl in *.
  { f_equal; [f_equal|]; lia. }
  rewrite Z.eqb_refl, andb_true_r. destruct (pos >=? sc) eqn:Es.
  - destruct (pos >=? ec) eqn:Ee.
    + simpl. f_equal; [f_equal|]; lia.
    + rewrite slice_loop_found by lia. simpl. f_equal; [f_equal|]; lia.
  - assert ((pos >=? ec) = false) as ->.
    { rewrite Z.geb_leb in *. apply Z.leb_gt in Es. apply Z.leb_gt. lia. }
    rewrite IH by lia. simpl. f_equal; [f_equal|]; lia.
Qed.

(** The code points picked by the span are those from the first one at
    or after its start up to the first one at or after its end. *)
Lemma span_runes_take_drop off length rs : forall pos,
  0 <= length ->
  span_runes off length pos rs
  = take (first_at (off + length) pos rs - first_at off pos rs)
         (drop (first_at off pos rs) rs).
Proof.
  induction rs as [|r rs IH]; intros pos Hl; simpl; [done|].
  pose proof (utf16_len_pos r) as Hr.
  destruct (pos >=? off) eqn:Es; rewrite Z.geb_leb in Es.
  - apply Z.leb_le in Es. replace (off <=? pos) with true by (symmetry; by apply Z.leb_le).
    destruct (pos >=? off + length) eqn:Ee; rewrite Z.geb_leb in Ee.
    + apply Z.leb_le in Ee.
      replace (pos <? off + length) with false by (symmetry; apply Z.ltb_ge; lia).
      simpl. rewrite IH by done.
      assert (forall p, pos <= p -> first_at (off + length) p rs = O) as H0.
      { clear -Ee. induction rs as [|x rs IH]; intros p Hp; simpl; [done|].
        replace (p >=? off + length) with true; [done|].
        symmetry. rewrite Z.geb_leb. apply Z.leb_le. lia. }
      rewrite H0 by lia. by rewrite Nat.sub_0_l.
    + apply Z.leb_gt in Ee.
      replace (pos <? off + length) with true by (symmetry; by apply Z.ltb_lt).
      simpl. rewrite IH by done.
      assert (forall p, off <= p -> first_at off p rs = O) as H0.
      { clear. induction rs as [|x rs IH]; intros p Hp; simpl; [done|].
        replace (p >=? off) with true; [done|].
        symmetry. rewrite Z.geb_leb. by apply Z.leb_le. }
      rewrite H0 by lia. simpl. by rewrite Nat.sub_0_r.
  - apply Z.leb_gt in Es. replace (off <=? pos) with false by (symmetry; by apply Z.leb_gt).
    assert ((pos >=? off + length) = false) as ->.
    { rewrite Z.geb_leb. apply Z.leb_gt. lia. }
    simpl. by rewrite IH.
Qed.

(** The position of the code point [first_at] finds. *)
Lemma first_at_reached c rs : forall pos,
  (first_at c pos rs < length rs)%nat ->
  c <= pos + units (take (first_at c pos rs) rs).
Proof.
  induction rs as [|r rs IH]; intros pos Hlt; simpl in *; [lia|].
  destruct (pos >=? c) eqn:E; rewrite Z.geb_leb in E.
  - apply Z.leb_le in E. simpl. lia.
  - simpl. specialize (IH (pos + utf16_len r)). lia.
Qed.

Lemma starts_at_first c rs : forall pos,
  starts_at c pos rs = true
  <-> (first_at c pos rs < length rs)%nat
      /\ pos + units (take (first_at c pos rs) rs) = c.
Proof.
  induction rs as [|r rs IH]; intros pos; simpl.
  { split; [done|]. intros [? _]. lia. }
  pose proof (utf16_len_pos r) as Hr.
  destruct (pos >=? c) eqn:E; rewrite Z.geb_leb in E.
  - apply Z.leb_le in E. simpl. rewrite orb_true_iff, Z.eqb_eq. split.
    + intros [->|H]; [split; lia|]. apply IH in H as [H1 H2].
      pose proof (units_nonneg (take (first_at c (pos + utf16_len r) rs) rs)). lia.
    + intros [_ H]. left. lia.
  - apply Z.leb_gt in E. replace (pos =? c) with false by (symmetry; apply Z.eqb_neq; lia).
    simpl. rewrite IH. split; intros [H1 H2]; (split; [lia|simpl; lia]).
Qed.

Lemma first_at_past c rs : forall pos,
  pos + units rs <= c -> first_at c pos rs = length rs.
Proof.
  induction rs as [|r rs IH]; intros pos H; simpl in *; [done|].
  pose proof (utf16_len_pos r) as Hr. pose proof (units_nonneg rs) as Hu.
  replace (pos >=? c) with false by (symmetry; rewrite Z.geb_leb; apply Z.leb_gt; lia).
  f_equal. apply IH. lia.
Qed.

(** [SliceByUTF16], for every text and every span.  The result is the
    code points that start in the span, except when the span is not
    empty and a code point of the text starts exactly at its end: then
    the result runs on to the end of the text. *)
Theorem SliceByUTF16_spans s off length :
  Z.max off 0 + Z.max length 0 < 2 ^ 63 ->
  SliceByUTF16 s off length
  = if (0 <? length) && starts_at (Z.max off 0 + Z.max length 0) 0 (runes s)
    then utf16_span s off (units (runes s))
    else utf16_span s off length.
Proof.
  intros Hov. unfold SliceByUTF16, utf16_span.
  set (rs := runes s). set (n := Z.of_nat (List.length rs)).
  replace (if off <? 0 then 0 else off) with (Z.max off 0) by (destruct (Z.ltb_spec off 0); lia).
  replace (if length <? 0 then 0 else length) with (Z.max length 0)
    by (destruct (Z.ltb_spec length 0); lia).
  set (sc := Z.max off 0). set (len := Z.max length 0).
  assert (0 <= sc) as Hsc by lia. assert (0 <= len) as Hlen by lia.
  replace (wrap64 (sc + len)) with (sc + len).
  2:{ unfold wrap64. rewrite Z.mod_small; lia. }
  set (ec := sc + len).
  rewrite slice_loop_search by (subst n ec; lia).
  rewrite !Z.add_0_l.
  set (si := first_at sc 0 rs). set (ei := first_at ec 0 rs).
  pose proof (first_at_le sc 0 rs) as Hsi. pose proof (first_at_le ec 0 rs) as Hei.
  pose proof (first_at_mono sc ec 0 rs ltac:(subst ec; lia)) as Hse.
  fold si in Hsi, Hse. fold ei in Hei, Hse.
  pose proof (starts_at_first ec rs 0) as Hst. fold ei in Hst. rewrite Z.add_0_l in Hst.
  pose proof (first_at_reached ec rs 0) as Hre. fold ei in Hre. rewrite Z.add_0_l in Hre.
  pose proof (units_nonneg (take ei rs)) as Hu.
  set (cur := units (take ei rs)) in *.
  replace (Z.max (units rs) 0) with (units rs) by (pose proof (units_nonneg rs); lia).
  assert (span_runes sc (units rs) 0 rs = drop si rs) as Hall.
  { rewrite span_runes_take_drop by apply units_nonneg. fold si.
    rewrite (first_at_past (sc + units rs) rs 0) by lia.
    apply take_ge. rewrite length_drop. lia. }
  assert (span_runes sc len 0 rs = take (ei - si) (drop si rs)) as Hspan.
  { rewrite span_runes_take_drop by done. done. }
  rewrite Hall, Hspan. unfold subslice.
  destruct (0 <? length) eqn:Epos; simpl.
  - apply Z.ltb_lt in Epos. assert (sc < ec) by (subst ec len; lia).
    destruct (starts_at ec 0 rs) eqn:Est.
    + f_equal. destruct Hst as [Hst _]. destruct (Hst eq_refl) as [Hlt Hcur].
      replace (sc >=? cur) with false by (symmetry; rewrite Z.geb_leb; apply Z.leb_gt; lia).
      replace (ec >=? cur) with true by (symmetry; rewrite Z.geb_leb; apply Z.leb_le; lia).
      replace (Z.of_nat si >? n) with false by (symmetry; rewrite Z.gtb_ltb; apply Z.ltb_ge; lia).
      rewrite Nat2Z.id. apply take_ge. rewrite length_drop. lia.
    + f_equal. destruct (decide (ei < List.length rs)%nat) as [Hlt|Hge].
      * specialize (Hre Hlt).
        assert (cur <> ec) as Hne.
        { intros Heq. destruct Hst as [_ Hst]. by specialize (Hst (conj Hlt Heq)). }
        replace (sc >=? cur) with false by (symmetry; rewrite Z.geb_leb; apply Z.leb_gt; lia).
        replace (ec >=? cur) with false by (symmetry; rewrite Z.geb_leb; apply Z.leb_gt; lia).
        replace (Z.of_nat si >? Z.of_nat ei) with false
          by (symmetry; rewrite Z.gtb_ltb; apply Z.ltb_ge; lia).
        rewrite Nat2Z.id. f_equal. lia.
      * assert (ei = List.length rs) as Hen by lia.
        assert (Z.of_nat ei = n) as HeZ by (subst n; lia).
        replace (if ec >=? cur then n else Z.of_nat ei) with n by (destruct (ec >=? cur); lia).
        destruct (sc >=? cur) eqn:Esc.
        -- replace (n >? n) with false by (symmetry; rewrite Z.gtb_ltb; apply Z.ltb_ge; lia).
           rewrite Z.sub_diag. simpl. rewrite Z.geb_leb in Esc. apply Z.leb_le in Esc.
           assert (si = List.length rs) as ->.
           { subst si. apply first_at_past. subst cur. rewrite Hen, firstn_all in Esc. lia. }
           by rewrite drop_all, take_nil.
        -- replace (Z.of_nat si >? n) with false
             by (symmetry; rewrite Z.gtb_ltb; apply Z.ltb_ge; lia).
           rewrite Nat2Z.id. f_equal. lia.
  - apply Z.ltb_ge in Epos. assert (len = 0) as Hl0 by (subst len; lia).
    assert (ec = sc) as Hec by (subst ec; lia).
    assert (ei = si) as Heq by (subst ei si; by rewrite Hec).
    f_equal. rewrite Heq, Nat.sub_diag, take_0.
    match goal with |- take ?k _ = [] => assert (k = O) as ->; [|done] end.
    rewrite Hec. destruct (sc >=? cur); simpl.
    + replace (n >? n) with false by (symmetry; rewrite Z.gtb_ltb; apply Z.ltb_ge; lia). lia.
    + replace (Z.of_nat si >? Z.of_nat si) with false
        by (symmetry; rewrite Z.gtb_ltb; apply Z.ltb_ge; lia). lia.
Qed.

End Utf16Facts.

(* ================================================================== *)
(** * Properties of the delivery of media groups                       *)
(* ================================================================== *)

Module DeliveryFacts.
Import GoString Tgbotapi Collector Delivery.

Lemma held_delete gs gid g :
  gs !! gid = Some g -> held gs ≡ₚ msgs g ++ held (delete gid gs).
Proof.
  intros Hg. unfold held. rewrite <- (map_to_list_delete gs gid g Hg). done.
Qed.

Lemma held_insert gs gid g :
  held (<[gid := g]> gs) ≡ₚ msgs g ++ held (delete gid gs).
Proof.
  rewrite <- insert_delete_eq. unfold held.
  rewrite map_to_list_insert by apply lookup_delete_eq. done.
Qed.

Lemma held_empty : held ∅ = [].
Proof. unfold held. by rewrite map_to_list_empty. Qed.

(** [flush] takes the group out of the map, whatever else it does. *)
Lemma flush_groups w gid :
  groups (collector (flush w gid)) = delete gid (groups (collector w)).
Proof.
  unfold flush. destruct (groups (collector w) !! gid) as [g|] eqn:E.
  - by destruct (OnFlush (collector w) && _).
  - by rewrite delete_id.
Qed.

Lemma flush_settings w gid :
  OnFlush (collector (flush w gid)) = OnFlush (collector w)
  /\ Delay (collector (flush w gid)) = Delay (collector w).
Proof.
  unfold flush. destruct (groups (collector w) !! gid) as [g|]; [|done].
  by destruct (OnFlush (collector w) && _).
Qed.

Lemma sound_flush taken w gid :
  sound taken w -> sound taken (flush w gid).
Proof.
  intros [Hcb Hgs Hcs Honce]. unfold flush.
  destruct (groups (collector w) !! gid) as [g|] eqn:E; [|done].
  destruct (Hgs gid g E) as (Hone & Hsub & Htm).
  assert ((0 <? Z.of_nat (length (msgs g))) = true) as ->.
  { destruct Hone as (_ & Hne & _). apply Z.ltb_lt. destruct (msgs g); [done|simpl; lia]. }
  rewrite Hcb. simpl. split; simpl.
  - done.
  - intros gid' g' Hl. apply lookup_delete_Some in Hl as [_ Hl]. by apply Hgs.
  - apply Forall_app. split; [done|]. apply Forall_singleton. by split.
  - unfold delivered in *. simpl. rewrite bind_app, bind_singleton. simpl.
    rewrite <- Honce. rewrite (held_delete _ _ _ E). by rewrite (assoc_L (++)).
Qed.

Lemma sound_now taken w t :
  sound taken w ->
  sound taken {| now := t; collector := collector w; calls := calls w |}.
Proof. by intros []. Qed.

Lemma sound_fire taken w kg : sound taken w -> sound taken (fire w kg).
Proof. intros H. unfold fire. by apply sound_flush, sound_now. Qed.

Lemma sound_advance taken w t : sound taken w -> sound taken (advance t w).
Proof.
  intros H. unfold advance. apply sound_now.
  generalize (due_timers t w). intros l. revert w H.
  induction l as [|kg l IH]; intros w H; simpl; [done|]. by apply IH, sound_fire.
Qed.

(** [Collect] takes up a unit that carries a group identifier. *)
Lemma sound_Collect taken w m :
  MediaGroupID m <> [] ->
  sound taken w -> sound (taken ++ [m]) (Collect w (Some m)).
Proof.
  intros Hm [Hcb Hgs Hcs Honce]. unfold Collect.
  replace (is_empty (MediaGroupID m)) with false by (by destruct (MediaGroupID m)).
  set (gid := MediaGroupID m). unfold due_after.
  set (g0 := match groups (collector w) !! gid with
             | Some g => g
             | None => {| timer := Some (now w + Delay (collector w)); msgs := [] |}
             end).
  assert (is_Some (timer g0)) as [due0 Hdue0].
  { subst g0. destruct (groups (collector w) !! gid) as [g|] eqn:E; [|by eexists].
    by destruct (Hgs gid g E) as (_ & _ & ?). }
  cbn [timer msgs]. rewrite Hdue0. cbn [msgs].
  assert (msgs g0 `sublist_of` taken
          /\ Forall (fun x => MediaGroupID x = gid) (msgs g0)
          /\ held (groups (collector w))
             ≡ₚ msgs g0 ++ held (delete gid (groups (collector w)))) as (Hs0 & Ha0 & Hh0).
  { subst g0. destruct (groups (collector w) !! gid) as [g|] eqn:E.
    - destruct (Hgs gid g E) as ((_ & _ & ?) & ? & _). split_and!; [done|done|].
      by apply held_delete.
    - simpl. split_and!; [apply sublist_nil_l|done|]. by rewrite delete_id. }
  split; simpl.
  - done.
  - intros gid' g' Hl. apply lookup_insert_Some in Hl as [[<- <-]|[Hne Hl]]; simpl.
    + split_and!.
      * split_and!; [done|by destruct (msgs g0)|].
        apply Forall_app. split; [done|]. by apply Forall_singleton.
      * by apply sublist_app.
      * by eexists.
    + destruct (Hgs gid' g' Hl) as (? & ? & ?). split_and!; [done| |done].
      by apply sublist_inserts_r.
  - eapply Forall_impl; [exact Hcs|]. intros c [? ?]. split; [done|].
    by apply sublist_inserts_r.
  - rewrite held_insert. simpl. rewrite <- Honce, Hh0.
    change (delivered _) with (delivered w) at 1.
    rewrite <- !(assoc_L (++)). do 2 f_equiv. apply Permutation_app_comm.
Qed.

(** [Collect] leaves a unit without group identifier aside. *)
Lemma Collect_ungrouped w m : MediaGroupID m = [] -> Collect w (Some m) = w.
Proof. intros Hm. unfold Collect. by rewrite Hm. Qed.

Lemma sound_steps (arrivals : list arrival) : forall taken w,
  sound taken w -> sound (taken ++ grouped arrivals) (foldl step w arrivals).
Proof.
  induction arrivals as [|[t m] arrivals IH]; intros taken w H; simpl.
  { unfold grouped. simpl. by rewrite app_nil_r. }
  unfold grouped. rewrite fmap_cons. cbn [snd]. rewrite filter_cons.
  destruct (decide (MediaGroupID m <> [])) as [Hm|Hm].
  - replace (taken ++ m :: filter _ arrivals.*2)
      with ((taken ++ [m]) ++ grouped arrivals) by (by rewrite <- app_assoc).
    apply IH. unfold step. cbn [fst snd]. by apply sound_Collect, sound_advance.
  - apply dec_stable in Hm. apply IH. unfold step. cbn [fst snd].
    rewrite Collect_ungrouped by done. by apply sound_advance.
Qed.

(** ** The timers *)

Lemma fire_groups w kg :
  groups (collector (fire w kg)) = delete kg.1 (groups (collector w)).
Proof. unfold fire. by rewrite flush_groups. Qed.

Lemma fire_settings w kg :
  OnFlush (collector (fire w kg)) = OnFlush (collector w)
  /\ Delay (collector (fire w kg)) = Delay (collector w).
Proof. unfold fire. by rewrite !(proj1 (flush_settings _ _)), !(proj2 (flush_settings _ _)). Qed.

Lemma fire_now w kg :
  now (fire w kg) = due_at kg.
Proof.
  unfold fire, flush. simpl. destruct (groups (collector w) !! kg.1); [|done].
  by destruct (OnFlush (collector w) && _).
Qed.

Lemma foldl_fire_groups l : forall w gid,
  groups (collector (foldl fire w l)) !! gid
  = if decide (gid ∈ l.*1) then None else groups (collector w) !! gid.
Proof.
  induction l as [|kg l IH]; intros w gid; simpl.
  { done. }
  rewrite IH, fire_groups. change (list_fmap _ _ fst l) with (l.*1). destruct (decide (gid ∈ l.*1)) as [H|H].
  - rewrite decide_True; [done|]. by apply elem_of_cons; right.
  - destruct (decide (gid = kg.1)) as [->|Hne].
    + rewrite lookup_delete_eq. rewrite decide_True; [done|]. by apply elem_of_cons; left.
    + rewrite lookup_delete_ne by done. rewrite decide_False; [done|].
      intros [?|?]%elem_of_cons; done.
Qed.

Lemma foldl_fire_settings l : forall w,
  Delay (collector (foldl fire w l)) = Delay (collector w).
Proof.
  induction l as [|kg l IH]; intros w; simpl; [done|].
  by rewrite IH, (proj2 (fire_settings _ _)).
Qed.

Lemma foldl_fire_now l t : forall w,
  now w <= t -> Forall (fun kg => is_due t kg = true) l ->
  now (foldl fire w l) <= t.
Proof.
  induction l as [|kg l IH]; intros w Hw Hl; simpl; [done|].
  apply Forall_cons in Hl as [Hkg Hl]. apply IH; [|done].
  rewrite fire_now. unfold is_due, due_at in *. destruct (timer kg.2); [|done].
  by apply Z.leb_le.
Qed.

Lemma elem_of_due_timers t w kg :
  kg ∈ due_timers t w
  <-> groups (collector w) !! kg.1 = Some kg.2 /\ is_due t kg = true.
Proof.
  unfold due_timers. rewrite merge_sort_Permutation.
  rewrite list_elem_of_In, filter_In, <- list_elem_of_In.
  destruct kg as [k g]. by rewrite elem_of_map_to_list.
Qed.

(** After [advance t] the live groups are those whose timer is due
    after [t]. *)
Lemma advance_groups t w gid :
  groups (collector (advance t w)) !! gid
  = match groups (collector w) !! gid with
    | Some g => if is_due t (gid, g) then None else Some g
    | None => None
    end.
Proof.
  unfold advance. simpl. rewrite foldl_fire_groups.
  destruct (groups (collector w) !! gid) as [g|] eqn:E.
  - destruct (is_due t (gid, g)) eqn:Ed.
    + rewrite decide_True; [done|]. apply list_elem_of_fmap. exists (gid, g).
      split; [done|]. by apply elem_of_due_timers.
    + rewrite decide_False; [done|]. intros ([k g'] & Hk & Hin)%list_elem_of_fmap.
      simpl in Hk. subst k. apply elem_of_due_timers in Hin as [Hl Hd]. simpl in Hl.
      congruence.
  - by destruct (decide (gid ∈ (due_timers t w).*1)).
Qed.

Lemma timely_advance limit t w :
  t <= limit -> timely limit w -> timely limit (advance t w).
Proof.
  intros Ht [Hnow Hdue]. unfold timely. split.
  - unfold advance. simpl.
    assert (Forall (fun kg => is_due t kg = true) (due_timers t w)) as Hall.
    { apply Forall_forall. intros kg Hin. by apply elem_of_due_timers in Hin as [_ ?]. }
    destruct (Z.le_ge_cases (now w) t) as [Hle|Hge].
    + pose proof (foldl_fire_now (due_timers t w) t w Hle Hall). lia.
    + pose proof (foldl_fire_now (due_timers t w) (now w) w ltac:(lia)) as Hf.
      assert (Forall (fun kg => is_due (now w) kg = true) (due_timers t w)) as Hall'.
      { eapply Forall_impl; [exact Hall|]. intros kg. unfold is_due.
        destruct (timer kg.2); [|done]. rewrite !Z.leb_le. lia. }
      specialize (Hf Hall'). lia.
  - intros gid g due Hl Htm. rewrite advance_groups in Hl.
    destruct (groups (collector w) !! gid) as [g'|] eqn:E; [|done].
    destruct (is_due t (gid, g')); [done|]. injection Hl as ->.
    unfold advance. simpl. rewrite foldl_fire_settings. by eapply Hdue.
Qed.

Lemma timely_Collect limit w m :
  timely limit w -> timely limit (Collect w (Some m)).
Proof.
  intros [Hnow Hdue]. unfold Collect. destruct (is_empty (MediaGroupID m)); [done|].
  split; simpl; [done|]. intros gid g due Hl Htm.
  apply lookup_insert_Some in Hl as [[<- <-]|[Hne Hl]]; [|by eapply Hdue].
  unfold due_after in *.
  destruct (groups (collector w) !! MediaGroupID m) as [g|] eqn:E; simpl in *.
  - destruct (timer g) as [d0|] eqn:Eg; simpl in Htm.
    + injection Htm as <-. lia.
    + done.
  - injection Htm as <-. lia.
Qed.

Lemma timely_steps limit (arrivals : list arrival) : forall w,
  Forall (fun a : arrival => a.1 <= limit) arrivals ->
  timely limit w -> timely limit (foldl step w arrivals).
Proof.
  induction arrivals as [|[t m] arrivals IH]; intros w Hall H; simpl; [done|].
  apply Forall_cons in Hall as [Ht Hall]. apply IH; [done|].
  unfold step. by apply timely_Collect, timely_advance.
Qed.

Lemma foldl_step_settings (arrivals : list arrival) : forall w,
  Delay (collector (foldl step w arrivals)) = Delay (collector w).
Proof.
  induction arrivals as [|[t m] arrivals IH]; intros w; simpl; [done|].
  rewrite IH. unfold step, Collect. cbn [fst snd].
  destruct (is_empty (MediaGroupID m)); simpl;
    unfold advance; simpl; by rewrite foldl_fire_settings.
Qed.

(** Whatever groups the units belong to and however they are spaced:
    once the clock is the delay past the last arrival no group is left
    in the live map, every unit that carries a group identifier has
    been handed to the callback exactly once, and every call carried
    units of the one group it was made for, in arrival order, and at
    least one.  A unit without group identifier is not taken up. *)
Theorem every_unit_is_handed_over_once delay (arrivals : list arrival) horizon :
  let d := Delay (NewMediaGroupCollector delay true) in
  let w := run delay arrivals horizon in
  Forall (fun a : arrival => 0 <= a.1 /\ a.1 + d <= horizon) arrivals ->
  groups (collector w) = ∅
  /\ delivered w ≡ₚ grouped arrivals
  /\ Forall (fun c => of_one_group (groupID c) (batch c)
                      /\ batch c `sublist_of` grouped arrivals) (calls w).
Proof.
  intros d w Hall.
  set (w0 := {| now := 0; collector := NewMediaGroupCollector delay true; calls := [] |}).
  set (w1 := foldl step w0 arrivals).
  assert (sound [] w0) as H0.
  { split; simpl; [done| |done|].
    - intros gid g Hl. by apply lookup_empty_Some in Hl.
    - unfold delivered. simpl. by rewrite held_empty. }
  pose proof (sound_steps arrivals [] w0 H0) as H1. rewrite app_nil_l in H1. fold w1 in H1.
  assert (Delay (collector w1) = d) as Hd by apply foldl_step_settings.
  assert (groups (collector w) = ∅) as Hempty.
  { apply map_empty. intros gid. subst w. unfold run. fold w0 w1. rewrite advance_groups.
    destruct (groups (collector w1) !! gid) as [g|] eqn:E; [|done].
    assert (0 <= horizon - d) as Hpos.
    { destruct Hall as [|a l [? ?] _].
      - subst w1. simpl in E. by apply lookup_empty_Some in E.
      - pose proof (CollectorFacts.NewMediaGroupCollector_Delay delay true) as Hp.
        fold d in Hp. lia. }
    assert (timely (horizon - d) w1) as [_ Hdue].
    { apply timely_steps.
      - eapply Forall_impl; [exact Hall|]. simpl. intros a [_ ?]. lia.
      - split; simpl; [done|]. intros ??? Hl. by apply lookup_empty_Some in Hl. }
    destruct (sound_groups _ _ H1 gid g E) as (_ & _ & [due Htm]).
    specialize (Hdue gid g due E Htm). rewrite Hd in Hdue.
    unfold is_due. simpl. rewrite Htm.
    replace (due <=? horizon) with true; [done|]. symmetry. apply Z.leb_le. lia. }
  pose proof (sound_advance _ w1 horizon H1) as H2.
  change (advance horizon w1) with w in H2.
  destruct H2 as [_ _ Hcs Honce]. rewrite Hempty, held_empty, app_nil_r in Honce.
  done.
Qed.

End DeliveryFacts.

(* ================================================================== *)
(** * Properties of the guard of the server address                    *)
(* ================================================================== *)

Module SecurityFacts.
Import GoString Net Security.

Lemma byte_val_range c : 0 <= byte_val c < 256.
Proof.
  unfold byte_val. pose proof (N_ascii_bounded c) as H. lia.
Qed.

Lemma mask_high4 c :
  (Z.land (byte_val c) 240 =? 224) = (224 <=? byte_val c) && (byte_val c <=? 239).
Proof. destruct c as [[] [] [] [] [] [] [] []]; by vm_compute. Qed.

Lemma mask_high7 c :
  (Z.land (byte_val c) 254 =? 252) = (252 <=? byte_val c) && (byte_val c <=? 253).
Proof. destruct c as [[] [] [] [] [] [] [] []]; by vm_compute. Qed.

Lemma mask_high2 c :
  (Z.land (byte_val c) 192 =? 128) = (128 <=? byte_val c) && (byte_val c <=? 191).
Proof. destruct c as [[] [] [] [] [] [] [] []]; by vm_compute. Qed.

Lemma To4_IPv4 a b c d : To4 (IPv4 a b c d) = Some [a; b; c; d].
Proof. reflexivity. Qed.

Lemma To16_v4 a b c d : To16 [a; b; c; d] = Some (IPv4 a b c d).
Proof. reflexivity. Qed.

Lemma To16_IPv4 a b c d : To16 (IPv4 a b c d) = Some (IPv4 a b c d).
Proof. reflexivity. Qed.

Lemma IPv4_unspecified a b c d :
  IsUnspecified (IPv4 a b c d)
  = bool_decide ([a; b; c; d] = [octet 0; octet 0; octet 0; octet 0]).
Proof.
  unfold IsUnspecified, Equal. cbn [length IPv4 v4InV6Prefix repeat app Nat.eqb IPv4zero
                                    IPv6unspecified].
  rewrite (bool_decide_ext _ ([a; b; c; d] = [octet 0; octet 0; octet 0; octet 0])).
  2:{ unfold IPv4, v4InV6Prefix. simpl. split; intros H; by simplify_eq. }
  rewrite (bool_decide_eq_false_2 (_ :: _ = _ :: _ :: _ :: _ :: _ :: _));
    [by rewrite orb_false_r|].
  intros H. by simplify_eq.
Qed.

(** The IPv4 addresses the guard refuses, in either of their forms:
    0.0.0.0, 10/8, 127/8, 169.254/16, 172.16/12, 192.168/16 and
    224/4, and no other one. *)
Theorem isDisallowedIP_v4 (a b c d : ascii) :
  (isDisallowedIP [a; b; c; d] = true
   <-> [a; b; c; d] = [octet 0; octet 0; octet 0; octet 0]
       \/ byte_val a = 10
       \/ byte_val a = 127
       \/ (byte_val a = 169 /\ byte_val b = 254)
       \/ (byte_val a = 172 /\ 16 <= byte_val b <= 31)
       \/ (byte_val a = 192 /\ byte_val b = 168)
       \/ 224 <= byte_val a <= 239)
  /\ isDisallowedIP (IPv4 a b c d) = isDisallowedIP [a; b; c; d].
Proof.
  split; [|unfold isDisallowedIP; by rewrite To16_v4, To16_IPv4].
  unfold isDisallowedIP. rewrite To16_v4.
  unfold IsLoopback, IsLinkLocalUnicast, IsLinkLocalMulticast, IsMulticast, isPrivate.
  rewrite To4_IPv4, IPv4_unspecified.
  change (at_ [a; b; c; d] 0) with (byte_val a).
  change (at_ [a; b; c; d] 1) with (byte_val b).
  change (at_ [a; b; c; d] 2) with (byte_val c).
  rewrite mask_high4.
  pose proof (byte_val_range a) as Ha. pose proof (byte_val_range b) as Hb.
  set (A := byte_val a) in *. set (B := byte_val b) in *. set (C := byte_val c) in *.
  repeat match goal with
         | |- context [if ?x then true else ?y] => change (if x then true else y) with (x || y)
         end.
  rewrite !Z.geb_leb.
  rewrite !orb_true_iff, !andb_true_iff, !Z.eqb_eq, !Z.leb_le, bool_decide_eq_true.
  split.
  - intros [[[[[?|?]|?]|?]|?]|?]; [lia..|by left|lia].
  - intros [?|?]; [by left; right|lia].
Qed.

(** The other addresses.  One that has neither 4 nor 16 bytes is
    refused.  Of the 16-byte addresses that do not embed an IPv4
    address, the guard refuses ::1, ::, ff00::/8, fe80::/10 and
    fc00::/7, and no other one. *)
Theorem isDisallowedIP_v6 (ip : IP) :
  (length ip <> 4%nat -> length ip <> 16%nat -> isDisallowedIP ip = true)
  /\ (length ip = 16%nat -> To4 ip = None ->
      (isDisallowedIP ip = true
       <-> ip = IPv6loopback
           \/ ip = IPv6unspecified
           \/ at_ ip 0 = 255
           \/ (at_ ip 0 = 254 /\ 128 <= at_ ip 1 <= 191)
           \/ 252 <= at_ ip 0 <= 253)).
Proof.
  split.
  - intros H4 H16. unfold isDisallowedIP, To16.
    apply Nat.eqb_neq in H4, H16. by rewrite H4, H16.
  - intros Hlen Hv4. unfold isDisallowedIP, To16. rewrite Hlen. simpl.
    unfold IsLoopback, IsLinkLocalUnicast, IsLinkLocalMulticast, IsMulticast, isPrivate,
      IsUnspecified.
    rewrite Hv4. unfold Equal. rewrite Hlen. simpl.
    assert (bool_decide (ip = IPv4zero) = false) as ->.
    { apply bool_decide_eq_false. intros ->. done. }
    unfold at_. rewrite mask_high7, mask_high2.
    repeat match goal with
           | |- context [if ?x then true else ?y] =>
               change (if x then true else y) with (x || y)
           end.
    rewrite !orb_true_iff, !andb_true_iff, !Z.eqb_eq, !Z.leb_le, !bool_decide_eq_true.
    intuition (try discriminate; auto; lia).
Qed.

Section Validate.
Variable Parse : gostring -> option URL.
Variable Hostname : URL -> gostring.
Variable LookupIP : gostring -> option (list IP).
Variable URLString : URL -> gostring.
Variable IPString : IP -> gostring.
Variable Quote : gostring -> gostring.

Lemma find_none_Forall {A} (f : A -> bool) (l : list A) :
  List.find f l = None <-> Forall (fun x => f x = false) l.
Proof.
  induction l as [|x l IH]; simpl; [by split|].
  destruct (f x) eqn:E.
  - split; [done|]. intros [H _]%Forall_cons. congruence.
  - rewrite IH. split; [by constructor|]. by intros [_ ?]%Forall_cons.
Qed.

(** A base URL is accepted exactly when, once trimmed, it parses to a
    URL with the scheme [https] and a host, whose host name is not a
    name of the local host, and none of the addresses the name resolves
    to is refused; a name that does not resolve is accepted.  What is
    returned is made of the scheme and the host alone. *)
Theorem ValidateServerBaseURL_accepts raw norm :
  ValidateServerBaseURL Parse Hostname LookupIP URLString IPString Quote raw = inl norm
  <-> exists u,
        TrimSpace raw <> [] /\ Parse (TrimSpace raw) = Some u
        /\ Scheme u = str "https" /\ Host u <> []
        /\ Hostname u <> [] /\ isLocalHostname (Hostname u) = false
        /\ (forall ips, LookupIP (Hostname u) = Some ips ->
                        Forall (fun ip => isDisallowedIP ip = false) ips)
        /\ norm = URLString {| Scheme := str "https"; Host := Host u |}.
Proof.
  unfold ValidateServerBaseURL. set (r := TrimSpace raw).
  destruct (is_empty r) eqn:Er.
  { apply GoStringFacts.is_empty_true in Er. split; [done|]. by intros (u & ? & _). }
  apply GoStringFacts.is_empty_false in Er.
  destruct (Parse r) as [u|] eqn:Ep.
  2:{ split; [done|]. by intros (u & _ & ? & _). }
  destruct (is_empty (Scheme u)) eqn:Es; cbn [orb negb].
  { apply GoStringFacts.is_empty_true in Es. split; [done|].
    intros (u' & _ & ? & Hs & _). simplify_eq. by rewrite Es in Hs. }
  destruct (is_empty (Host u)) eqn:Eh; cbn [orb negb].
  { apply GoStringFacts.is_empty_true in Eh. split; [done|].
    intros (u' & _ & ? & _ & Hh & _). by simplify_eq. }
  apply GoStringFacts.is_empty_false in Eh.
  destruct (eqb (Scheme u) (str "https")) eqn:Eq; cbn [orb negb].
  2:{ apply GoStringFacts.eqb_false in Eq. split; [done|].
      intros (u' & _ & ? & Hs & _). by simplify_eq. }
  apply GoStringFacts.eqb_true in Eq.
  destruct (is_empty (Hostname u)) eqn:En.
  { apply GoStringFacts.is_empty_true in En. split; [done|].
    intros (u' & _ & ? & _ & _ & Hn & _). by simplify_eq. }
  apply GoStringFacts.is_empty_false in En.
  destruct (isLocalHostname (Hostname u)) eqn:El.
  { split; [done|]. intros (u' & _ & ? & _ & _ & _ & Hl & _). simplify_eq. congruence. }
  destruct (LookupIP (Hostname u)) as [ips|] eqn:Eips.
  - destruct (List.find isDisallowedIP ips) as [ip|] eqn:Ef.
    + split; [done|]. intros (u' & _ & ? & _ & _ & _ & _ & Hall & _). simplify_eq.
      specialize (Hall ips Eips). apply find_none_Forall in Hall. congruence.
    + rewrite Eq. split.
      * intros H. simplify_eq. exists u. split_and!; try done.
        intros ips' ?. simplify_eq. by apply find_none_Forall.
      * intros (u' & _ & ? & _ & _ & _ & _ & _ & ->). by simplify_eq.
  - rewrite Eq. split.
    + intros H. simplify_eq. exists u. split_and!; try done. intros ips ?. congruence.
    + intros (u' & _ & ? & _ & _ & _ & _ & _ & ->). by simplify_eq.
Qed.

End Validate.

End SecurityFacts.

(* ================================================================== *)
(** * Properties of the store                                          *)
(* ================================================================== *)

Module StorageFacts.
Import GoString GoStringFacts Storage.

Lemma is_blank_space1 c : is_blank c = true -> is_space1 c = true.
Proof.
  unfold is_blank. rewrite !orb_true_iff, !bool_decide_eq_true.
  intros [[[->| ->]| ->]| ->]; reflexivity.
Qed.

(** What [stringsTrim] takes off and what it leaves. *)
Lemma stringsTrim_split s :
  exists p q,
    s = p ++ stringsTrim s ++ q
    /\ Forall (fun c => is_blank c = true) p
    /\ Forall (fun c => is_blank c = true) q
    /\ (forall c, head (stringsTrim s) = Some c -> is_blank c = false)
    /\ (forall c, last (stringsTrim s) = Some c -> is_blank c = false).
Proof.
  unfold stringsTrim.
  destruct (ClassifierFacts.drop_while_split is_blank s) as (p & Hp & Hpb & Hhead).
  set (rest := Classifier.drop_while is_blank s) in *.
  destruct (ClassifierFacts.drop_while_split is_blank (rev rest)) as (q & Hq & Hqb & Hlast).
  set (core := Classifier.drop_while is_blank (rev rest)) in *.
  assert (rest = rev core ++ rev q) as Hrest.
  { rewrite <- rev_app_distr, <- Hq. by rewrite rev_involutive. }
  exists p, (rev q). split_and!.
  - by rewrite <- Hrest.
  - done.
  - apply Forall_forall. intros c Hc.
    apply list_elem_of_In, in_rev, list_elem_of_In in Hc.
    by eapply Forall_forall in Hqb.
  - intros c Hc. apply Hhead. rewrite Hrest.
    destruct (rev core) as [|x l]; [done|]. simpl in *. done.
  - intros c Hc. apply Hlast. by rewrite <- ClassifierFacts.last_rev.
Qed.

Lemma drop_while_fixed {A} (f : A -> bool) x :
  (forall c, head x = Some c -> f c = false) -> Classifier.drop_while f x = x.
Proof. destruct x as [|c x]; simpl; [done|]. intros H. by rewrite (H c). Qed.

Lemma stringsTrim_fixed s :
  (forall c, head s = Some c -> is_blank c = false) ->
  (forall c, last s = Some c -> is_blank c = false) ->
  stringsTrim s = s.
Proof.
  intros Hh Hl. unfold stringsTrim. rewrite (drop_while_fixed _ s Hh).
  rewrite drop_while_fixed; [apply rev_involutive|].
  intros c Hc. apply Hl. rewrite <- (rev_involutive s).
  by rewrite ClassifierFacts.last_rev.
Qed.

Lemma is_blank_chars c :
  is_blank c = true <-> c ∈ [" "%char; "010"%char; "013"%char; "009"%char].
Proof.
  unfold is_blank. rewrite !orb_true_iff, !bool_decide_eq_true, !elem_of_cons.
  split; [intros [[[?|?]|?]|?]; auto|].
  intros [?|[?|[?|[?|H]]]]; auto. by apply elem_of_nil in H.
Qed.

(** [stringsTrim] takes off the spaces, line feeds, carriage returns
    and tabs that open and that close the text, all of them and
    nothing else; a second pass changes nothing. *)
Theorem stringsTrim_cuts_blanks s :
  let blanks := [" "%char; "010"%char; "013"%char; "009"%char] in
  (exists p q,
     s = p ++ stringsTrim s ++ q
     /\ Forall (fun c => c ∈ blanks) p /\ Forall (fun c => c ∈ blanks) q)
  /\ (forall c, head (stringsTrim s) = Some c -> c ∉ blanks)
  /\ (forall c, last (stringsTrim s) = Some c -> c ∉ blanks)
  /\ stringsTrim (stringsTrim s) = stringsTrim s.
Proof.
  intros blanks. destruct (stringsTrim_split s) as (p & q & Hs & Hp & Hq & Hh & Hl).
  split_and!.
  - exists p, q. split_and!; [done|..];
      (eapply Forall_impl; [eassumption|]; intros c; apply is_blank_chars).
  - intros c Hc Hin. apply is_blank_chars in Hin. specialize (Hh c Hc). congruence.
  - intros c Hc Hin. apply is_blank_chars in Hin. specialize (Hl c Hc). congruence.
  - by apply stringsTrim_fixed.
Qed.

(** ** [stringsTrim] and [strings.TrimSpace] *)

Lemma trim_left_blanks p s :
  Forall (fun c => is_blank c = true) p -> trim_left (p ++ s) = trim_left s.
Proof.
  induction 1 as [|c p Hc _ IH]; [done|].
  simpl. by rewrite (is_blank_space1 c Hc).
Qed.

Lemma trim_left_rev_blanks p s :
  Forall (fun c => is_blank c = true) p -> trim_left_rev (p ++ s) = trim_left_rev s.
Proof.
  induction 1 as [|c p Hc _ IH]; [done|].
  simpl. by rewrite (is_blank_space1 c Hc).
Qed.

Lemma trim_right_blanks s q :
  Forall (fun c => is_blank c = true) q -> trim_right (s ++ q) = trim_right s.
Proof.
  intros Hq. unfold trim_right. rewrite rev_app_distr, trim_left_rev_blanks; [done|].
  apply Forall_forall. intros c Hc. apply list_elem_of_In, in_rev, list_elem_of_In in Hc.
  by eapply Forall_forall in Hq.
Qed.

Lemma is_blank_not_second c1 c :
  is_blank c = true -> is_space2 c1 c = false.
Proof.
  intros Hc. unfold is_blank in Hc. rewrite !orb_true_iff, !bool_decide_eq_true in Hc.
  unfold is_space2. destruct Hc as [[[->| ->]| ->]| ->]; by rewrite andb_false_r.
Qed.

Lemma is_blank_not_third_2 c1 c c3 :
  is_blank c = true -> is_space3 c1 c c3 = false.
Proof.
  intros Hc. unfold is_blank in Hc. rewrite !orb_true_iff, !bool_decide_eq_true in Hc.
  unfold is_space3.
  destruct Hc as [[[->| ->]| ->]| ->]; cbn -[Z.eqb Z.leb byte_val];
    change (byte_val " ") with 32; change (byte_val "010") with 10;
    change (byte_val "013") with 13; change (byte_val "009") with 9;
    cbn; by rewrite ?andb_false_r.
Qed.

Lemma is_blank_not_third_3 c1 c2 c :
  is_blank c = true -> is_space3 c1 c2 c = false.
Proof.
  intros Hc. unfold is_blank in Hc. rewrite !orb_true_iff, !bool_decide_eq_true in Hc.
  unfold is_space3.
  destruct Hc as [[[->| ->]| ->]| ->];
    change (byte_val " ") with 32; change (byte_val "010") with 10;
    change (byte_val "013") with 13; change (byte_val "009") with 9;
    cbn; by rewrite ?andb_false_r.
Qed.

(** Blanks that follow a text do not change what is taken off its
    start. *)
Lemma trim_left_before_blanks q : Forall (fun c => is_blank c = true) q ->
  forall s, trim_left (s ++ q) = match trim_left s with [] => [] | r => r ++ q end.
Proof.
  intros Hq s. induction s as [s IH] using length_ind.
  destruct s as [|c1 t1].
  { simpl. rewrite <- (app_nil_r q), trim_left_blanks by done. done. }
  cbn [app trim_left]. destruct (is_space1 c1) eqn:E1.
  { apply IH. simpl. lia. }
  destruct t1 as [|c2 t2].
  { destruct q as [|b q']; [done|]. apply Forall_cons in Hq as [Hb Hq].
    cbn [app]. rewrite is_blank_not_second by done.
    destruct q' as [|b2 q'']; [done|]. by rewrite is_blank_not_third_2. }
  cbn [app]. destruct (is_space2 c1 c2) eqn:E2.
  { apply IH. simpl. lia. }
  destruct t2 as [|c3 t3].
  { destruct q as [|b q']; [done|]. apply Forall_cons in Hq as [Hb Hq].
    cbn [app]. by rewrite is_blank_not_third_3. }
  cbn [app]. destruct (is_space3 c1 c2 c3) eqn:E3; [|done].
  apply IH. simpl. lia.
Qed.

Lemma TrimSpace_between_blanks p s q :
  Forall (fun c => is_blank c = true) p -> Forall (fun c => is_blank c = true) q ->
  TrimSpace (p ++ s ++ q) = TrimSpace s.
Proof.
  intros Hp Hq. unfold TrimSpace. rewrite trim_left_blanks by done.
  rewrite trim_left_before_blanks by done.
  destruct (trim_left s) as [|c r] eqn:E; [done|]. by rewrite trim_right_blanks.
Qed.

Lemma TrimSpace_fixed_ends s :
  TrimSpace s = s ->
  (forall c, head s = Some c -> is_space1 c = false)
  /\ (forall c, last s = Some c -> is_space1 c = false).
Proof.
  intros Hs. split; intros c Hc.
  - assert (starts_with_space s = false) as Hst.
    { rewrite <- Hs. unfold TrimSpace.
      destruct (trim_right_prefix (trim_left s)) as [w Hw].
      apply (starts_with_space_prefix _ w). rewrite <- Hw.
      apply (scan_not_starts trim_left starts_with_space); auto using trim_left_step. }
    destruct s as [|c' s']; [done|]. simpl in Hc. simplify_eq.
    simpl in Hst. by apply orb_false_iff in Hst as [? _].
  - assert (ends_with_space (rev s) = false) as Hen.
    { rewrite <- Hs. unfold TrimSpace, trim_right. rewrite rev_involutive.
      apply (scan_not_starts trim_left_rev ends_with_space); auto using trim_left_rev_step. }
    rewrite <- (rev_involutive s), ClassifierFacts.last_rev in Hc.
    destruct (rev s) as [|c' s']; [done|]. simpl in Hc. simplify_eq.
    simpl in Hen. by apply orb_false_iff in Hen as [? _].
Qed.

Lemma stringsTrim_of_trimmed s : TrimSpace s = s -> stringsTrim s = s.
Proof.
  intros Hfix. destruct (TrimSpace_fixed_ends s Hfix) as [Hh Hl].
  apply stringsTrim_fixed; intros c Hc.
  - specialize (Hh c Hc). destruct (is_blank c) eqn:E; [|done].
    apply is_blank_space1 in E. congruence.
  - specialize (Hl c Hc). destruct (is_blank c) eqn:E; [|done].
    apply is_blank_space1 in E. congruence.
Qed.

Lemma stringsTrim_blank s : stringsTrim s = [] -> TrimSpace s = [].
Proof.
  intros E. destruct (stringsTrim_split s) as (p & q & Hs & Hp & Hq & _).
  rewrite Hs, TrimSpace_between_blanks by done. by rewrite E.
Qed.

(** The two notions of a blank text.  [strings.TrimSpace] takes off
    whatever [stringsTrim] takes off: a text [stringsTrim] empties is
    emptied by [strings.TrimSpace], and one that [strings.TrimSpace]
    leaves as it is is left as it is by [stringsTrim]. *)
Theorem stringsTrim_within_TrimSpace s :
  TrimSpace (stringsTrim s) = TrimSpace s
  /\ (stringsTrim s = [] -> TrimSpace s = [])
  /\ (TrimSpace s = s -> stringsTrim s = s).
Proof.
  destruct (stringsTrim_split s) as (p & q & Hs & Hp & Hq & _).
  assert (TrimSpace (stringsTrim s) = TrimSpace s) as Heq.
  { rewrite Hs at 2. by rewrite TrimSpace_between_blanks. }
  split_and!; [done| |].
  - intros H0. by rewrite <- Heq, H0.
  - apply stringsTrim_of_trimmed.
Qed.

(** ** The table of users *)

Section Table.
Variable ParseTime : gostring -> option Z.
Variable Seal : gostring -> gostring -> gostring.
Variable Open_ : gostring -> gostring -> gostring + gostring.
Variable EncodeToString : gostring -> gostring.
Variable DecodeString : gostring -> gostring + gostring.

Lemma update_users db id f :
  fault db = None ->
  update db id f = (with_users db (alter f id (users db)), None).
Proof. intros Hf. unfold update. by rewrite Hf. Qed.

(** [UpsertUser] on a database that answers.  The user has a row
    afterwards; the server, the key and the last success of a user who
    had a row are what they were, those of a new user are not set; no
    other row changes. *)
Theorem UpsertUser_keeps_settings db id now :
  fault db = None ->
  let db' := (UpsertUser db id now).1 in
  (UpsertUser db id now).2 = None
  /\ (exists u,
        GetUser ParseTime db' id = (u, None)
        /\ TelegramUserID u = id
        /\ match users db !! id with
           | Some r =>
               ServerBaseURL u = server_base_url r
               /\ APIKeyCiphertextB64 u = api_key_ciphertext_b64 r
               /\ APIKeyNonceB64 u = api_key_nonce_b64 r
               /\ LastSuccessID u = last_success_id r
           | None =>
               ServerBaseURL u = [] /\ LastSuccessID u = None
               /\ DecryptAPIKey Open_ DecodeString u = ([], false, None)
           end)
  /\ (forall other, other <> id -> users db' !! other = users db !! other).
Proof.
  intros Hf db'. subst db'. unfold UpsertUser. rewrite Hf. simpl. split_and!; [done| |].
  - unfold GetUser. simpl. rewrite Hf, lookup_insert_eq. eexists. split; [done|].
    split; [done|]. by destruct (users db !! id).
  - intros other Hne. by rewrite lookup_insert_ne.
Qed.

(** [SetServerBaseURL] on a database that answers.  A blank address is
    refused and nothing is written.  Any other address is written as it
    is given for a user who has a row, whose key stays; for a user
    without a row the call succeeds and writes nothing.  No other row
    changes. *)
Theorem SetServerBaseURL_writes_one_row db id url now :
  fault db = None ->
  let r := SetServerBaseURL db id url now in
  (stringsTrim url = [] -> r = (db, Some (str "server base url is empty")))
  /\ (stringsTrim url <> [] ->
      r.2 = None
      /\ (forall other, other <> id -> users r.1 !! other = users db !! other)
      /\ match users db !! id with
         | Some row =>
             exists u,
               GetUser ParseTime r.1 id = (u, None)
               /\ ServerBaseURL u = url
               /\ APIKeyCiphertextB64 u = api_key_ciphertext_b64 row
               /\ APIKeyNonceB64 u = api_key_nonce_b64 row
         | None =>
             users r.1 = users db
             /\ GetUser ParseTime r.1 id = (zero_User, Some ErrNoRows)
         end).
Proof.
  intros Hf r. subst r. unfold SetServerBaseURL. split.
  - intros ->. done.
  - intros Hne. apply is_empty_false in Hne. rewrite Hne, update_users by done.
    simpl. split_and!; [done| |].
    + intros other Ho. by rewrite lookup_alter_ne.
    + unfold GetUser. simpl. rewrite Hf, lookup_alter_eq.
      destruct (users db !! id) as [row|] eqn:E; simpl.
      * eexists. by split_and!.
      * split; [|done]. apply map_eq. intros k. destruct (decide (k = id)) as [->|Hk].
        -- by rewrite lookup_alter_eq, E.
        -- by rewrite lookup_alter_ne.
Qed.

Section Cipher.
Hypothesis opens : forall nonce pt, Open_ nonce (Seal nonce pt) = inl pt.
Hypothesis decodes : forall x, DecodeString (EncodeToString x) = inl x.
Hypothesis encodes : forall x, x <> [] -> stringsTrim (EncodeToString x) <> [].
Hypothesis seals : forall nonce pt, Seal nonce pt <> [].

(** The key set for a user who has a row is the key read back from
    the row, and the row keeps its server. *)
Lemma SetAPIKey_is_read_back db id apiKey nonce now row :
  fault db = None -> users db !! id = Some row ->
  stringsTrim apiKey <> [] -> nonce <> [] ->
  let r := SetAPIKey Seal EncodeToString db id apiKey (inl nonce) now in
  r.2 = None
  /\ exists u,
       GetUser ParseTime r.1 id = (u, None)
       /\ DecryptAPIKey Open_ DecodeString u = (apiKey, true, None)
       /\ ServerBaseURL u = server_base_url row.
Proof using opens decodes encodes seals.
  intros Hf Hrow Hkey Hnonce r. subst r. unfold SetAPIKey.
  apply is_empty_false in Hkey. rewrite Hkey, update_users by done. simpl.
  split; [done|]. unfold GetUser. simpl. rewrite Hf, lookup_alter_eq, Hrow. simpl.
  eexists. split; [done|]. split; [|done]. unfold DecryptAPIKey. simpl.
  pose proof (encodes _ (seals nonce apiKey)) as H1. apply is_empty_false in H1.
  pose proof (encodes _ Hnonce) as H2. apply is_empty_false in H2.
  by rewrite H1, H2, !decodes, opens.
Qed.

End Cipher.

End Table.

End StorageFacts.

(* ================================================================== *)
(** * Properties of the configuration                                  *)
(* ================================================================== *)

Module ConfigFacts.
Import GoString GoStringFacts Config.

Lemma envString_trimmed env key def :
  TrimSpace def = def -> TrimSpace (envString env key def) = envString env key def.
Proof.
  intros Ht. unfold envString. destruct (is_empty _); [done|apply TrimSpace_idem].
Qed.

Lemma envString_set env key def : def <> [] -> envString env key def <> [].
Proof.
  intros Hd. unfold envString. destruct (is_empty _) eqn:E; [done|].
  by apply is_empty_false in E.
Qed.

(** What a configuration returned by [FromEnv] holds. *)
Lemma FromEnv_fields env cfg :
  FromEnv env = inl cfg ->
  TelegramBotToken cfg = TrimSpace (Getenv env (str "TELEGRAM_BOT_TOKEN"))
  /\ TelegramBotToken cfg <> []
  /\ ListenAddr cfg <> [] /\ TelegramWebhookPath cfg <> [] /\ DBPath cfg <> []
  /\ Forall (fun s => TrimSpace s = s)
       [ListenAddr cfg; TelegramBotToken cfg; TelegramWebhookPath cfg;
        TelegramWebhookSecret cfg; DBPath cfg; APIKeyMasterKey cfg].
Proof.
  unfold FromEnv.
  destruct (is_empty (TrimSpace (Getenv env (str "TELEGRAM_BOT_TOKEN")))) eqn:E; [done|].
  apply is_empty_false in E. intros [= <-].
  cbn [TelegramBotToken ListenAddr TelegramWebhookPath TelegramWebhookSecret DBPath
       APIKeyMasterKey].
  split_and!; [done|done|by apply envString_set..|].
  repeat (apply Forall_cons; split);
    try (by apply envString_trimmed); try apply TrimSpace_idem. done.
Qed.

(** [FromEnv] fails exactly when the bot token is missing or blank,
    whatever the other variables hold.  In the configuration it
    returns the token, the listen address, the webhook path and the
    database path are not empty, and every text is trimmed. *)
Theorem FromEnv_needs_the_token_only env :
  (TrimSpace (Getenv env (str "TELEGRAM_BOT_TOKEN")) = []
   -> FromEnv env = inr (str "TELEGRAM_BOT_TOKEN is required"))
  /\ (TrimSpace (Getenv env (str "TELEGRAM_BOT_TOKEN")) <> []
      -> exists cfg,
           FromEnv env = inl cfg
           /\ TelegramBotToken cfg = TrimSpace (Getenv env (str "TELEGRAM_BOT_TOKEN"))
           /\ ListenAddr cfg <> [] /\ TelegramWebhookPath cfg <> []
           /\ DBPath cfg <> []
           /\ Forall (fun s => TrimSpace s = s)
                [ListenAddr cfg; TelegramBotToken cfg; TelegramWebhookPath cfg;
                 TelegramWebhookSecret cfg; DBPath cfg; APIKeyMasterKey cfg]).
Proof.
  split.
  - unfold FromEnv. by intros ->.
  - intros Hne. destruct (FromEnv env) as [cfg|e] eqn:E.
    + exists cfg. destruct (FromEnv_fields env cfg E) as (H1 & _ & H2 & H3 & H4 & H5).
      by split_and!.
    + unfold FromEnv in E. apply is_empty_false in Hne. by rewrite Hne in E.
Qed.

Section Validate.
Variable Quote : gostring -> gostring.

(** What a configuration accepted by [Validate] holds. *)
Lemma Validate_None cfg :
  Validate Quote cfg = None
  <-> TelegramBotToken cfg <> []
      /\ HasPrefix (TelegramWebhookPath cfg) (str "/") = true
      /\ TrimSpace (APIKeyMasterKey cfg) <> [].
Proof.
  unfold Validate. destruct (is_empty (TelegramBotToken cfg)) eqn:E1.
  { apply is_empty_true in E1. split; [done|]. by intros [? _]. }
  apply is_empty_false in E1.
  destruct (HasPrefix (TelegramWebhookPath cfg) (str "/")); cbn [negb].
  2:{ split; [done|]. by intros (_ & ? & _). }
  destruct (is_empty (TrimSpace (APIKeyMasterKey cfg))) eqn:E3.
  - apply is_empty_true in E3. split; [done|]. by intros (_ & _ & ?).
  - apply is_empty_false in E3. by split.
Qed.

(** Of the three checks of [Validate], the first can never fail on a
    configuration [FromEnv] has returned: such a configuration is
    accepted exactly when the webhook path starts with a slash and the
    master key is set. *)
Theorem Validate_after_FromEnv env cfg :
  FromEnv env = inl cfg ->
  (Validate Quote cfg = None
   <-> HasPrefix (TelegramWebhookPath cfg) (str "/") = true
       /\ APIKeyMasterKey cfg <> []).
Proof.
  intros Hcfg. destruct (FromEnv_fields env cfg Hcfg) as (_ & Htok & _ & _ & _ & Hall).
  assert (TrimSpace (APIKeyMasterKey cfg) = APIKeyMasterKey cfg) as Hk.
  { by do 5 apply Forall_cons in Hall as [_ Hall]; apply Forall_cons in Hall as [? _]. }
  rewrite Validate_None, Hk. by intuition.
Qed.

Section Startup.
Variable Dir : gostring -> gostring.
Variable MkdirAll : gostring -> option gostring.
Variable sqlOpen : gostring -> Storage.DB + gostring.
Variable B64DecodeString : gostring -> gostring + gostring.
Variable Sum256 : gostring -> gostring.
Variable NewAEAD : Crypto.Key -> option gostring.

(** The start of the program.  With a configuration that [FromEnv]
    has returned and [Validate] has accepted, [storage.Open] passes its
    own checks of the path and of the master key and derives a key:
    when the directory can be made, the driver opens a database that
    answers and the cipher can be built, the store is opened. *)
Theorem Open_after_Validate env cfg db :
  FromEnv env = inl cfg -> Validate Quote cfg = None ->
  MkdirAll (Dir (DBPath cfg)) = None -> sqlOpen (DBPath cfg) = inl db ->
  Storage.fault db = None -> (forall k, NewAEAD k = None) ->
  exists k,
    Crypto.DeriveKeyFromSecret B64DecodeString Sum256 (APIKeyMasterKey cfg) = inl k
    /\ Storage.Open Dir MkdirAll sqlOpen B64DecodeString Sum256 NewAEAD
                    (DBPath cfg) (APIKeyMasterKey cfg) = inl (db, k).
Proof.
  intros Hcfg Hval Hmk Hsql Hfault Haead.
  destruct (FromEnv_fields env cfg Hcfg) as (_ & _ & _ & _ & Hdb & Hall).
  apply Validate_None in Hval as (_ & _ & Hkey).
  assert (TrimSpace (DBPath cfg) = DBPath cfg
          /\ TrimSpace (APIKeyMasterKey cfg) = APIKeyMasterKey cfg) as [Hd Hk].
  { do 4 apply Forall_cons in Hall as [_ Hall]. apply Forall_cons in Hall as [? Hall].
    by apply Forall_cons in Hall as [? _]. }
  rewrite Hk in Hkey.
  assert (Storage.stringsTrim (DBPath cfg) = DBPath cfg) as Hd'
    by (by apply StorageFacts.stringsTrim_of_trimmed).
  assert (Storage.stringsTrim (APIKeyMasterKey cfg) = APIKeyMasterKey cfg) as Hk'
    by (by apply StorageFacts.stringsTrim_of_trimmed).
  apply is_empty_false in Hdb, Hkey.
  assert (exists k, Crypto.DeriveKeyFromSecret B64DecodeString Sum256
                      (APIKeyMasterKey cfg) = inl k) as [k Hder].
  { unfold Crypto.DeriveKeyFromSecret. rewrite Hkey.
    destruct (B64DecodeString _) as [raw|]; [|by eexists].
    destruct (length raw =? 32)%nat; by eexists. }
  exists k. split; [done|].
  unfold Storage.Open. rewrite Hd', Hk', Hdb, Hkey, Hder, Hmk, Hsql, Haead.
  unfold Storage.migrate. by rewrite Hfault.
Qed.

End Startup.

End Validate.

End ConfigFacts.

(* ================================================================== *)
(** * Properties of the Karakeep client                                *)
(* ================================================================== *)

Module ClientFacts.
Import GoString GoStringFacts Karakeep Client.

Lemma altPrefix_other prefix :
  (altPrefix prefix).2 = true /\ (altPrefix prefix).1 <> prefix
  /\ (altPrefix prefix).1 ∈ [str "/api"; str "/api/v1"].
Proof.
  unfold altPrefix. destruct (eqb prefix (str "/api/v1")) eqn:E1.
  { apply eqb_true in E1 as ->. simpl. split_and!; [done|done|]. apply elem_of_cons. by left. }
  destruct (eqb prefix (str "/api")) eqn:E2.
  { apply eqb_true in E2 as ->. simpl. split_and!; [done|done|].
    apply elem_of_cons. right. apply elem_of_cons. by left. }
  apply eqb_false in E1. simpl. split_and!; [done|done|].
  apply elem_of_cons. right. apply elem_of_cons. by left.
Qed.

Lemma len_take_le n (s : gostring) : 0 <= n -> len (prefix_bytes n s) <= n.
Proof. intros Hn. unfold len, prefix_bytes. rewrite length_take. lia. Qed.

Lemma preview_of_short b : len (preview_of b) <= 603.
Proof.
  unfold preview_of. destruct (len (TrimSpace b) >? 600) eqn:E.
  - unfold len in *. rewrite length_app. pose proof (len_take_le 600 (TrimSpace b)).
    unfold len in *. change (length App.ellipsis) with 3%nat. lia.
  - rewrite Z.gtb_ltb in E. apply Z.ltb_ge in E. lia.
Qed.

Section Transport.
Variable apiKey : gostring.
Variable Do : list Request -> Request -> Response + gostring.
Variable path_Join : list gostring -> gostring.
Variable url_path : gostring -> gostring.
Variable decode : gostring -> Bookmark -> Bookmark * bool.
Variable decode_data : gostring -> option gostring.
Variable PathEscape : gostring -> gostring.

(** [do], written out on its state. *)
Lemma do_unfold req st :
  do Do path_Join url_path req st
  = let st1 := {| apiPrefix := apiPrefix st; sent := sent st ++ [req] |} in
    match Do (sent st) req with
    | inr e => ((0, [], Some (OtherError e)), st1)
    | inl resp =>
        let b := read_body resp in
        let failed :=
          (StatusCode resp, b, Some (APIError (StatusCode resp) (preview_of b))) in
        if (StatusCode resp <? 200) || (StatusCode resp >=? 300) then
          if StatusCode resp =? 404 then
            let alt := (altPrefix (apiPrefix st)).1 in
            let req2 := with_path req (retry_path path_Join url_path alt (Path req)) in
            let st2 := {| apiPrefix := alt; sent := sent st ++ [req; req2] |} in
            match Do (sent st ++ [req]) req2 with
            | inl resp2 =>
                let b2 := read_body resp2 in
                if (StatusCode resp2 >=? 200) && (StatusCode resp2 <? 300)
                then ((StatusCode resp2, b2, None), st2)
                else ((StatusCode resp2, b2,
                       Some (APIError (StatusCode resp2) (preview_of b2))), st2)
            | inr _ => (failed, st2)
            end
          else (failed, st1)
        else ((StatusCode resp, b, None), st1)
    end.
Proof.
  unfold do, http_Do, mbind, call_bind, mret, call_ret, get_prefix, set_prefix.
  destruct (Do (sent st) req) as [resp|e]; [|done].
  destruct ((StatusCode resp <? 200) || (StatusCode resp >=? 300)); [|done].
  destruct (StatusCode resp =? 404); [|done].
  cbn [apiPrefix sent].
  pose proof (altPrefix_other (apiPrefix st)) as (Hok & _).
  destruct (altPrefix (apiPrefix st)) as [alt ok]. simpl in Hok. subst ok.
  cbn [fst apiPrefix sent]. rewrite <- app_assoc. cbn [app].
  destruct (Do (sent st ++ [req]) _) as [resp2|e2]; [|done].
  by destruct ((StatusCode resp2 >=? 200) && (StatusCode resp2 <? 300)).
Qed.

(** One call of [do].  The request is handed over as it is; it is
    handed over a second time, with another path and nothing else
    changed, exactly when the first answer has the status 404, and
    never a third time.  The prefix of the client is switched exactly
    then, to one of /api and /api/v1 that it was not, whatever comes of
    the second try.  A result without error has a status from 200 to
    299; an error of the API carries the status that is returned, which
    is not one of these, and a preview of at most 603 bytes; the body
    that is returned has at most 32768 bytes. *)
Theorem do_retries_once_on_404 req st :
  let r := do Do path_Join url_path req st in
  let status := r.1.1.1 in
  let raw := r.1.1.2 in
  let err := r.1.2 in
  let st' := r.2 in
  let not_found :=
    match Do (sent st) req with
    | inl resp => bool_decide (StatusCode resp = 404)
    | inr _ => false
    end in
  (exists more,
     sent st' = sent st ++ req :: more
     /\ length more = (if not_found then 1%nat else 0%nat)
     /\ Forall (fun r' => exists path, r' = with_path req path) more)
  /\ (if not_found
      then apiPrefix st' <> apiPrefix st
           /\ apiPrefix st' ∈ [str "/api"; str "/api/v1"]
      else apiPrefix st' = apiPrefix st)
  /\ (err = None -> 200 <= status < 300)
  /\ (forall s p, err = Some (APIError s p) ->
                  s = status /\ ~ (200 <= s < 300) /\ len p <= 603)
  /\ len raw <= 32768.
Proof.
  intros r status raw err st' not_found. subst r status raw err st' not_found.
  rewrite do_unfold. cbv zeta.
  destruct (Do (sent st) req) as [resp|e] eqn:E1.
  2:{ cbn [fst snd sent apiPrefix]. split_and!; [by exists []|done|done|done|done]. }
  assert (len (read_body resp) <= 32768) as Hb by (by apply len_take_le).
  destruct ((StatusCode resp <? 200) || (StatusCode resp >=? 300)) eqn:E2.
  2:{ apply orb_false_iff in E2 as [H1 H2]. apply Z.ltb_ge in H1.
      rewrite Z.geb_leb in H2. apply Z.leb_gt in H2.
      rewrite bool_decide_eq_false_2 by lia. cbn [fst snd sent apiPrefix].
      split_and!; [by exists []|done|lia|done|done]. }
  assert (~ (200 <= StatusCode resp < 300)) as Hno.
  { apply orb_true_iff in E2 as [H|H]; [apply Z.ltb_lt in H; lia|].
    rewrite Z.geb_leb in H. apply Z.leb_le in H. lia. }
  destruct (StatusCode resp =? 404) eqn:E3.
  2:{ apply Z.eqb_neq in E3. rewrite bool_decide_eq_false_2 by done.
      cbn [fst snd sent apiPrefix].
      split_and!; [by exists []|done|done| |done].
      intros s p H. simplify_eq. split_and!; [done|done|apply preview_of_short]. }
  apply Z.eqb_eq in E3. rewrite bool_decide_eq_true_2 by done.
  destruct (altPrefix_other (apiPrefix st)) as (_ & Hne & Hin).
  set (alt := (altPrefix (apiPrefix st)).1) in *.
  set (req2 := with_path req (retry_path path_Join url_path alt (Path req))).
  assert (exists more,
            sent st ++ [req; req2] = sent st ++ req :: more
            /\ length more = 1%nat
            /\ Forall (fun r' => exists path, r' = with_path req path) more) as Hmore.
  { exists [req2]. split_and!; [done|done|]. apply Forall_singleton. by eexists. }
  destruct (Do (sent st ++ [req]) req2) as [resp2|e2] eqn:E4.
  - assert (len (read_body resp2) <= 32768) as Hb2 by (by apply len_take_le).
    destruct ((StatusCode resp2 >=? 200) && (StatusCode resp2 <? 300)) eqn:E5;
      cbn [fst snd sent apiPrefix].
    + apply andb_true_iff in E5 as [H1 H2]. rewrite Z.geb_leb in H1.
      apply Z.leb_le in H1. apply Z.ltb_lt in H2.
      split_and!; [done|done|done|lia|done|done].
    + assert (~ (200 <= StatusCode resp2 < 300)) as Hno2.
      { apply andb_false_iff in E5 as [H|H].
        - rewrite Z.geb_leb in H. apply Z.leb_gt in H. lia.
        - apply Z.ltb_ge in H. lia. }
      split_and!; [done|done|done|done| |done].
      intros s p H. simplify_eq. split_and!; [done|done|apply preview_of_short].
  - cbn [fst snd sent apiPrefix]. split_and!; [done|done|done|done| |done].
    intros s p H. simplify_eq. split_and!; [done|lia|apply preview_of_short].
Qed.

(** The body that [do] returns, written out. *)
Lemma read_body_cut resp : prefix_bytes 32768 (ResponseBody resp) = read_body resp.
Proof. exact (eq_refl (prefix_bytes 32768 (ResponseBody resp))). Qed.

(** An answer with a status from 200 to 299 ends the call. *)
Lemma do_ok req st resp :
  Do (sent st) req = inl resp -> 200 <= StatusCode resp < 300 ->
  do Do path_Join url_path req st
  = (StatusCode resp, read_body resp, None,
     {| apiPrefix := apiPrefix st; sent := sent st ++ [req] |}).
Proof.
  intros Hdo Hst. rewrite do_unfold. cbv zeta. rewrite Hdo.
  destruct ((StatusCode resp <? 200) || (StatusCode resp >=? 300)) eqn:E;
    [|reflexivity].
  apply orb_true_iff in E as [E|E]; [apply Z.ltb_lt in E; lia|].
  rewrite Z.geb_leb in E. apply Z.leb_le in E. lia.
Qed.

(** [GetBookmark] on a call of [do] that ends without error. *)
Lemma GetBookmark_of_do bookmarkID st status raw st' :
  let req :=
    (newRequest apiKey path_Join url_path (str "GET")
                (str "/bookmarks/" ++ PathEscape bookmarkID) NoBody st).1 in
  let r :=
    (GetBookmark apiKey Do path_Join url_path decode decode_data PathEscape
                 bookmarkID st).1 in
  do Do path_Join url_path req st = (status, raw, None, st') ->
  r.2 = None /\ r.1.2 = status /\ Raw r.1.1 = raw.
Proof.
  intros req r Hd. subst r.
  assert (newRequest apiKey path_Join url_path (str "GET")
            (str "/bookmarks/" ++ PathEscape bookmarkID) NoBody st = (req, st)) as En
    by done.
  clearbody req.
  unfold GetBookmark, doJSON, mbind, call_bind. rewrite En, Hd. clear Hd En.
  destruct (0 <? len raw) eqn:El; [|by repeat split].
  destruct (decode raw zero_Bookmark) as [out ok]. destruct ok; [by repeat split|].
  destruct (decode_data raw) as [data|]; [|by repeat split].
  destruct (0 <? len data); by repeat split.
Qed.

(** A bookmark is read from the first 32768 bytes of the answer.
    When the answer to the [GET] has a status from 200 to 299,
    [GetBookmark] returns no error, whether or not the body can be
    decoded, and the raw record it returns is the body cut at 32768
    bytes: the readiness of the extracted content is decided on these
    bytes alone. *)
Theorem GetBookmark_reads_the_first_32K bookmarkID st resp :
  let req :=
    (newRequest apiKey path_Join url_path (str "GET")
                (str "/bookmarks/" ++ PathEscape bookmarkID) NoBody st).1 in
  let r :=
    (GetBookmark apiKey Do path_Join url_path decode decode_data PathEscape
                 bookmarkID st).1 in
  Do (sent st) req = inl resp -> 200 <= StatusCode resp < 300 ->
  r.2 = None
  /\ r.1.2 = StatusCode resp
  /\ Raw r.1.1 = prefix_bytes 32768 (ResponseBody resp)
  /\ forall Unmarshal,
       App.extraction_ready Unmarshal r.1.1
       = App.hasExtractedContent Unmarshal (prefix_bytes 32768 (ResponseBody resp)).
Proof.
  intros req r Hdo Hst. rewrite read_body_cut.
  assert (r.2 = None /\ r.1.2 = StatusCode resp /\ Raw r.1.1 = read_body resp)
    as (H1 & H2 & H3).
  { eapply GetBookmark_of_do. by apply do_ok. }
  split_and!; [exact H1|exact H2|exact H3|].
  intros Unmarshal. unfold App.extraction_ready. f_equal. exact H3.
Qed.

(** The requests of one [do] are the request it is given, up to the
    path. *)
Lemma do_requests req st :
  exists more,
    sent (do Do path_Join url_path req st).2 = sent st ++ more
    /\ Forall (fun r => Method r = Method req /\ Body r = Body req) more.
Proof.
  rewrite do_unfold. cbv zeta.
  destruct (Do (sent st) req) as [resp|e].
  2:{ exists [req]. split; [done|]. by apply Forall_singleton. }
  destruct ((StatusCode resp <? 200) || (StatusCode resp >=? 300)).
  2:{ exists [req]. split; [done|]. by apply Forall_singleton. }
  destruct (StatusCode resp =? 404).
  2:{ exists [req]. split; [done|]. by apply Forall_singleton. }
  match goal with
  | |- context [Do (sent st ++ [req]) ?r2] =>
      exists [req; r2]; split; [|by repeat (apply Forall_cons; split)]
  end.
  destruct (Do _ _) as [resp2|e2]; [|done].
  by destruct ((StatusCode resp2 >=? 200) && (StatusCode resp2 <? 300)).
Qed.

Lemma doJSON_requests method p body st :
  exists more,
    sent (doJSON apiKey Do path_Join url_path decode decode_data method p body st).2
    = sent st ++ more
    /\ Forall (fun r => Method r = method /\ Body r = body) more.
Proof.
  unfold doJSON, newRequest, get_prefix.
  unfold mbind, call_bind, mret, call_ret.
  match goal with
  | |- context [do _ _ _ ?req st] =>
      destruct (do_requests req st) as (more & Hs & Hb);
      destruct (do Do path_Join url_path req st) as [[[status raw] err] st'] eqn:Ed
  end.
  simpl in Hs. exists more. split.
  - destruct err as [e|]; [done|]. destruct (0 <? len raw); [|done].
    destruct (decode raw zero_Bookmark) as [out ok]. destruct ok; [done|].
    destruct (decode_data raw) as [d|]; [|done]. by destruct (0 <? len d).
  - eapply Forall_impl; [exact Hb|]. intros r [H1 H2]. by destruct body.
Qed.

(** With a URL, the notes never reach what [CreateBookmark] returns:
    the bookmark, the status and the error are those of the same call
    without notes.  The notes travel in [PATCH] requests that follow
    the creation, sent only when the creation has succeeded with an
    identifier and the notes are not blank; what comes of them is
    dropped. *)
Theorem CreateBookmark_drops_the_outcome_of_the_notes urlStr title notes st :
  TrimSpace urlStr <> [] ->
  let create := CreateBookmark apiKey Do path_Join url_path decode decode_data PathEscape in
  let saved := create urlStr title notes st in
  let plain := create urlStr title [] st in
  saved.1 = plain.1
  /\ exists more,
       sent saved.2 = sent plain.2 ++ more
       /\ Forall (fun r => Method r = str "PATCH"
                           /\ Body r = JSONBody {[ str "notes" := TrimSpace notes ]}) more
       /\ (more <> [] ->
           saved.1.2 = None /\ ID saved.1.1.1 <> [] /\ TrimSpace notes <> []).
Proof.
  intros Hurl create saved plain. subst saved plain create. unfold CreateBookmark.
  apply is_empty_false in Hurl. rewrite Hurl. cbn [negb].
  change (TrimSpace []) with (@nil ascii). change (is_empty []) with true.
  unfold mbind, call_bind, mret, call_ret.
  destruct (doJSON _ _ _ _ _ _ _ _ _ st) as [[[[status raw] err] out] st1].
  cbn [bookmark_of]. destruct err as [e|].
  { split; [done|]. exists []. by rewrite app_nil_r. }
  cbn [negb]. rewrite andb_false_r.
  destruct (negb (is_empty (ID (with_Raw out raw)))
            && negb (is_empty (TrimSpace notes))) eqn:E.
  2:{ split; [done|]. exists []. by rewrite app_nil_r. }
  apply andb_true_iff in E as [E1 E2].
  apply negb_true_iff, is_empty_false in E1, E2.
  unfold UpdateBookmark. unfold mbind, call_bind, mret, call_ret.
  match goal with
  | |- context [doJSON _ _ _ _ _ _ ?m ?p ?b st1] =>
      destruct (doJSON_requests m p b st1) as (more & Hs & Hb);
      destruct (doJSON apiKey Do path_Join url_path decode decode_data m p b st1)
        as [r st2]
  end.
  cbn [fst snd] in *. split; [done|]. exists more. by split_and!.
Qed.


End Transport.

End ClientFacts.

(* ================================================================== *)
(** * Properties of the downloader                                     *)
(* ================================================================== *)

Module DownloaderFacts.
Import GoString GoStringFacts Downloader.

Section Download.
Variable GetFile : gostring -> gostring + gostring.
Variable FileURL : gostring -> gostring.
Variable Get : gostring -> Response + gostring.

Lemma wrap64_small z : - 2 ^ 63 <= z < 2 ^ 63 -> Classifier.wrap64 z = z.
Proof. intros Hz. unfold Classifier.wrap64. rewrite Z.mod_small; lia. Qed.

(** What is returned without error is within the limit. *)
Lemma DownloadFileByID_short fileID maxBytes b path :
  0 < maxBytes < 2 ^ 63 ->
  DownloadFileByID GetFile FileURL Get fileID maxBytes = (b, path, None) ->
  len b <= maxBytes.
Proof.
  intros Hmax. unfold DownloadFileByID.
  destruct (is_empty (TrimSpace fileID)); [done|].
  destruct (GetFile _) as [filePath|]; [|done].
  destruct (is_empty (TrimSpace filePath)); [done|].
  destruct (Get _) as [resp|]; [|done].
  destruct ((StatusCode resp <? 200) || (StatusCode resp >=? 300)); [done|].
  replace (maxBytes >? 0) with true by (symmetry; rewrite Z.gtb_ltb; apply Z.ltb_lt; lia).
  destruct (ReadAllLimited resp _) as [b'|] eqn:Er; [|done]. cbn [andb].
  destruct (len b' >? maxBytes) eqn:El; [done|].
  intros H. simplify_eq. rewrite Z.gtb_ltb in El. apply Z.ltb_ge in El. done.
Qed.

(** [DownloadFileByID] under a limit.  An identifier that is blank is
    refused.  What is returned without error has at most [maxBytes]
    bytes; with an error no bytes are returned.  A file that is served
    whole and is longer than the limit is refused, and the error names
    one byte more than the limit, whatever the length of the file. *)
Theorem DownloadFileByID_keeps_the_limit fileID maxBytes :
  0 < maxBytes < 2 ^ 63 - 1 ->
  let r := DownloadFileByID GetFile FileURL Get fileID maxBytes in
  (TrimSpace fileID = [] -> r = ([], [], Some (str "fileID is empty")))
  /\ (r.2 = None -> len r.1.1 <= maxBytes)
  /\ (r.2 <> None -> r.1.1 = [])
  /\ (forall filePath resp,
        TrimSpace fileID <> [] -> GetFile (TrimSpace fileID) = inl filePath ->
        TrimSpace filePath <> [] -> Get (FileURL filePath) = inl resp ->
        200 <= StatusCode resp < 300 -> maxBytes < len (Body resp) ->
        r = ([], filePath,
             Some (str "file too large: " ++ Itoa (maxBytes + 1)
                   ++ str " bytes (limit " ++ Itoa maxBytes ++ str ")"))).
Proof.
  intros Hmax r. split_and!.
  - intros Hid. subst r. unfold DownloadFileByID. by rewrite Hid.
  - destruct r as [[b path] err] eqn:Er. simpl. intros ->.
    eapply DownloadFileByID_short; [|exact Er]. lia.
  - subst r. unfold DownloadFileByID.
    destruct (is_empty (TrimSpace fileID)); [done|].
    destruct (GetFile _) as [filePath|]; [|done].
    destruct (is_empty (TrimSpace filePath)); [done|].
    destruct (Get _) as [resp|]; [|done].
    destruct ((StatusCode resp <? 200) || (StatusCode resp >=? 300)); [done|].
    destruct (if maxBytes >? 0 then _ else _) as [b'|]; [|done].
    by destruct ((maxBytes >? 0) && (len b' >? maxBytes)).
  - intros filePath resp Hid Hfile Hpath Hget Hst Hlen. subst r. unfold DownloadFileByID.
    apply is_empty_false in Hid, Hpath. rewrite Hid, Hfile, Hpath, Hget.
    replace ((StatusCode resp <? 200) || (StatusCode resp >=? 300)) with false.
    2:{ symmetry. apply orb_false_iff. split; [apply Z.ltb_ge; lia|].
        rewrite Z.geb_leb. apply Z.leb_gt. lia. }
    replace (maxBytes >? 0) with true by (symmetry; rewrite Z.gtb_ltb; apply Z.ltb_lt; lia).
    rewrite wrap64_small by lia. unfold ReadAllLimited.
    replace (maxBytes + 1 <=? 0) with false by (symmetry; apply Z.leb_gt; lia).
    replace (maxBytes + 1 <=? len (Body resp)) with true by (symmetry; apply Z.leb_le; lia).
    assert (len (prefix_bytes (maxBytes + 1) (Body resp)) = maxBytes + 1) as ->.
    { unfold len, prefix_bytes in *. rewrite length_take. lia. }
    cbn [andb]. by replace (maxBytes + 1 >? maxBytes) with true
      by (symmetry; rewrite Z.gtb_ltb; apply Z.ltb_lt; lia).
Qed.

End Download.

End DownloaderFacts.

(* ================================================================== *)
(** * Properties of the uploads                                        *)
(* ================================================================== *)

Module UploadsFacts.
Import GoString GoStringFacts Karakeep Attachments Uploads.

Section Upload.
Variable apiKey : gostring.
Variable Do : list Client.Request -> Client.Request -> Client.Response + gostring.
Variable path_Join : list gostring -> gostring.
Variable url_path : gostring -> gostring.
Variable decode : gostring -> Bookmark -> Bookmark * bool.
Variable decode_data : gostring -> option gostring.
Variable PathEscape : gostring -> gostring.
Variable decode_asset : gostring -> Client.Asset * bool.
Variable decode_asset_data : gostring -> option Client.Asset.
Variable FormDataContentType : gostring.
Variable Quote : gostring -> gostring.
Variable GetFile : gostring -> gostring + gostring.
Variable FileURL : gostring -> gostring.
Variable Get : gostring -> Downloader.Response + gostring.

Lemma UploadAsset_sent data filename mime st :
  exists more,
    Client.sent (UploadAsset apiKey Do path_Join url_path decode_asset
                             decode_asset_data FormDataContentType
                             data filename mime st).2
    = Client.sent st ++ more
    /\ Forall (fun r => uploaded r = Some data) more.
Proof.
  unfold UploadAsset, Client.UploadAsset, Client.newRequest, Client.get_prefix.
  unfold mbind, Client.call_bind, mret, Client.call_ret.
  match goal with
  | |- context [Client.do _ _ _ ?req st] =>
      destruct (ClientFacts.do_requests Do path_Join url_path req st) as (more & Hs & Hb);
      destruct (Client.do Do path_Join url_path req st) as [[[status raw] err] st'] eqn:Ed
  end.
  simpl in Hs. exists more. split.
  - destruct err as [e|]; [done|]. destruct (decode_asset raw) as [out ok].
    destruct ok; [done|]. destruct (decode_asset_data raw) as [w|]; [|done].
    by destruct (negb _).
  - eapply Forall_impl; [exact Hb|]. intros r [_ Hr]. unfold uploaded. by rewrite Hr.
Qed.

Lemma AttachAsset_sent bookmarkID assetID st :
  exists more,
    Client.sent (AttachAsset apiKey Do path_Join url_path decode decode_data PathEscape
                             bookmarkID assetID st).2
    = Client.sent st ++ more
    /\ Forall (fun r => uploaded r = None) more.
Proof.
  unfold AttachAsset, Client.AttachAsset, Client.doJSON, Client.newRequest,
    Client.get_prefix.
  unfold mbind, Client.call_bind, mret, Client.call_ret.
  match goal with
  | |- context [Client.do _ _ _ ?req st] =>
      destruct (ClientFacts.do_requests Do path_Join url_path req st) as (more & Hs & Hb);
      destruct (Client.do Do path_Join url_path req st) as [[[status raw] err] st'] eqn:Ed
  end.
  simpl in Hs. exists more. split.
  - destruct err as [e|]; [done|]. destruct (0 <? len raw); [|done].
    destruct (decode raw zero_Bookmark) as [out ok]. destruct ok; [done|].
    destruct (decode_data raw) as [d|]; [|done]. by destruct (0 <? len d).
  - eapply Forall_impl; [exact Hb|]. intros r [_ Hr]. unfold uploaded. by rewrite Hr.
Qed.

#[local] Abbreviation attach_all :=
  (Uploads.attach_all apiKey Do path_Join url_path decode decode_data PathEscape
                      decode_asset decode_asset_data FormDataContentType Quote
                      GetFile FileURL Get).

(** One turn of the loop, written out on its state. *)
Lemma attach_all_unfold bookmarkID maxBytes att rest s :
  attach_all bookmarkID maxBytes (att :: rest) s
  = if (SizeBytes att >? 0) && (SizeBytes att >? maxBytes) then
      (Some (str "❌ Слишком большой файл: " ++ Filename att ++ str " ("
             ++ Itoa (SizeBytes att) ++ str " bytes), лимит "
             ++ Itoa maxBytes ++ str " bytes"), s)
    else
      let s0 := {| client := client s; fetched := fetched s ++ [FileID att] |} in
      match Downloader.DownloadFileByID GetFile FileURL Get (FileID att) maxBytes with
      | (_, _, Some e) =>
          (Some (str "❌ Ошибка скачивания файла из Telegram: " ++ e), s0)
      | (data, filePath, None) =>
          let filename :=
            if is_empty (TrimSpace (Filename att)) then path_tail filePath
            else Filename att in
          match Uploads.UploadAsset apiKey Do path_Join url_path decode_asset
                  decode_asset_data FormDataContentType data filename (Mime att)
                  (client s0) with
          | ((asset, st, err), c1) =>
              let s1 := {| client := c1; fetched := fetched s0 |} in
              match err with
              | Some e =>
                  (Some (str "❌ Ошибка загрузки в Karakeep (" ++ Itoa st
                         ++ str "): " ++ Client.Error Quote e), s1)
              | None =>
                  if is_empty (TrimSpace (Client.AssetID asset)) then
                    (Some (str "❌ Karakeep вернул asset без id (проверьте схему Upload a new asset)."), s1)
                  else
                    match Uploads.AttachAsset apiKey Do path_Join url_path decode
                            decode_data PathEscape bookmarkID (Client.AssetID asset)
                            (client s1) with
                    | ((_, st2, err2), c2) =>
                        let s2 := {| client := c2; fetched := fetched s1 |} in
                        match err2 with
                        | Some e =>
                            (Some (str "❌ Ошибка attach asset (" ++ Itoa st2
                                   ++ str "): " ++ Client.Error Quote e), s2)
                        | None => attach_all bookmarkID maxBytes rest s2
                        end
                    end
              end
          end
      end.
Proof.
  cbn [Uploads.attach_all].
  destruct ((SizeBytes att >? 0) && (SizeBytes att >? maxBytes)); [done|].
  unfold mbind, job_bind, download, call, mret, job_ret. cbv zeta.
  destruct (Downloader.DownloadFileByID _ _ _ _ _) as [[data filePath] [e|]]; [done|].
  cbn [client fetched].
  destruct (Uploads.UploadAsset _ _ _ _ _ _ _ _ _ _ _) as [[[asset st] [e|]] c1]; [done|].
  destruct (is_empty (TrimSpace (Client.AssetID asset))); [done|].
  cbn [client fetched].
  by destruct (Uploads.AttachAsset _ _ _ _ _ _ _ _ _ _)
    as [[[b2 st2] [e|]] c2].
Qed.

(** One turn of the loop, by what it leaves behind: nothing when the
    declared size passes the limit; else the file is asked for, and
    what is uploaded is what was downloaded. *)
Lemma attach_all_step bookmarkID maxBytes att rest s :
  0 < maxBytes < 2 ^ 63 ->
  (declared_over maxBytes att
   /\ (attach_all bookmarkID maxBytes (att :: rest) s).2 = s
   /\ (attach_all bookmarkID maxBytes (att :: rest) s).1 <> None)
  \/ (~ declared_over maxBytes att
      /\ exists s1 more,
           fetched s1 = fetched s ++ [FileID att]
           /\ Client.sent (client s1) = Client.sent (client s) ++ more
           /\ Forall (fun r => forall data, uploaded r = Some data -> len data <= maxBytes)
                     more
           /\ (attach_all bookmarkID maxBytes (att :: rest) s
               = attach_all bookmarkID maxBytes rest s1
               \/ ((attach_all bookmarkID maxBytes (att :: rest) s).2 = s1
                   /\ (attach_all bookmarkID maxBytes (att :: rest) s).1 <> None))).
Proof.
  intros Hmax. rewrite attach_all_unfold. cbv zeta.
  destruct ((SizeBytes att >? 0) && (SizeBytes att >? maxBytes)) eqn:Eover.
  { left. apply andb_true_iff in Eover as [H1 H2]. rewrite Z.gtb_ltb in H1, H2.
    apply Z.ltb_lt in H1, H2. by split_and!. }
  right. split.
  { intros [H1 H2]. apply andb_false_iff in Eover as [H|H];
      rewrite Z.gtb_ltb in H; apply Z.ltb_ge in H; lia. }
  destruct (Downloader.DownloadFileByID GetFile FileURL Get (FileID att) maxBytes)
    as [[data filePath] err] eqn:Ed.
  set (s0 := {| client := client s; fetched := fetched s ++ [FileID att] |}).
  destruct err as [e|].
  { exists s0, []. rewrite app_nil_r. split_and!; [done|done|done|]. right. by split. }
  assert (len data <= maxBytes) as Hlen
    by (eapply DownloaderFacts.DownloadFileByID_short; [exact Hmax|exact Ed]).
  set (filename := if is_empty (TrimSpace (Filename att)) then path_tail filePath
                   else Filename att).
  destruct (UploadAsset_sent data filename (Mime att) (client s0)) as (more1 & Hs1 & Hb1).
  destruct (Uploads.UploadAsset apiKey Do path_Join url_path decode_asset
              decode_asset_data FormDataContentType data filename (Mime att) (client s0))
    as [[[asset st] err] c1] eqn:Eu.
  simpl in Hs1.
  set (s1 := {| client := c1; fetched := fetched s0 |}).
  assert (Forall (fun r => forall d, uploaded r = Some d -> len d <= maxBytes) more1) as Hok1.
  { eapply Forall_impl; [exact Hb1|]. intros r Hr d Hd. rewrite Hr in Hd. by simplify_eq. }
  destruct err as [e|].
  { exists s1, more1. split_and!; [done|done|done|]. right. by split. }
  destruct (is_empty (TrimSpace (Client.AssetID asset))).
  { exists s1, more1. split_and!; [done|done|done|]. right. by split. }
  destruct (AttachAsset_sent bookmarkID (Client.AssetID asset) (client s1))
    as (more2 & Hs2 & Hb2).
  destruct (Uploads.AttachAsset apiKey Do path_Join url_path decode decode_data
              PathEscape bookmarkID (Client.AssetID asset) (client s1))
    as [[[b2 st2] err2] c2] eqn:Ea.
  simpl in Hs2.
  set (s2 := {| client := c2; fetched := fetched s1 |}).
  exists s2, (more1 ++ more2). split_and!.
  - done.
  - simpl. rewrite Hs2. simpl. rewrite Hs1. by rewrite app_assoc.
  - apply Forall_app. split; [done|].
    eapply Forall_impl; [exact Hb2|]. intros r Hr d Hd. congruence.
  - destruct err2; [right; by split|by left].
Qed.

(** The loop, for any limit. *)
Lemma attach_all_keeps_the_limit bookmarkID maxBytes attachments s :
  0 < maxBytes < 2 ^ 63 ->
  let r := attach_all bookmarkID maxBytes attachments s in
  (exists more,
     Client.sent (client r.2) = Client.sent (client s) ++ more
     /\ Forall (fun q => forall data, uploaded q = Some data -> len data <= maxBytes) more)
  /\ match r.1 with
     | None => fetched r.2 = fetched s ++ (FileID <$> attachments)
     | Some _ =>
         exists before att after,
           attachments = before ++ att :: after
           /\ Forall (fun a => ~ declared_over maxBytes a) before
           /\ fetched r.2
              = fetched s ++ (FileID <$> before)
                ++ (if decide (declared_over maxBytes att) then [] else [FileID att])
     end.
Proof.
  intros Hmax. revert s. induction attachments as [|att rest IH]; intros s r.
  { subst r. simpl. split; [exists []|]; by rewrite app_nil_r. }
  destruct (attach_all_step bookmarkID maxBytes att rest s Hmax)
    as [(Hover & Hs & Herr)|(Hunder & s1 & more & Hf & Hsent & Hok & Hnext)].
  - subst r. rewrite Hs. split.
    + exists []. by rewrite app_nil_r.
    + destruct (attach_all _ _ _ _).1 as [msg|]; [|done].
      exists [], att, rest. rewrite decide_True by done. simpl.
      split_and!; [done|done|by rewrite app_nil_r].
  - destruct Hnext as [Hgo|[Hs Herr]].
    + subst r. rewrite Hgo. destruct (IH s1) as [(more' & Hsent' & Hok') Hrest]. split.
      * exists (more ++ more'). rewrite Hsent', Hsent, app_assoc. split; [done|].
        by apply Forall_app.
      * destruct (attach_all bookmarkID maxBytes rest s1).1 as [msg|].
        -- destruct Hrest as (before & att' & after & -> & Hbefore & Hfetched).
           exists (att :: before), att', after. split_and!; [done|by constructor|].
           rewrite Hfetched, Hf. simpl. by rewrite <- !app_assoc.
        -- rewrite Hrest, Hf. simpl. by rewrite <- app_assoc.
    + subst r. rewrite Hs. split.
      * by exists more.
      * destruct (attach_all _ _ _ _).1 as [msg|]; [|done].
        exists [], att, rest. rewrite decide_False by done. simpl.
        split_and!; [done|done|done].
Qed.

(** The uploads keep the limit, and stop at the first attachment that
    fails.  The limit is [MaxUploadBytes], 50 MiB when this is not
    positive.  Whatever Telegram and the service answer: nothing is
    done for a bookmark without identifier; no request uploads more
    bytes than the limit; when the loop runs to its end, every
    attachment has been asked of the downloader once, in the order of
    the list; when it is left early, those before the one it is left at
    have been, the one it is left at has been too unless its declared
    size passes the limit, and no later one. *)
Theorem upload_keeps_the_limit b MaxUploadBytes attachments s :
  MaxUploadBytes < 2 ^ 63 ->
  let limit := if MaxUploadBytes <=? 0 then default_limit else MaxUploadBytes in
  let r :=
    Uploads.upload apiKey Do path_Join url_path decode decode_data PathEscape
                   decode_asset decode_asset_data FormDataContentType Quote
                   GetFile FileURL Get b MaxUploadBytes attachments s in
  (ID b = [] -> r = (None, s))
  /\ (exists more,
        Client.sent (client r.2) = Client.sent (client s) ++ more
        /\ Forall (fun q => forall data, uploaded q = Some data -> len data <= limit) more)
  /\ (ID b <> [] ->
      match r.1 with
      | None => fetched r.2 = fetched s ++ (FileID <$> attachments)
      | Some _ =>
          exists before att after,
            attachments = before ++ att :: after
            /\ Forall (fun a => ~ declared_over limit a) before
            /\ fetched r.2
               = fetched s ++ (FileID <$> before)
                 ++ (if decide (declared_over limit att) then [] else [FileID att])
      end).
Proof.
  intros Hmax limit r. subst r. unfold Uploads.upload. fold limit.
  assert (0 < limit < 2 ^ 63) as Hlimit.
  { subst limit. destruct (Z.leb_spec MaxUploadBytes 0); [by vm_compute|lia]. }
  destruct (is_empty (ID b)) eqn:Eid; cbn [negb andb].
  { apply is_empty_true in Eid. split_and!; [done| |done].
    exists []. by rewrite app_nil_r. }
  apply is_empty_false in Eid.
  destruct (0 <? Z.of_nat (length attachments)) eqn:En.
  - destruct (attach_all_keeps_the_limit (ID b) limit attachments s Hlimit) as [H1 H2].
    by split_and!.
  - apply Z.ltb_ge in En. destruct attachments as [|a l]; [|simpl in En; lia].
    split_and!; [done| |intros _; simpl; by rewrite app_nil_r].
    exists []. by rewrite app_nil_r.
Qed.

End Upload.

End UploadsFacts.

(* ================================================================== *)
(** * Properties of the webhook handler                                *)
(* ================================================================== *)

Module WebhookFacts.
Import GoString GoStringFacts Webhook.

Section Handler.
Variable Update : Type.
Variable Unmarshal : gostring -> option Update.
Variable SecretToken : gostring.
Variable OnUpdate : bool.

Lemma read_body_prefix r body :
  read_body r = inl body -> body = prefix_bytes body_limit (Body r).
Proof.
  unfold read_body. destruct (body_limit <=? len (Body r)) eqn:E.
  - intros H. by simplify_eq.
  - apply Z.leb_gt in E. destruct (ReadError r); [done|]. intros H. simplify_eq.
    unfold prefix_bytes. symmetry. apply take_ge. unfold len in E. lia.
Qed.

(** The webhook.  The status is 200 exactly for a [POST] that carries
    the secret, when one is configured, and whose body can be read and
    decoded; it is 405, 401 or 400 otherwise.  An update is handed to
    the callback only with the status 200, and it is what the first
    2097152 bytes of the body decode to. *)
Theorem ServeHTTP_guards_the_callback r :
  let status := (ServeHTTP Update Unmarshal SecretToken OnUpdate r).1 in
  let started := (ServeHTTP Update Unmarshal SecretToken OnUpdate r).2 in
  (status = 200
   <-> Method r = str "POST"
       /\ (SecretToken = [] \/ SecretHeader r = SecretToken)
       /\ exists body upd, read_body r = inl body /\ Unmarshal body = Some upd)
  /\ status ∈ [200; 400; 401; 405]
  /\ (forall upd,
        started = Some upd ->
        status = 200 /\ OnUpdate = true
        /\ Unmarshal (prefix_bytes body_limit (Body r)) = Some upd).
Proof.
  intros status started. subst status started. unfold ServeHTTP.
  destruct (eqb (Method r) (str "POST")) eqn:Em; cbn [negb].
  2:{ apply eqb_false in Em. split_and!; [|set_solver|done].
      split; [done|]. by intros [? _]. }
  apply eqb_true in Em.
  destruct (is_empty SecretToken) eqn:Es; cbn [negb andb].
  - apply is_empty_true in Es.
    destruct (read_body r) as [body|e] eqn:Er.
    2:{ split_and!; [|set_solver|done]. split; [done|]. by intros (_ & _ & ? & ? & ? & _). }
    destruct (Unmarshal body) as [upd|] eqn:Eu.
    2:{ split_and!; [|set_solver|done]. split; [done|].
        intros (_ & _ & ? & ? & ? & ?). simplify_eq. }
    split_and!; [|set_solver|].
    + split; [|done]. intros _. split_and!; [done|by left|by eexists _, _].
    + intros upd' H. destruct OnUpdate; [|done]. simpl in H. simplify_eq.
      apply read_body_prefix in Er as <-. done.
  - apply is_empty_false in Es.
    destruct (eqb (SecretHeader r) SecretToken) eqn:Eh; cbn [negb].
    2:{ apply eqb_false in Eh. split_and!; [|set_solver|done].
        split; [done|]. by intros (_ & [?|?] & _). }
    apply eqb_true in Eh.
    destruct (read_body r) as [body|e] eqn:Er.
    2:{ split_and!; [|set_solver|done]. split; [done|]. by intros (_ & _ & ? & ? & ? & _). }
    destruct (Unmarshal body) as [upd|] eqn:Eu.
    2:{ split_and!; [|set_solver|done]. split; [done|].
        intros (_ & _ & ? & ? & ? & ?). simplify_eq. }
    split_and!; [|set_solver|].
    + split; [|done]. intros _. split_and!; [done|by right|by eexists _, _].
    + intros upd' H. destruct OnUpdate; [|done]. simpl in H. simplify_eq.
      apply read_body_prefix in Er as <-. done.
Qed.

End Handler.

End WebhookFacts.

(* ================================================================== *)
(** * Properties of the update handler                                 *)
(* ================================================================== *)

Module HandlerFacts.
Import GoString GoStringFacts Tgbotapi Handler.

(** ** The settings in the table *)

Lemma settings_UpsertUser d id now user :
  settings_or_unset (Storage.UpsertUser d id now).1 user = settings_or_unset d user.
Proof.
  unfold Storage.UpsertUser. destruct (Storage.fault d); [done|]. simpl.
  unfold settings_or_unset, settings. simpl.
  destruct (decide (user = id)) as [->|Hne].
  - rewrite lookup_insert_eq. simpl. by destruct (Storage.users d !! id).
  - by rewrite lookup_insert_ne.
Qed.

Lemma settings_update_other d id f user :
  user <> id ->
  settings_or_unset (Storage.update d id f).1 user = settings_or_unset d user.
Proof.
  intros Hne. unfold Storage.update. destruct (Storage.fault d); [done|]. simpl.
  unfold settings_or_unset, settings. simpl. by rewrite lookup_alter_ne.
Qed.

Lemma UpsertUser_row d id now :
  Storage.fault d = None ->
  Storage.fault (Storage.UpsertUser d id now).1 = None
  /\ exists row,
       Storage.users (Storage.UpsertUser d id now).1 !! id = Some row
       /\ (Storage.server_base_url row, Storage.api_key_ciphertext_b64 row,
           Storage.api_key_nonce_b64 row) = settings_or_unset d id.
Proof.
  intros Hf. unfold Storage.UpsertUser. rewrite Hf. simpl. split; [done|].
  rewrite lookup_insert_eq. eexists. split; [done|].
  unfold settings_or_unset, settings. by destruct (Storage.users d !! id).
Qed.

Lemma slice_Some s lo hi :
  is_Some (slice s lo hi) <-> 0 <= lo /\ lo <= hi /\ hi <= len s.
Proof.
  unfold slice. destruct ((0 <=? lo) && (lo <=? hi) && (hi <=? len s)) eqn:E.
  - apply andb_true_iff in E as [E E3]. apply andb_true_iff in E as [E1 E2].
    apply Z.leb_le in E1, E2, E3. split; [done|]. by eexists.
  - split; [by intros [? ?]|]. intros (H1 & H2 & H3).
    apply Z.leb_le in H1, H2, H3. by rewrite H1, H2, H3 in E.
Qed.

Lemma Command_None m :
  IsCommand m = true -> (Command m = None <-> entity_out_of_range m).
Proof.
  intros Hc. unfold Command, entity_out_of_range. rewrite Hc. cbn [negb].
  unfold IsCommand in Hc. destruct (Entities m) as [|entity rest]; [done|].
  pose proof (slice_Some (Text m) 1 (Length entity)) as Hs.
  destruct (slice (Text m) 1 (Length entity)) as [c|]; simpl.
  - split; [done|]. intros Hout. assert (is_Some (Some c)) as H by (by eexists).
    apply Hs in H. lia.
  - split; [|done]. intros _.
    destruct (decide (Length entity < 1 \/ len (Text m) < Length entity)) as [?|Hn]; [done|].
    exfalso. assert (is_Some (@None gostring)) as [? ?]; [|done]. apply Hs. lia.
Qed.

Lemma CommandArguments_Some m :
  IsCommand m = true -> ~ entity_out_of_range m -> is_Some (CommandArguments m).
Proof.
  intros Hc Hin. unfold CommandArguments, entity_out_of_range in *. rewrite Hc. cbn [negb].
  destruct (Entities m) as [|entity rest]; [by eexists|].
  destruct (len (Text m) =? Length entity) eqn:E; [by eexists|].
  apply Z.eqb_neq in E. apply slice_Some. lia.
Qed.

Section App.
Variable ParseTime : gostring -> option Z.
Variable Seal : gostring -> gostring -> gostring.
Variable Open_ : gostring -> gostring -> gostring + gostring.
Variable EncodeToString : gostring -> gostring.
Variable DecodeString : gostring -> gostring + gostring.
Variable Parse : gostring -> option Security.URL.
Variable Hostname : Security.URL -> gostring.
Variable LookupIP : gostring -> option (list Net.IP).
Variable URLString : Security.URL -> gostring.
Variable IPString : Net.IP -> gostring.
Variable Quote : gostring -> gostring.
Variable FormatLocal : Z -> gostring.
Variable Version : gostring.
Variable MediaGroups : bool.

#[local] Abbreviation HandleUpdate :=
  (Handler.HandleUpdate ParseTime Seal Open_ EncodeToString DecodeString Parse Hostname
                        LookupIP URLString IPString Quote FormatLocal Version MediaGroups).
#[local] Abbreviation cmdServer :=
  (Handler.cmdServer ParseTime Parse Hostname LookupIP URLString IPString Quote).
#[local] Abbreviation cmdKey :=
  (Handler.cmdKey ParseTime Seal Open_ EncodeToString DecodeString).
#[local] Abbreviation admission := (Handler.admission ParseTime Open_ DecodeString).
#[local] Abbreviation cmdStart := (Handler.cmdStart ParseTime).
#[local] Abbreviation cmdStatus :=
  (Handler.cmdStatus ParseTime Open_ DecodeString FormatLocal Version).
#[local] Abbreviation ValidateServerBaseURL :=
  (Security.ValidateServerBaseURL Parse Hostname LookupIP URLString IPString Quote).

Lemma cmdStart_db d from chat :
  db (cmdStart d from chat) = d /\ ending (cmdStart d from chat) = Returned.
Proof. unfold Handler.cmdStart. by destruct (GetUser _ _ _). Qed.

Lemma cmdStatus_db d from chat :
  db (cmdStatus d from chat) = d /\ ending (cmdStatus d from chat) = Returned.
Proof.
  unfold Handler.cmdStatus. destruct (GetUser _ _ _) as [u err].
  destruct (read_failed err); [done|]. by destruct (DecryptAPIKey _ _ _) as [[? ?] ?].
Qed.

Lemma cmdServer_other d from chat args now user :
  user <> from ->
  settings_or_unset (db (cmdServer d from chat args now)) user = settings_or_unset d user.
Proof.
  intros Hne. unfold Handler.cmdServer. destruct (is_empty (TrimSpace args)).
  { destruct (GetUser _ _ _) as [u err]. by destruct (read_failed err). }
  destruct (Handler.ValidateServerBaseURL _ _ _ _ _ _ _) as [norm|]; [|done].
  destruct (Storage.SetServerBaseURL d from norm now) as [d' err] eqn:E.
  assert (settings_or_unset d' user = settings_or_unset d user) as Hd.
  { replace d' with (Storage.SetServerBaseURL d from norm now).1 by (by rewrite E).
    unfold Storage.SetServerBaseURL. destruct (is_empty _); [done|].
    by apply settings_update_other. }
  by destruct err.
Qed.

Lemma cmdServer_ending d from chat args now :
  ending (cmdServer d from chat args now) = Returned.
Proof.
  unfold Handler.cmdServer. destruct (is_empty (TrimSpace args)).
  { destruct (GetUser _ _ _) as [u err]. by destruct (read_failed err). }
  destruct (Handler.ValidateServerBaseURL _ _ _ _ _ _ _) as [norm|]; [|done].
  by destruct (Storage.SetServerBaseURL d from norm now) as [d' [e|]].
Qed.

Lemma cmdKey_other d from chat args now nonce user :
  user <> from ->
  settings_or_unset (db (cmdKey d from chat args now nonce)) user
  = settings_or_unset d user.
Proof.
  intros Hne. unfold Handler.cmdKey. destruct (is_empty (TrimSpace args)).
  { destruct (GetUser _ _ _) as [u err]. destruct (read_failed err); [done|].
    destruct (DecryptAPIKey _ _ _) as [[? ok] ?]. by destruct ok. }
  destruct (Storage.SetAPIKey _ _ d from (TrimSpace args) nonce now) as [d' err] eqn:E.
  assert (settings_or_unset d' user = settings_or_unset d user) as Hd.
  { replace d' with (Storage.SetAPIKey Seal EncodeToString d from (TrimSpace args)
                                       nonce now).1 by (by rewrite E).
    unfold Storage.SetAPIKey. destruct (is_empty _); [done|].
    destruct nonce; [|done]. by apply settings_update_other. }
  by destruct err.
Qed.

Lemma cmdKey_ending d from chat args now nonce :
  ending (cmdKey d from chat args now nonce) = Returned.
Proof.
  unfold Handler.cmdKey. destruct (is_empty (TrimSpace args)).
  { destruct (GetUser _ _ _) as [u err]. destruct (read_failed err); [done|].
    destruct (DecryptAPIKey _ _ _) as [[? ok] ?]. by destruct ok. }
  by destruct (Storage.SetAPIKey _ _ d from (TrimSpace args) nonce now) as [d' [e|]].
Qed.

(** [HandleUpdate] on a command sent in a private chat. *)
Lemma HandleUpdate_private_command d env user chat name args now1 now2 nonce :
  private_command env user chat name args ->
  HandleUpdate d (Some env) now1 now2 nonce
  = let d' := (Storage.UpsertUser d user now1).1 in
    if eqb name (str "start") then cmdStart d' user (ChatID chat)
    else if eqb name (str "help") then cmdHelp d' (ChatID chat)
    else if eqb name (str "server") then cmdServer d' user (ChatID chat) args now2
    else if eqb name (str "key") then cmdKey d' user (ChatID chat) args now2 nonce
    else if eqb name (str "status") then cmdStatus d' user (ChatID chat)
    else {| ending := Returned; db := d';
            effects := [Sent (ChatID chat) (str "Неизвестная команда. /help")] |}.
Proof.
  intros (Hfrom & Hchat & Hpriv & Hcmd & (command & Hcommand & Hname) & Hargs).
  unfold Handler.HandleUpdate. rewrite Hfrom, Hcmd, Hchat, Hpriv, Hcommand, Hargs.
  cbn [negb]. by rewrite Hname.
Qed.

(** The settings of a user change by a command of this user alone:
    whatever update [HandleUpdate] is given, the address and the key
    the table holds for a user are afterwards what they were, unless
    the update is the command [/server] or [/key] that this user has
    sent in a private chat. *)
Theorem settings_change_by_private_command_only d upd now1 now2 nonce user :
  let out := HandleUpdate d upd now1 now2 nonce in
  settings_or_unset (db out) user <> settings_or_unset d user ->
  exists env chat args,
    upd = Some env
    /\ (private_command env user chat (str "server") args
        \/ private_command env user chat (str "key") args).
Proof.
  intros out Hdiff. subst out. destruct upd as [env|]; [|done].
  unfold Handler.HandleUpdate in Hdiff.
  destruct (From env) as [from|] eqn:Efrom; [|done].
  set (d' := (Storage.UpsertUser d from now1).1) in *.
  assert (settings_or_unset d' user = settings_or_unset d user) as Hup
    by apply settings_UpsertUser.
  destruct (IsCommand (message env)) eqn:Ecmd.
  2:{ by destruct (negb (is_empty _) && MediaGroups). }
  destruct (Chat_ env) as [chat|] eqn:Echat; [|done].
  destruct (IsPrivate chat) eqn:Epriv; [|done]. cbn [negb] in Hdiff.
  destruct (Command (message env)) as [command|] eqn:Ecommand; [|done].
  destruct (eqb (ToLower command) (str "start")) eqn:E1.
  { by rewrite (proj1 (cmdStart_db _ _ _)) in Hdiff. }
  destruct (eqb (ToLower command) (str "help")) eqn:E2; [done|].
  destruct (eqb (ToLower command) (str "server")) eqn:E3.
  { apply eqb_true in E3.
    destruct (CommandArguments (message env)) as [args|] eqn:Eargs; [|done].
    destruct (decide (user = from)) as [->|Hne].
    - exists env, chat, args. split; [done|]. left. split_and!; try done. by exists command.
    - by rewrite cmdServer_other in Hdiff. }
  destruct (eqb (ToLower command) (str "key")) eqn:E4.
  { apply eqb_true in E4.
    destruct (CommandArguments (message env)) as [args|] eqn:Eargs; [|done].
    destruct (decide (user = from)) as [->|Hne].
    - exists env, chat, args. split; [done|]. right. split_and!; try done. by exists command.
    - by rewrite cmdKey_other in Hdiff. }
  destruct (eqb (ToLower command) (str "status")) eqn:E5; [|done].
  by rewrite (proj1 (cmdStatus_db _ _ _)) in Hdiff.
Qed.

(** [HandleUpdate] ends by a panic in two cases, and in no other: on a
    command that comes without chat, and on a command in a private
    chat whose first entity claims a length below 1 or beyond the
    text. *)
Theorem HandleUpdate_panics_on_malformed_commands d upd now1 now2 nonce :
  ending (HandleUpdate d upd now1 now2 nonce) = Panicked
  <-> exists env,
        upd = Some env /\ From env <> None /\ IsCommand (message env) = true
        /\ (Chat_ env = None
            \/ exists chat,
                 Chat_ env = Some chat /\ IsPrivate chat = true
                 /\ entity_out_of_range (message env)).
Proof.
  unfold Handler.HandleUpdate.
  destruct upd as [env|]; [|split; [done|by intros (? & ? & _)]].
  destruct (From env) as [from|] eqn:Efrom.
  2:{ split; [done|]. intros (? & ? & ? & _). simplify_eq. }
  destruct (IsCommand (message env)) eqn:Ecmd.
  2:{ split.
      - by destruct (negb (is_empty _) && MediaGroups).
      - intros (? & ? & _ & ? & _). simplify_eq. congruence. }
  destruct (Chat_ env) as [chat|] eqn:Echat.
  2:{ split; [|done]. intros _. exists env. split_and!; [done|by rewrite Efrom|done|by left]. }
  destruct (IsPrivate chat) eqn:Epriv; cbn [negb].
  2:{ split; [done|]. intros (? & ? & _ & _ & [?|(? & ? & ? & _)]); simplify_eq. congruence. }
  pose proof (Command_None (message env) Ecmd) as Hnone.
  destruct (Command (message env)) as [command|] eqn:Ecommand.
  - assert (~ entity_out_of_range (message env)) as Hin.
    { intros H. apply Hnone in H. done. }
    destruct (CommandArguments_Some (message env) Ecmd Hin) as [args Hargs].
    rewrite Hargs. split.
    + intros Hp. exfalso.
      destruct (eqb (ToLower command) (str "start")).
      { by rewrite (proj2 (cmdStart_db _ _ _)) in Hp. }
      destruct (eqb (ToLower command) (str "help")); [done|].
      destruct (eqb (ToLower command) (str "server")).
      { by rewrite cmdServer_ending in Hp. }
      destruct (eqb (ToLower command) (str "key")).
      { by rewrite cmdKey_ending in Hp. }
      destruct (eqb (ToLower command) (str "status")); [|done].
      by rewrite (proj2 (cmdStatus_db _ _ _)) in Hp.
    + intros (? & ? & _ & _ & [?|(? & ? & ? & ?)]); simplify_eq. done.
  - split; [|done]. intros _. exists env. split_and!; [done|by rewrite Efrom|done|].
    right. exists chat. split_and!; [done|done|]. by apply Hnone.
Qed.

(** [/server] with an argument, sent in a private chat, on a database
    that answers.  When the guard refuses the argument the settings of
    the user stay and the refusal is sent; when it returns an address,
    this address is what the table holds for the user afterwards, the
    key kept, and what the confirmation names. *)
Theorem server_command_stores_the_guarded_address
        d env user chat args now1 now2 nonce :
  Storage.fault d = None ->
  private_command env user chat (str "server") args -> TrimSpace args <> [] ->
  let out := HandleUpdate d (Some env) now1 now2 nonce in
  let old := settings_or_unset d user in
  match ValidateServerBaseURL (TrimSpace args) with
  | inr _ =>
      settings_or_unset (db out) user = old
      /\ effects out
         = [Sent (ChatID chat) (str "Некорректный / небезопасный URL. Разрешён только публичный https. Пример: /server https://karakeep.example.com")]
  | inl norm =>
      if is_empty (Storage.stringsTrim norm) then
        settings_or_unset (db out) user = old
        /\ effects out = [Sent (ChatID chat) (str "Не удалось сохранить сервер.")]
      else
        settings_or_unset (db out) user = (norm, old.1.2, old.2)
        /\ effects out = [Sent (ChatID chat) (str "✅ Сервер сохранён: " ++ norm)]
  end.
Proof.
  intros Hf Hcmd Hargs out old. subst out old.
  rewrite (HandleUpdate_private_command _ _ _ _ _ _ _ _ _ Hcmd). cbv zeta.
  change (eqb (str "server") (str "start")) with false.
  change (eqb (str "server") (str "help")) with false.
  change (eqb (str "server") (str "server")) with true. cbv iota.
  destruct (UpsertUser_row d user now1 Hf) as (Hf' & row & Hrow & Hset).
  pose proof (settings_UpsertUser d user now1 user) as Hup.
  set (d' := (Storage.UpsertUser d user now1).1) in *.
  unfold Handler.cmdServer. apply is_empty_false in Hargs. rewrite Hargs.
  unfold Handler.ValidateServerBaseURL.
  destruct (ValidateServerBaseURL (TrimSpace args)) as [norm|e]; [|done].
  unfold Storage.SetServerBaseURL.
  destruct (is_empty (Storage.stringsTrim norm)); [done|].
  rewrite StorageFacts.update_users by done. cbn [db effects]. split; [|done].
  unfold settings_or_unset, settings. cbn [Storage.users Storage.with_users].
  rewrite lookup_alter_eq, Hrow.
  change (default _ (_ <$> Storage.users d !! user)) with (settings_or_unset d user).
  by rewrite <- Hset.
Qed.

(** ** The head of [processMessageBatch] *)

(** A message that is no command leaves the table as the upsert of
    its sender has made it. *)
Lemma HandleUpdate_message d env user now1 now2 nonce :
  From env = Some user -> IsCommand (message env) = false ->
  db (HandleUpdate d (Some env) now1 now2 nonce) = (Storage.UpsertUser d user now1).1.
Proof.
  intros Hf Hc. unfold Handler.HandleUpdate. rewrite Hf, Hc.
  by destruct (negb _ && _).
Qed.

(** The user [GetUser] reads from a row. *)
Lemma GetUser_row d user row :
  Storage.fault d = None -> Storage.users d !! user = Some row ->
  exists u,
    Storage.GetUser ParseTime d user = (u, None)
    /\ Storage.ServerBaseURL u = Storage.server_base_url row
    /\ Storage.APIKeyCiphertextB64 u = Storage.api_key_ciphertext_b64 row
    /\ Storage.APIKeyNonceB64 u = Storage.api_key_nonce_b64 row.
Proof.
  intros Hf Hrow. unfold Storage.GetUser. rewrite Hf, Hrow. by eexists.
Qed.

(** The batch of a sender whose key is not set, and of one whose key
    cannot be decoded.  A message that is no command, from a sender for
    whom the table holds no key, or none after the upsert that a new
    sender gets, is answered with the request to configure the bot, and
    goes no further.  When the table holds a key whose text is not
    base 64, the message is dropped without an answer. *)
Theorem sender_without_key_is_asked_to_configure d env user chat now1 now2 nonce :
  Storage.fault d = None ->
  From env = Some user -> Chat_ env = Some chat -> IsCommand (message env) = false ->
  let d' := db (HandleUpdate d (Some env) now1 now2 nonce) in
  let ct := (settings_or_unset d user).1.2 in
  let nc := (settings_or_unset d user).2 in
  (Storage.stringsTrim ct = [] \/ Storage.stringsTrim nc = [] ->
   admission d' (Some env) = Refused (ChatID chat) not_configured)
  /\ (Storage.stringsTrim ct <> [] -> Storage.stringsTrim nc <> [] ->
      (exists e, DecodeString ct = inr e) ->
      admission d' (Some env) = Dropped).
Proof.
  intros Hf Hfrom Hchat Hcmd d' ct nc. subst d' ct nc.
  rewrite (HandleUpdate_message _ _ _ _ _ _ Hfrom Hcmd).
  destruct (UpsertUser_row d user now1 Hf) as (Hf' & row & Hrow & Hset).
  destruct (GetUser_row _ _ _ Hf' Hrow) as (u & Hu & Hs & Hc & Hn).
  rewrite <- Hset. cbn [fst snd]. rewrite <- Hc, <- Hn.
  unfold Handler.admission. rewrite Hfrom, Hchat. unfold Handler.GetUser. rewrite Hu.
  unfold Handler.DecryptAPIKey, Storage.DecryptAPIKey. split.
  - intros Hblank.
    assert (is_empty (Storage.stringsTrim (Storage.APIKeyCiphertextB64 u))
            || is_empty (Storage.stringsTrim (Storage.APIKeyNonceB64 u)) = true) as ->.
    { apply orb_true_iff. destruct Hblank as [H|H]; rewrite H; [by left|by right]. }
    by rewrite orb_true_r.
  - intros H1 H2 (e & He). apply is_empty_false in H1, H2. by rewrite H1, H2, He.
Qed.

Section Cipher.
Hypothesis opens : forall nonce pt, Open_ nonce (Seal nonce pt) = inl pt.
Hypothesis decodes : forall x, DecodeString (EncodeToString x) = inl x.
Hypothesis encodes : forall x, x <> [] -> Storage.stringsTrim (EncodeToString x) <> [].
Hypothesis seals : forall nonce pt, Seal nonce pt <> [].

(** [/key] with an argument, sent in a private chat, on a database
    that answers.  With a cipher that opens what it has sealed under
    the same nonce and always seals to some bytes, and a codec that
    decodes what it has encoded, to a text that is not blank unless
    there is nothing to encode: the key read back from the table is the
    argument, trimmed; the address of the user is kept; and the
    confirmation is sent. *)
Theorem key_command_is_read_back d env user chat args now1 now2 nonce :
  Storage.fault d = None ->
  private_command env user chat (str "key") args -> TrimSpace args <> [] ->
  nonce <> [] ->
  let out := HandleUpdate d (Some env) now1 now2 (inl nonce) in
  effects out = [Sent (ChatID chat) (str "✅ API key сохранён.")]
  /\ exists u,
       Storage.GetUser ParseTime (db out) user = (u, None)
       /\ Storage.DecryptAPIKey Open_ DecodeString u = (TrimSpace args, true, None)
       /\ Storage.ServerBaseURL u = (settings_or_unset d user).1.1.
Proof using opens decodes encodes seals.
  intros Hf Hcmd Hargs Hnonce out. subst out.
  rewrite (HandleUpdate_private_command _ _ _ _ _ _ _ _ _ Hcmd). cbv zeta.
  change (eqb (str "key") (str "start")) with false.
  change (eqb (str "key") (str "help")) with false.
  change (eqb (str "key") (str "server")) with false.
  change (eqb (str "key") (str "key")) with true. cbv iota.
  destruct (UpsertUser_row d user now1 Hf) as (Hf' & row & Hrow & Hset).
  set (d' := (Storage.UpsertUser d user now1).1) in *.
  assert (Storage.stringsTrim (TrimSpace args) <> []) as Hkey.
  { rewrite StorageFacts.stringsTrim_of_trimmed by apply TrimSpace_idem. done. }
  destruct (StorageFacts.SetAPIKey_is_read_back ParseTime Seal Open_ EncodeToString
              DecodeString opens decodes encodes seals d' user (TrimSpace args) nonce
              now2 row Hf' Hrow Hkey Hnonce) as (Herr & u & Hu & Hdec & Hsrv).
  unfold Handler.cmdKey. apply is_empty_false in Hargs. rewrite Hargs.
  destruct (Storage.SetAPIKey Seal EncodeToString d' user (TrimSpace args) (inl nonce)
                              now2) as [d'' err]. simpl in Herr, Hu. subst err.
  cbn [db effects]. split; [done|]. exists u. split_and!; [done|done|].
  rewrite Hsrv. by rewrite <- Hset.
Qed.

(** The table after [/server] with an address the guard returns. *)
Lemma server_command_db d env user chat args norm now1 now2 nonce :
  Storage.fault d = None ->
  private_command env user chat (str "server") args ->
  ValidateServerBaseURL (TrimSpace args) = inl norm -> Storage.stringsTrim norm <> [] ->
  let out := HandleUpdate d (Some env) now1 now2 nonce in
  Storage.fault (db out) = None
  /\ (settings_or_unset (db out) user).1.1 = norm.
Proof.
  intros Hf Hcmd Hval Hnorm out. subst out.
  assert (TrimSpace args <> []) as Hargs.
  { intros E. rewrite E in Hval. unfold Security.ValidateServerBaseURL in Hval.
    by rewrite TrimSpace_nil in Hval. }
  rewrite (HandleUpdate_private_command _ _ _ _ _ _ _ _ _ Hcmd). cbv zeta.
  change (eqb (str "server") (str "start")) with false.
  change (eqb (str "server") (str "help")) with false.
  change (eqb (str "server") (str "server")) with true. cbv iota.
  destruct (UpsertUser_row d user now1 Hf) as (Hf' & row & Hrow & Hset).
  set (d' := (Storage.UpsertUser d user now1).1) in *.
  unfold Handler.cmdServer. apply is_empty_false in Hargs. rewrite Hargs.
  unfold Handler.ValidateServerBaseURL. rewrite Hval.
  unfold Storage.SetServerBaseURL. apply is_empty_false in Hnorm. rewrite Hnorm.
  rewrite StorageFacts.update_users by done. cbn [db]. split; [done|].
  unfold settings_or_unset, settings. cbn [Storage.users Storage.with_users].
  by rewrite lookup_alter_eq, Hrow.
Qed.

(** The table after [/key] with a key. *)
Lemma key_command_db d env user chat args now1 now2 nonce :
  Storage.fault d = None ->
  private_command env user chat (str "key") args -> TrimSpace args <> [] ->
  nonce <> [] ->
  let out := HandleUpdate d (Some env) now1 now2 (inl nonce) in
  Storage.fault (db out) = None
  /\ exists row,
       Storage.users (db out) !! user = Some row
       /\ Storage.server_base_url row = (settings_or_unset d user).1.1
       /\ forall u,
            Storage.APIKeyCiphertextB64 u = Storage.api_key_ciphertext_b64 row ->
            Storage.APIKeyNonceB64 u = Storage.api_key_nonce_b64 row ->
            Storage.DecryptAPIKey Open_ DecodeString u = (TrimSpace args, true, None).
Proof using opens decodes encodes seals.
  intros Hf Hcmd Hargs Hnonce out. subst out.
  rewrite (HandleUpdate_private_command _ _ _ _ _ _ _ _ _ Hcmd). cbv zeta.
  change (eqb (str "key") (str "start")) with false.
  change (eqb (str "key") (str "help")) with false.
  change (eqb (str "key") (str "server")) with false.
  change (eqb (str "key") (str "key")) with true. cbv iota.
  destruct (UpsertUser_row d user now1 Hf) as (Hf' & row & Hrow & Hset).
  set (d' := (Storage.UpsertUser d user now1).1) in *.
  assert (Storage.stringsTrim (TrimSpace args) <> []) as Hkey.
  { rewrite StorageFacts.stringsTrim_of_trimmed by apply TrimSpace_idem. done. }
  unfold Handler.cmdKey. apply is_empty_false in Hargs. rewrite Hargs.
  unfold Storage.SetAPIKey. apply is_empty_false in Hkey. rewrite Hkey.
  rewrite StorageFacts.update_users by done. cbn [db]. split; [done|].
  cbn [Storage.users Storage.with_users]. rewrite lookup_alter_eq, Hrow. cbn [fmap option_fmap option_map].
  eexists. split; [done|]. cbn [Storage.server_base_url Storage.api_key_ciphertext_b64
                                Storage.api_key_nonce_b64].
  split; [by rewrite <- Hset|]. intros u Hc Hn. unfold Storage.DecryptAPIKey.
  rewrite Hc, Hn.
  pose proof (encodes _ (seals nonce (TrimSpace args))) as H1. apply is_empty_false in H1.
  pose proof (encodes _ Hnonce) as H2. apply is_empty_false in H2.
  by rewrite H1, H2, !decodes, opens.
Qed.

(** From the two commands to the first message.  A user sets an
    address the guard returns and then a key, each by its command in a
    private chat, on a database that answers; with a cipher and a codec
    as above, the next message of this user that is no command reaches
    the classification, with the address the guard has returned and the
    key that was sent, trimmed. *)
Theorem configured_sender_is_served
        d user env1 chat1 args1 norm env2 chat2 args2 nonce env3 chat3
        a1 a2 n1 b1 b2 c1 c2 n3 :
  Storage.fault d = None ->
  private_command env1 user chat1 (str "server") args1 ->
  ValidateServerBaseURL (TrimSpace args1) = inl norm -> TrimSpace norm <> [] ->
  private_command env2 user chat2 (str "key") args2 -> TrimSpace args2 <> [] ->
  nonce <> [] ->
  From env3 = Some user -> Chat_ env3 = Some chat3 -> IsCommand (message env3) = false ->
  let d1 := db (HandleUpdate d (Some env1) a1 a2 n1) in
  let d2 := db (HandleUpdate d1 (Some env2) b1 b2 (inl nonce)) in
  let d3 := db (HandleUpdate d2 (Some env3) c1 c2 n3) in
  exists u,
    admission d3 (Some env3) = Proceeds u (TrimSpace args2)
    /\ Storage.ServerBaseURL u = norm.
Proof using opens decodes encodes seals.
  intros Hf Hcmd1 Hval Hnorm Hcmd2 Hargs2 Hnonce Hfrom Hchat Hmsg d1 d2 d3.
  assert (Storage.stringsTrim norm <> []) as Hnorm'.
  { intros E. apply Hnorm. by apply StorageFacts.stringsTrim_blank. }
  destruct (server_command_db d env1 user chat1 args1 norm a1 a2 n1 Hf Hcmd1 Hval Hnorm')
    as (Hf1 & Hs1). fold d1 in Hf1, Hs1.
  destruct (key_command_db d1 env2 user chat2 args2 b1 b2 nonce Hf1 Hcmd2 Hargs2 Hnonce)
    as (Hf2 & row2 & Hrow2 & Hsrv2 & Hkey2). fold d2 in Hf2, Hrow2.
  rewrite Hs1 in Hsrv2.
  subst d3. rewrite (HandleUpdate_message _ _ _ _ _ _ Hfrom Hmsg).
  destruct (UpsertUser_row d2 user c1 Hf2) as (Hf3 & row3 & Hrow3 & Hset3).
  unfold settings_or_unset, settings in Hset3. rewrite Hrow2 in Hset3.
  cbn [fmap option_fmap option_map default] in Hset3. injection Hset3 as E1 E2 E3.
  destruct (GetUser_row _ _ _ Hf3 Hrow3) as (u & Hu & Hs & Hc & Hn).
  exists u. split; [|by rewrite Hs, E1].
  unfold Handler.admission. rewrite Hfrom, Hchat. unfold Handler.GetUser. rewrite Hu.
  unfold Handler.DecryptAPIKey. rewrite (Hkey2 u) by congruence.
  rewrite Hs, E1, Hsrv2. apply is_empty_false in Hnorm. by rewrite Hnorm.
Qed.

End Cipher.

End App.

End HandlerFacts.

(* ================================================================== *)
(** * Properties of the file names                                     *)
(* ================================================================== *)

Module FileNameFacts.
Import GoString GoStringFacts Tgbotapi Attachments.

Lemma take_while_all {A} (f : A -> bool) (l : list A) :
  Forall (fun x => f x = true) (take_while f l).
Proof.
  induction l as [|x l IH]; simpl; [done|]. destruct (f x) eqn:E; [|done].
  by constructor.
Qed.

Lemma take_while_fixed {A} (f : A -> bool) (l : list A) :
  Forall (fun x => f x = true) l -> take_while f l = l.
Proof. induction 1 as [|x l Hx _ IH]; simpl; [done|]. by rewrite Hx, IH. Qed.

Lemma Forall_rev' {A} (P : A -> Prop) (l : list A) : Forall P l -> Forall P (rev l).
Proof.
  intros H. apply Forall_forall. intros x Hx.
  apply list_elem_of_In, in_rev, list_elem_of_In in Hx. by eapply Forall_forall in H.
Qed.

Lemma Base_no_slash path :
  path <> [] -> Base path = str "/" \/ (Base path <> [] /\ "/"%char ∉ Base path).
Proof.
  intros Hne. unfold Base. apply is_empty_false in Hne. rewrite Hne.
  set (p1 := rev (Classifier.drop_while is_slash (rev path))).
  set (p2 := rev (take_while (fun c => negb (is_slash c)) (rev p1))).
  destruct (is_empty p2) eqn:E; [by left|]. right. apply is_empty_false in E.
  split; [done|]. intros Hin.
  pose proof (take_while_all (fun c => negb (is_slash c)) (rev p1)) as Hall.
  apply Forall_rev' in Hall. fold p2 in Hall.
  eapply Forall_forall in Hall; [|exact Hin]. unfold is_slash in Hall.
  by rewrite bool_decide_eq_true_2 in Hall.
Qed.

Lemma Base_plain path :
  path <> [] -> "/"%char ∉ path -> Base path = path.
Proof.
  intros Hne Hno. unfold Base. pose proof Hne as Hne'. apply is_empty_false in Hne'.
  rewrite Hne'.
  assert (Forall (fun c => negb (is_slash c) = true) (rev path)) as Hall.
  { apply Forall_rev'. apply Forall_forall. intros c Hc. unfold is_slash.
    rewrite bool_decide_eq_false_2; [done|]. by intros ->. }
  assert (Classifier.drop_while is_slash (rev path) = rev path) as ->.
  { destruct (rev path) as [|c l]; [done|]. simpl.
    apply Forall_cons in Hall as [Hc _]. by destruct (is_slash c). }
  rewrite rev_involutive, take_while_fixed by done. rewrite rev_involutive.
  by rewrite Hne'.
Qed.

(** [safeFilename] gives a name without directory.  The result is
    never empty; it holds no slash, unless it is the one slash that is
    left of a name made of slashes; a blank name becomes [upload.bin];
    a name without slash is returned trimmed. *)
Theorem safeFilename_has_no_directory name :
  safeFilename name <> []
  /\ ("/"%char ∈ safeFilename name -> safeFilename name = str "/")
  /\ (TrimSpace name = [] -> safeFilename name = str "upload.bin")
  /\ (TrimSpace name <> [] -> "/"%char ∉ TrimSpace name ->
      safeFilename name = TrimSpace name).
Proof.
  unfold safeFilename. destruct (is_empty (TrimSpace name)) eqn:E.
  - apply is_empty_true in E. split_and!; [done| |done|done].
    intros Hin. exfalso. vm_compute in Hin.
    repeat (apply elem_of_cons in Hin as [Hin|Hin]; [discriminate|]).
    by apply elem_of_nil in Hin.
  - apply is_empty_false in E.
    split_and!; [| |done|intros _ Hno; by apply Base_plain].
    + destruct (Base_no_slash (TrimSpace name) E) as [->|[Hne Hno]]; done.
    + destruct (Base_no_slash (TrimSpace name) E) as [->|[Hne Hno]]; done.
Qed.

(** Every attachment [ExtractAttachments] returns has an identifier
    and a file name that are not blank. *)
Theorem ExtractAttachments_names_every_file msgs a :
  a ∈ ExtractAttachments msgs ->
  TrimSpace (FileID a) <> [] /\ TrimSpace (Filename a) <> [].
Proof.
  rewrite AttachmentsFacts.ExtractAttachments_attachments. unfold attachments.
  intros (c & -> & Hc)%list_elem_of_fmap.
  apply DedupFacts.keep_first_by_elem_of, list_elem_of_filter in Hc as [Hid _].
  rewrite AttachmentsFacts.FileID_with_default_name. split; [done|].
  unfold with_default_name. destruct (is_empty (TrimSpace (Filename c))) eqn:E.
  - done.
  - by apply is_empty_false in E.
Qed.

End FileNameFacts.

(* ================================================================== *)
(** * Scenarios                                                        *)
(* ================================================================== *)

Module Scenarios.
Import GoString Tgbotapi Classifier Collector Karakeep App Samples.

(** The text [https://example.com] alone is a bookmark of that URL. *)
Lemma link_alone_is_a_bookmark :
  Kind_ (ClassifyMessage (Some link_message)) = KindBookmark
  /\ URL (ClassifyMessage (Some link_message)) = str "https://example.com"
  /\ Notes (ClassifyMessage (Some link_message)) = [].
Proof.
  destruct (ClassifierFacts.ClassifyMessage_table link_message)
    as (_ & _ & _ & Hone & _).
  destruct (Hone ltac:(reflexivity) (str "https://example.com")
                 ltac:(vm_compute; reflexivity))
    as (Hkind & Hurl & Hsame & _).
  split; [exact Hkind|]. split; [exact Hurl|].
  apply Hsame. vm_compute. reflexivity.
Defined.

(** Three units of one album a second apart, the default delay of two
    seconds: one flush, two seconds after the third unit, with the three
    units in arrival order. *)
Lemma album_is_flushed_once :
  calls (run 0 ((0, group_message 1 album) :: album_arrivals) (4 * Second))
  = [{| at_ := 4 * Second; groupID := album;
        batch := [group_message 1 album; group_message 2 album;
                  group_message 3 album] |}]
  /\ groups (collector
               (run 0 ((0, group_message 1 album) :: album_arrivals) (4 * Second)))
     = ∅.
Proof.
  refine (proj2 (CollectorFacts.burst_is_flushed_once
                   0 album 0 (group_message 1 album) album_arrivals (4 * Second)
                   _ _ _ _) _).
  - discriminate.
  - repeat constructor.
  - lia.
  - vm_compute. repeat split; discriminate.
  - vm_compute. discriminate.
Defined.

(** Two units of one album five seconds apart: the callback is called
    twice for the identifier. *)
Lemma late_unit_is_flushed_apart :
  length (calls_for album
            (run 0 [(0, group_message 1 album); (5 * Second, group_message 2 album)]
                 (10 * Second)))
  = 2%nat.
Proof. by vm_compute. Qed.

(** A service that is never ready and answers at once: the extraction
    waiter gives up within 3 minutes and 3 seconds. *)
Lemma prompt_service_times_out :
  exists t,
    waitForExtractedContent text_content_decoder (unready_service 0) 0 0 0
                            (enough_fuel 0 0)
    = Some (false, t)
    /\ 3 * Minute < t <= 3 * Minute + 3 * Second.
Proof.
  destruct (PollingFacts.waiters_return_in_time
              text_content_decoder (unready_service 0) 0 0 0 0
              ltac:(intros i; simpl; lia))
    as (_ & _ & Hextract & _).
  destruct (Hextract ltac:(intros i b; simpl; intros [= <-]; reflexivity)
                     (enough_fuel 0 0) ltac:(lia))
    as (t & Ht & Hle & Hgt & _).
  exists t. split; [exact Ht|]. split.
  - apply (Hgt eq_refl).
  - exact Hle.
Defined.

(** A service that is never ready and takes five seconds to answer:
    the extraction waiter returns 185 seconds after its call, later than
    3 minutes and 3 seconds. *)
Lemma slow_service_overruns :
  waitForExtractedContent text_content_decoder (unready_service (5 * Second)) 0 0 0
                          (enough_fuel 0 0)
  = Some (false, 185 * Second)
  /\ 185 * Second > 0 + 3 * Minute + 3 * Second.
Proof. split; by vm_compute. Qed.

(** The text [click here] with a link on [click] yields the target of
    the link, and nothing else. *)
Lemma click_here_yields_the_link :
  ExtractURLs (str "click here") click_here_entities = [str "https://example.com"].
Proof.
  destruct (ClassifierFacts.ExtractURLs_dedup_in_order
              (str "click here") click_here_entities) as (Hout & _).
  rewrite Hout. vm_compute. reflexivity.
Defined.

(** The same sticker in two units of a batch is attached once. *)
Lemma sticker_sent_twice_is_attached_once :
  length (filter (fun a => Attachments.FileID a = str "sticker-1")
                 (Attachments.ExtractAttachments
                    [Some sticker_message; Some sticker_message]))
  = 1%nat.
Proof.
  destruct (AttachmentsFacts.ExtractAttachments_once_per_file
              [Some sticker_message; Some sticker_message])
    as (_ & _ & Hcount & _).
  rewrite Hcount. vm_compute. reflexivity.
Defined.

(** A note refused for want of a URL is submitted once more, with the
    first of its URLs. *)
Lemma refused_note_is_sent_with_its_first_url :
  (submit epoch_label url_required_service note_on_two_sites 0 []).2
  = [{| call_url := []; call_title := [];
        call_notes := Classifier.ResText note_on_two_sites |};
     {| call_url := str "https://a.example"; call_title := [];
        call_notes := Classifier.ResText note_on_two_sites |}].
Proof.
  destruct (SubmitFacts.submit_retries_only_a_failed_note
              epoch_label url_required_service note_on_two_sites 0 [])
    as ((Hretry & _) & _); [reflexivity|].
  apply (Hretry (str "https://a.example") [str "https://b.example"]).
  - discriminate.
  - reflexivity.
Defined.

End Scenarios.

(* ================================================================== *)
(** * Cases                                                            *)
(* ================================================================== *)

Module Cases.
Import GoString Tgbotapi Classifier Collector Karakeep App Samples Fixtures.

(** The URL of [read https://example.com, then reply], asked for by
    its span, comes with the rest of the text: a code point starts
    where the span ends. *)
Lemma span_before_more_text_runs_on :
  SliceByUTF16 reply_text 5 19 = str "https://example.com, then reply".
Proof.
  rewrite (Utf16Facts.SliceByUTF16_spans reply_text 5 19); [|by vm_compute].
  by vm_compute.
Defined.

(** Two albums whose units alternate: two seconds after the last unit
    no group is left, and the four units of the albums have been handed
    over. *)
Lemma alternating_albums_are_handed_over :
  groups (collector (run 0 mixed_arrivals (4 * Second))) = ∅
  /\ Delivery.delivered (run 0 mixed_arrivals (4 * Second))
     ≡ₚ Delivery.grouped mixed_arrivals.
Proof.
  destruct (DeliveryFacts.every_unit_is_handed_over_once 0 mixed_arrivals (4 * Second))
    as (H1 & H2 & _); [|by split].
  repeat (apply Forall_cons_2; [vm_compute; split; discriminate|]). apply Forall_nil_2.
Defined.

(** Two units of an album five seconds apart: one call for each, two
    seconds after it. *)
Lemma late_unit_gets_its_own_call :
  calls (run 0 [(0, group_message 1 album); (5 * Second, group_message 2 album)]
             (10 * Second))
  = [{| at_ := 2 * Second; groupID := album; batch := [group_message 1 album] |};
     {| at_ := 7 * Second; groupID := album; batch := [group_message 2 album] |}].
Proof.
  rewrite (CollectorFacts.every_burst_is_flushed_once
             0 album 0 (group_message 1 album) [(5 * Second, group_message 2 album)]
             (10 * Second)).
  - by vm_compute.
  - discriminate.
  - repeat constructor.
  - lia.
  - by vm_compute.
Defined.

(** A user who has set an address sends another message: the address
    is still there. *)
Lemma returning_user_keeps_the_address :
  exists u,
    Storage.GetUser no_instant (Storage.UpsertUser one_user_db 7 noon).1 7 = (u, None)
    /\ Storage.ServerBaseURL u = keep_address.
Proof.
  destruct (StorageFacts.UpsertUser_keeps_settings
              no_instant toy_Open toy_Decode one_user_db 7 noon eq_refl)
    as (_ & (u & Hu & _ & Hrow) & _).
  exists u. split; [exact Hu|]. exact (proj1 Hrow).
Defined.

(** An address set for a user the table does not know: the call
    succeeds and the table is as empty as before. *)
Lemma address_of_an_unknown_user_is_dropped :
  (Storage.SetServerBaseURL empty_db 7 keep_address noon).2 = None
  /\ Storage.users (Storage.SetServerBaseURL empty_db 7 keep_address noon).1 = ∅.
Proof.
  destruct (StorageFacts.SetServerBaseURL_writes_one_row
              no_instant empty_db 7 keep_address noon eq_refl) as [_ H].
  destruct H as (H1 & _ & H3); [by vm_compute|].
  split; [exact H1|]. exact (proj1 H3).
Defined.

(** The environment that sets the token and the master key gives a
    configuration that is accepted. *)
Lemma token_and_master_key_are_enough :
  Config.FromEnv sample_env = inl sample_config
  /\ Config.Validate toy_Quote sample_config = None.
Proof.
  assert (Config.FromEnv sample_env = inl sample_config) as Hcfg by (by vm_compute).
  split; [exact Hcfg|].
  apply (proj2 (ConfigFacts.Validate_after_FromEnv toy_Quote sample_env sample_config Hcfg)).
  split; [by vm_compute|discriminate].
Defined.

(** With this configuration the store is opened, under a key. *)
Lemma store_opens_on_the_sample_configuration :
  exists k,
    Storage.Open toy_Dir toy_MkdirAll toy_sqlOpen toy_B64Decode toy_Sum256 toy_NewAEAD
                 (Config.DBPath sample_config) (Config.APIKeyMasterKey sample_config)
    = inl (empty_db, k).
Proof.
  destruct (ConfigFacts.Open_after_Validate
              toy_Quote toy_Dir toy_MkdirAll toy_sqlOpen toy_B64Decode toy_Sum256
              toy_NewAEAD sample_env sample_config empty_db)
    as (k & _ & Hopen); try reflexivity.
  by exists k.
Defined.

(** A bookmark read from a service that answers with the status 200:
    no error, and the raw record is the answer cut at 32768 bytes. *)
Lemma bookmark_is_read_from_the_answer :
  (Client.GetBookmark (str "key") toy_Do toy_path_Join toy_url_path toy_decode
                      toy_decode_data toy_PathEscape (str "b1") fresh_client).1.2 = None
  /\ Raw (Client.GetBookmark (str "key") toy_Do toy_path_Join toy_url_path toy_decode
                             toy_decode_data toy_PathEscape (str "b1") fresh_client).1.1.1
     = prefix_bytes 32768 stored_record.
Proof.
  destruct (ClientFacts.GetBookmark_reads_the_first_32K
              (str "key") toy_Do toy_path_Join toy_url_path toy_decode toy_decode_data
              toy_PathEscape (str "b1") fresh_client
              {| Client.StatusCode := 200; Client.ResponseBody := stored_record |}
              eq_refl ltac:(simpl; lia))
    as (H1 & _ & H3 & _).
  split; [exact H1|exact H3].
Defined.

(** A link saved with notes: what is returned is what the same call
    without notes returns. *)
Lemma notes_do_not_change_the_created_bookmark :
  (Client.CreateBookmark (str "key") toy_Do toy_path_Join toy_url_path toy_decode
                         toy_decode_data toy_PathEscape
                         (str "https://example.com") [] (str "read later") fresh_client).1
  = (Client.CreateBookmark (str "key") toy_Do toy_path_Join toy_url_path toy_decode
                           toy_decode_data toy_PathEscape
                           (str "https://example.com") [] [] fresh_client).1.
Proof.
  exact (proj1 (ClientFacts.CreateBookmark_drops_the_outcome_of_the_notes
                  (str "key") toy_Do toy_path_Join toy_url_path toy_decode
                  toy_decode_data toy_PathEscape
                  (str "https://example.com") [] (str "read later") fresh_client
                  ltac:(discriminate))).
Defined.

(** A file of ten bytes under a limit of four: the download is
    refused, and the error counts five bytes. *)
Lemma long_file_is_refused_at_one_byte_over :
  Downloader.DownloadFileByID toy_GetFile toy_FileURL toy_Get (str "file-1") 4
  = ([], str "documents/file-1", Some (str "file too large: 5 bytes (limit 4)")).
Proof.
  destruct (DownloaderFacts.DownloadFileByID_keeps_the_limit
              toy_GetFile toy_FileURL toy_Get (str "file-1") 4 ltac:(lia))
    as (_ & _ & _ & H).
  apply (H (str "documents/file-1") ten_bytes).
  - discriminate.
  - reflexivity.
  - discriminate.
  - reflexivity.
  - simpl. lia.
  - by vm_compute.
Defined.

(** A sticker and a video declared at 60 MiB, under the default limit
    of 50 MiB: whatever is sent to the service uploads at most 50 MiB. *)
Lemma uploads_stay_under_the_default_limit :
  exists more,
    Client.sent (Uploads.client
                   (Uploads.upload (str "key") toy_Do toy_path_Join toy_url_path
                      toy_decode toy_decode_data toy_PathEscape toy_decode_asset
                      toy_decode_asset_data (str "multipart/form-data") toy_Quote
                      toy_GetFile toy_FileURL toy_Get stored_bookmark 0
                      [sticker_attachment; long_video] fresh_session).2)
    = Client.sent (Uploads.client fresh_session) ++ more
    /\ Forall (fun q => forall data,
                 Uploads.uploaded q = Some data -> len data <= Uploads.default_limit)
              more.
Proof.
  destruct (UploadsFacts.upload_keeps_the_limit
              (str "key") toy_Do toy_path_Join toy_url_path toy_decode toy_decode_data
              toy_PathEscape toy_decode_asset toy_decode_asset_data
              (str "multipart/form-data") toy_Quote toy_GetFile toy_FileURL toy_Get
              stored_bookmark 0 [sticker_attachment; long_video] fresh_session
              ltac:(lia))
    as (_ & H & _).
  exact H.
Defined.

(** The two commands of the fixtures are commands of the user 7 in a
    private chat. *)
Lemma server_command_is_private :
  Handler.private_command server_command 7 private_chat (str "server") keep_address.
Proof.
  repeat split; try reflexivity. exists (str "server"). by split.
Qed.

Lemma key_command_is_private :
  Handler.private_command key_command 7 private_chat (str "key") (str "secret-token").
Proof.
  repeat split; try reflexivity. exists (str "key"). by split.
Qed.

(** The address of the user 7 changes on the command [/server]: the
    update is a command of this user in a private chat. *)
Lemma address_changes_on_the_server_command :
  exists env chat args,
    Some server_command = Some env
    /\ (Handler.private_command env 7 chat (str "server") args
        \/ Handler.private_command env 7 chat (str "key") args).
Proof.
  apply (HandlerFacts.settings_change_by_private_command_only
           no_instant toy_Seal toy_Open toy_Encode toy_Decode toy_Parse
           Security.Host toy_LookupIP toy_URLString toy_IPString toy_Quote
           toy_FormatLocal (str "1.0") true
           empty_db (Some server_command) noon noon (inl (str "nonce")) 7).
  by vm_compute.
Defined.

(** [/server https://keep.example] from a new user: the address is
    stored as the guard returns it, and confirmed. *)
Lemma server_command_sets_the_address :
  Handler.settings_or_unset
    (Handler.db (toy_HandleUpdate empty_db (Some server_command) noon noon
                                  (inl (str "nonce")))) 7
  = (keep_address, [], [])
  /\ Handler.effects (toy_HandleUpdate empty_db (Some server_command) noon noon
                                       (inl (str "nonce")))
     = [Handler.Sent 7 (str "✅ Сервер сохранён: " ++ keep_address)].
Proof.
  exact (HandlerFacts.server_command_stores_the_guarded_address
           no_instant toy_Seal toy_Open toy_Encode toy_Decode toy_Parse
           Security.Host toy_LookupIP toy_URLString toy_IPString toy_Quote
           toy_FormatLocal (str "1.0") true
           empty_db server_command 7 private_chat keep_address noon noon
           (inl (str "nonce")) eq_refl server_command_is_private
           ltac:(discriminate)).
Defined.

(** The cipher and the codec of the fixtures are as the storage needs
    them. *)
Lemma toy_cipher_opens nonce pt : toy_Open nonce (toy_Seal nonce pt) = inl pt.
Proof.
  unfold toy_Open, toy_Seal. by rewrite skipn_cons, drop_app_length.
Qed.

Lemma toy_codec_decodes x : toy_Decode (toy_Encode x) = inl x.
Proof.
  unfold toy_Decode, toy_Encode. f_equal. cbn [length drop].
  rewrite length_app. cbn [length].
  replace (S (length x + 1) - 2)%nat with (length x) by lia.
  apply take_app_length.
Qed.

Lemma toy_codec_is_not_blank x : x <> [] -> Storage.stringsTrim (toy_Encode x) <> [].
Proof.
  intros _. rewrite StorageFacts.stringsTrim_fixed; [done| |].
  - intros c [= <-]. reflexivity.
  - intros c. unfold toy_Encode.
    change ("="%char :: x ++ ["="%char]) with (("="%char :: x) ++ ["="%char]).
    rewrite last_snoc. intros [= <-]. reflexivity.
Qed.

Lemma toy_cipher_seals nonce pt : toy_Seal nonce pt <> [].
Proof. done. Qed.

(** [/key secret-token] from a new user: the key that is read back
    from the table is the one that was sent. *)
Lemma key_command_sets_the_key :
  Handler.effects (toy_HandleUpdate empty_db (Some key_command) noon noon
                                    (inl (str "nonce")))
  = [Handler.Sent 7 (str "✅ API key сохранён.")]
  /\ exists u,
       Storage.GetUser no_instant
         (Handler.db (toy_HandleUpdate empty_db (Some key_command) noon noon
                                       (inl (str "nonce")))) 7
       = (u, None)
       /\ Storage.DecryptAPIKey toy_Open toy_Decode u = (str "secret-token", true, None).
Proof.
  destruct (HandlerFacts.key_command_is_read_back
              no_instant toy_Seal toy_Open toy_Encode toy_Decode toy_Parse
              Security.Host toy_LookupIP toy_URLString toy_IPString toy_Quote
              toy_FormatLocal (str "1.0") true
              toy_cipher_opens toy_codec_decodes toy_codec_is_not_blank toy_cipher_seals
              empty_db key_command 7 private_chat (str "secret-token") noon noon
              (str "nonce") eq_refl key_command_is_private
              ltac:(discriminate) ltac:(discriminate))
    as (Hsent & u & Hu & Hkey & _).
  split; [exact Hsent|]. exists u. split; [exact Hu|exact Hkey].
Defined.

(** The first message of a new user is answered with the request to
    configure the bot. *)
Lemma new_user_is_asked_to_configure :
  Handler.admission no_instant toy_Open toy_Decode
    (Handler.db (toy_HandleUpdate empty_db (Some link_envelope) noon noon
                                  (inl (str "nonce"))))
    (Some link_envelope)
  = Handler.Refused 7 Handler.not_configured.
Proof.
  apply (proj1 (HandlerFacts.sender_without_key_is_asked_to_configure
                  no_instant toy_Seal toy_Open toy_Encode toy_Decode toy_Parse
                  Security.Host toy_LookupIP toy_URLString toy_IPString toy_Quote
                  toy_FormatLocal (str "1.0") true
                  empty_db link_envelope 7 private_chat noon noon (inl (str "nonce"))
                  eq_refl eq_refl eq_refl eq_refl)).
  by left.
Defined.

(** After [/server https://keep.example] and [/key secret-token] the
    link of the user is taken up, with this address and this key. *)
Lemma link_is_taken_up_after_the_two_commands :
  exists u,
    Handler.admission no_instant toy_Open toy_Decode
      (Handler.db
         (toy_HandleUpdate
            (Handler.db
               (toy_HandleUpdate
                  (Handler.db (toy_HandleUpdate empty_db (Some server_command) noon noon
                                                (inl (str "nonce"))))
                  (Some key_command) noon noon (inl (str "nonce"))))
            (Some link_envelope) noon noon (inl (str "nonce"))))
      (Some link_envelope)
    = Handler.Proceeds u (str "secret-token")
    /\ Storage.ServerBaseURL u = keep_address.
Proof.
  exact (HandlerFacts.configured_sender_is_served
           no_instant toy_Seal toy_Open toy_Encode toy_Decode toy_Parse
           Security.Host toy_LookupIP toy_URLString toy_IPString toy_Quote
           toy_FormatLocal (str "1.0") true
           toy_cipher_opens toy_codec_decodes toy_codec_is_not_blank toy_cipher_seals
           empty_db 7 server_command private_chat keep_address keep_address
           key_command private_chat (str "secret-token") (str "nonce")
           link_envelope private_chat
           noon noon (inl (str "nonce")) noon noon noon noon (inl (str "nonce"))
           eq_refl server_command_is_private eq_refl ltac:(discriminate)
           key_command_is_private ltac:(discriminate) ltac:(discriminate)
           eq_refl eq_refl eq_refl).
Defined.

(** The sticker of the sample message is attached under its
    identifier, with a name. *)
Lemma sticker_gets_a_name :
  TrimSpace (Attachments.FileID sticker_attachment) <> []
  /\ TrimSpace (Attachments.Filename sticker_attachment) <> [].
Proof.
  apply (FileNameFacts.ExtractAttachments_names_every_file [Some sticker_message]).
  vm_compute. apply list_elem_of_here.
Defined.

End Cases.
